(** * Ralphy: the task execution orchestrator, embedded and verified

    A shallow embedding of
    - [cli/src/engines/base.ts]  (stream-json parsing, step detection, the
      reading of a command's output line by line),
    - [cli/src/tasks/markdown-folder.ts] (the markdown-folder task source),
    - [ralphy.sh] (the sequential orchestrator and the parallel batch
      scheduler, branch and worktree names, the markdown and GitHub task
      readers, the text [parse_ai_result] prints),
    followed by the properties proved about them.

    Conventions.
    - Text is [string] (a sequence of 8-bit characters).  A file's content is
      the text [readFileSync(_, "utf-8")] returns.
    - Built-ins of the JavaScript runtime whose full definition is the
      language standard ([JSON.parse], [JSON.stringify], [Number.parseInt],
      [toLowerCase], [trim], [path.join]) are the fields of the class
      [Runtime]; every theorem holds for every runtime.  [ref_runtime] is an
      executable instance used to run the examples.
    - External commands of the shell script (the agent CLI, git, gh, jq, the
      task file readers) are answered by an environment record [env]; what
      the script asks of the outside world is recorded as a list of [event]s.
    - The script runs under [set -euo pipefail].  A command that ends with
      a status that is not zero ends the script (or the subshell it runs in)
      unless it is a test, a member of a [&&] or [||] list other than the
      last, or runs inside a function called in such a place or inside
      [$( )]; a pipeline ends with the status of its last member that
      failed.  This is bash from version 4.0 on; what depends on the
      version after that is read from the world ([bash_version]).  The
      commands the script does not guard and that
      fail only on a broken machine ([mktemp], [touch], [rm -f], [echo]
      into a file) are taken to succeed.
    - The tools are the GNU ones; a text is a sequence of bytes, read as in
      the C locale.
    - Left out of the script's model, since no property below reads them:
      the text of the prompt, the token and cost totals (the counts jq
      prints are taken to be numbers the shell can add) and the progress
      display.  Of the polling of the status files while a batch runs the
      model keeps how it ends: it goes on while a status file says
      "setting up" or "running". *)

From Stdlib Require Import Ascii ZArith Lia Bool.
From Stdlib Require DecimalString DecimalPos.
From stdpp Require Import gmap strings list sorting.

Set Default Proof Using "Type".
Set Warnings "-register-all".

Local Open Scope Z_scope.
Local Open Scope nat_scope.

(** ** Text primitives *)

Module Text.

Definition nl : ascii := "010"%char.

(** A text of ASCII characters: the tools read the same characters in it
    in every locale, and in UTF-8 it is the text the language reads. *)
Definition is_ascii (c : ascii) : bool := nat_of_ascii c <? 128.

Fixpoint ascii_text (s : string) : bool :=
  match s with
  | EmptyString => true
  | String c s' => is_ascii c && ascii_text s'
  end.

(** [s.startsWith(p)] *)
Fixpoint startsWith (s p : string) {struct p} : bool :=
  match p with
  | EmptyString => true
  | String a p' =>
      match s with
      | EmptyString => false
      | String b s' => if Ascii.eqb a b then startsWith s' p' else false
      end
  end.

(** [s.substring(n)]: the text after the first [n] characters. *)
Fixpoint substring_from (n : nat) (s : string) : string :=
  match n with
  | O => s
  | S n' => match s with
            | EmptyString => EmptyString
            | String _ s' => substring_from n' s'
            end
  end.

(** [s.substring(0, n)]: the first [n] characters. *)
Fixpoint substring_to (n : nat) (s : string) : string :=
  match n with
  | O => EmptyString
  | S n' => match s with
            | EmptyString => EmptyString
            | String a s' => String a (substring_to n' s')
            end
  end.

(** [s.includes(p)], also the test [[[ $s == *"p"* ]]] of the shell. *)
Fixpoint includes (s p : string) : bool :=
  startsWith s p ||
  match s with
  | EmptyString => false
  | String _ s' => includes s' p
  end.

(** [s.lastIndexOf(c)] for a one-character needle; [None] stands for -1. *)
Fixpoint lastIndexOf (c : ascii) (s : string) : option nat :=
  match s with
  | EmptyString => None
  | String a s' =>
      match lastIndexOf c s' with
      | Some i => Some (S i)
      | None => if Ascii.eqb a c then Some O else None
      end
  end.

(** [s.split("\n")]: never the empty list. *)
Fixpoint split_nl (s : string) : list string :=
  match s with
  | EmptyString => [EmptyString]
  | String a s' =>
      if Ascii.eqb a nl then EmptyString :: split_nl s'
      else match split_nl s' with
           | l :: ls => String a l :: ls
           | [] => [String a EmptyString]
           end
  end.

(** [lines.join("\n")] *)
Fixpoint join_nl (ls : list string) : string :=
  match ls with
  | [] => EmptyString
  | [l] => l
  | l :: ls' => l +:+ String nl (join_nl ls')
  end.

Definition is_empty (s : string) : bool :=
  match s with EmptyString => true | _ => false end.

(** A text without line feed. *)
Fixpoint one_line (s : string) : bool :=
  match s with
  | EmptyString => true
  | String a s' => negb (Ascii.eqb a nl) && one_line s'
  end.

End Text.

(** ** JavaScript values, exceptions and the runtime built-ins *)

Module JS.

(** A number as the runtime holds it: a finite value [m * 10^e] (every
    binary64 value is one) or an infinity. *)
Inductive number :=
| Fin (m e : Z)
| Inf (negative : bool).

Inductive value :=
| VUndefined
| VNull
| VBool (b : bool)
| VNum (n : number)
| VStr (s : string)
| VArr (xs : list value)
| VObj (fields : list (string * value)).

(** The outcome of evaluating an expression: a value, or a thrown
    exception. *)
Inductive res (A : Type) :=
| Ok (a : A)
| Throw.
Arguments Ok {A} a.
Arguments Throw {A}.

Definition bind {A B} (m : res A) (k : A → res B) : res B :=
  match m with
  | Ok a => k a
  | Throw => Throw
  end.

(** [try { body } catch { handler }] *)
Definition try_catch {A} (body : res A) (handler : res A) : res A :=
  match body with
  | Ok a => Ok a
  | Throw => handler
  end.

Definition number_is_zero (n : number) : bool :=
  match n with
  | Fin m _ => Z.eqb m 0
  | Inf _ => false
  end.

(** ToBoolean *)
Definition truthy (v : value) : bool :=
  match v with
  | VUndefined | VNull => false
  | VBool b => b
  | VNum n => negb (number_is_zero n)
  | VStr s => negb (Text.is_empty s)
  | VArr _ | VObj _ => true
  end.

Definition nullish (v : value) : bool :=
  match v with
  | VUndefined | VNull => true
  | _ => false
  end.

Fixpoint own_property (fields : list (string * value)) (k : string) : value :=
  match fields with
  | [] => VUndefined
  | (k', v) :: rest => if String.eqb k' k then v else own_property rest k
  end.

(** [v.k] for the data keys the code reads ([type], [result], [usage],
    [tool], ...), none of which names a member of a built-in prototype:
    on [null] and [undefined] the access throws, an object answers with its
    own property, every other value with [undefined]. *)
Definition get (v : value) (k : string) : res value :=
  match v with
  | VUndefined | VNull => Throw
  | VObj fields => Ok (own_property fields k)
  | _ => Ok VUndefined
  end.

(** [v?.k] *)
Definition opt_get (v : value) (k : string) : res value :=
  if nullish v then Ok VUndefined else get v k.

(** [a || b], with [b] already evaluated. *)
Definition or_else (a b : value) : value :=
  if truthy a then a else b.

(** [v === "s"] *)
Definition is_str (v : value) (s : string) : bool :=
  match v with
  | VStr s' => String.eqb s' s
  | _ => false
  end.

(** The built-ins the code calls.  [JSON_parse] throws on text that is not
    JSON; [JSON_stringify] answers [None] for [undefined]; [parseInt10 s]
    is [Number.parseInt(s, 10)] with [None] for [NaN]. *)
Class Runtime := {
  JSON_parse : string → res value;
  JSON_stringify : value → option string;
  toLowerCase : string → string;
  trim : string → string;
  parseInt10 : string → option Z;
  path_join : string → string → string;
}.

End JS.

Declare Scope js_scope.
Delimit Scope js_scope with js.
Notation "'let*' x ':=' m 'in' k" := (JS.bind m (fun x => k))
  (at level 10, x name, m at level 100, k at level 200) : js_scope.

(** ** [cli/src/engines/base.ts] *)

Module Base.
Import Text JS.
Local Open Scope js_scope.

Section WithRuntime.
Context `{RT : Runtime}.

(** The three variables the loop of [parseStreamJsonResult] assigns. *)
Record acc := mk_acc {
  response : value;
  inputTokens : value;
  outputTokens : value;
}.

(** The body of the [try] block, for one line.  The assignments made
    before an exception stay: the accumulator comes back with the
    outcome. *)
Definition result_line (line : string) (a : acc) : acc * res unit :=
  match JSON_parse line with
  | Throw => (a, Throw)
  | Ok parsed =>
      match get parsed "type" with
      | Throw => (a, Throw)
      | Ok ty =>
          if is_str ty "result" then
            match get parsed "result" with
            | Throw => (a, Throw)
            | Ok r =>
                let a1 := mk_acc (or_else r (VStr "Task completed"))
                                 (inputTokens a) (outputTokens a) in
                match (let* u := get parsed "usage" in
                       opt_get u "input_tokens") with
                | Throw => (a1, Throw)
                | Ok it =>
                    let a2 := mk_acc (response a1)
                                     (or_else it (VNum (Fin 0 0)))
                                     (outputTokens a1) in
                    match (let* u := get parsed "usage" in
                           opt_get u "output_tokens") with
                    | Throw => (a2, Throw)
                    | Ok ot =>
                        (mk_acc (response a2) (inputTokens a2)
                                (or_else ot (VNum (Fin 0 0))), Ok tt)
                    end
                end
            end
          else (a, Ok tt)
      end
  end.

(** [for (const line of lines) { try { ... } catch { } }] *)
Fixpoint result_loop (lines : list string) (a : acc) : acc * res unit :=
  match lines with
  | [] => (a, Ok tt)
  | line :: rest =>
      let '(a', r) := result_line line a in
      match try_catch r (Ok tt) with
      | Ok _ => result_loop rest a'
      | Throw => (a', Throw)
      end
  end.

(** [output.split("\n").filter(Boolean)] *)
Definition nonempty_lines (output : string) : list string :=
  List.filter (fun l => negb (is_empty l)) (split_nl output).

Definition parseStreamJsonResult (output : string) : res acc :=
  let lines := nonempty_lines output in
  let '(a, r) :=
    result_loop lines (mk_acc (VStr "") (VNum (Fin 0 0)) (VNum (Fin 0 0))) in
  let* _ := r in
  Ok (mk_acc (or_else (response a) (VStr "Task completed"))
             (inputTokens a) (outputTokens a)).

(** The [try] block of [checkForErrors] for one line: [Some v] when the
    block executes [return v]. *)
Definition error_line (line : string) : res (option value) :=
  let* parsed := JSON_parse line in
  let* ty := get parsed "type" in
  if is_str ty "error" then
    let* e := get parsed "error" in
    let* m := opt_get e "message" in
    if truthy m then Ok (Some m)
    else
      let* m' := get parsed "message" in
      if truthy m' then Ok (Some m') else Ok (Some (VStr "Unknown error"))
  else Ok None.

Fixpoint error_loop (lines : list string) : res (option value) :=
  match lines with
  | [] => Ok None
  | line :: rest =>
      match try_catch (error_line line) (Ok None) with
      | Ok (Some v) => Ok (Some v)
      | Ok None => error_loop rest
      | Throw => Throw
      end
  end.

(** [checkForErrors]: the message, or [VNull] for [null]. *)
Definition checkForErrors (output : string) : res value :=
  let* r := error_loop (nonempty_lines output) in
  Ok (match r with Some v => v | None => VNull end).

(** [v?.toLowerCase()]: [None] is [undefined]; the call throws on a value
    that has no such method. *)
Definition lower_opt (v : value) : res (option string) :=
  match v with
  | VUndefined | VNull => Ok None
  | VStr s => Ok (Some (toLowerCase s))
  | _ => Throw
  end.

Definition truthy_text (o : option string) : bool :=
  match o with
  | Some s => negb (is_empty s)
  | None => false
  end.

(** [parsed.k?.toLowerCase()] *)
Definition lower_field (parsed : value) (k : string) : res (option string) :=
  let* v := get parsed k in lower_opt v.

(** [parsed.tool?.toLowerCase() || parsed.name?.toLowerCase() ||
     parsed.tool_name?.toLowerCase() || ""] *)
Definition tool_name_of (parsed : value) : res string :=
  let* t := lower_field parsed "tool" in
  if truthy_text t then Ok (default "" t)
  else
    let* n := lower_field parsed "name" in
    if truthy_text n then Ok (default "" n)
    else
      let* tn := lower_field parsed "tool_name" in
      if truthy_text tn then Ok (default "" tn) else Ok "".

(** [parsed.command?.toLowerCase() || ""] *)
Definition command_of (parsed : value) : res string :=
  let* c := lower_field parsed "command" in
  if truthy_text c then Ok (default "" c) else Ok "".

(** [JSON.stringify(parsed).toLowerCase()] *)
Definition content_of (parsed : value) : res string :=
  match JSON_stringify parsed with
  | Some s => Ok (toLowerCase s)
  | None => Throw
  end.

(** The chain of tests of [detectStepFromOutput], once the tool name, the
    command and the content are known. *)
Definition classify (toolName command content : string) : option string :=
  if includes content "git commit" || includes command "git commit"
  then Some "Committing"
  else if includes content "git add" || includes command "git add"
  then Some "Staging"
  else if includes content "lint" || includes content "eslint"
          || includes content "biome" || includes content "prettier"
  then Some "Linting"
  else if includes content "vitest" || includes content "jest"
          || includes content "bun test" || includes content "npm test"
          || includes content "pytest" || includes content "go test"
  then Some "Testing"
  else if includes content ".test." || includes content ".spec."
          || includes content "__tests__" || includes content "_test.go"
  then Some "Writing tests"
  else if String.eqb toolName "write" || String.eqb toolName "edit"
  then Some "Implementing"
  else if String.eqb toolName "read" || String.eqb toolName "glob"
          || String.eqb toolName "grep"
  then Some "Reading code"
  else None.

(** The [try] block of [detectStepFromOutput]. *)
Definition detect_parsed (trimmed : string) : res (option string) :=
  let* parsed := JSON_parse trimmed in
  let* toolName := tool_name_of parsed in
  let* command := command_of parsed in
  let* content := content_of parsed in
  Ok (classify toolName command content).

(** [detectStepFromOutput]: [None] is [null], no step detected. *)
Definition detectStepFromOutput (line : string) : res (option string) :=
  let trimmed := trim line in
  if negb (startsWith trimmed "{") then Ok None
  else try_catch (detect_parsed trimmed) (Ok None).

End WithRuntime.
End Base.

(** ** [cli/src/tasks/markdown-folder.ts] *)

Module MarkdownFolder.
Import Text JS.
Local Open Scope js_scope.

Section WithRuntime.
Context `{RT : Runtime}.

(** The files of the disk, by path: [readFileSync] throws on a missing
    path, [writeFileSync] stores the new content. *)
Definition readFileSync (fs : gmap string string) (path : string) : res string :=
  match fs !! path with
  | Some content => Ok content
  | None => Throw
  end.

Definition writeFileSync (fs : gmap string string) (path content : string)
  : gmap string string :=
  <[path := content]> fs.

(** [parseTaskId]: the path of the file and the line number, [None] for
    [NaN].  Throws when the id has no colon. *)
Definition parseTaskId (folderPath id : string) : res (string * option Z) :=
  match lastIndexOf ":" id with
  | None => Throw
  | Some lastColon =>
      let fileName := substring_to lastColon id in
      let lineNumber := parseInt10 (substring_from (lastColon + 1) id) in
      let filePath := path_join folderPath fileName in
      Ok (filePath, lineNumber)
  end.

(** [line.replace(/^- \[ \] /, "- [x] ")] *)
Definition check_off (line : string) : string :=
  if startsWith line "- [ ] " then "- [x] " +:+ substring_from 6 line else line.

(** [lineIndex >= 0 && lineIndex < lines.length]; a comparison with [NaN]
    is false. *)
Definition in_range (lineIndex : option Z) (lines : list string) : bool :=
  match lineIndex with
  | Some i => (0 <=? i)%Z && (i <? Z.of_nat (length lines))%Z
  | None => false
  end.

(** [markComplete]: the disk after the call, and how the call ended. *)
Definition markComplete (folderPath id : string) (fs : gmap string string)
  : gmap string string * res unit :=
  match parseTaskId folderPath id with
  | Throw => (fs, Throw)
  | Ok (filePath, lineNumber) =>
      match readFileSync fs filePath with
      | Throw => (fs, Throw)
      | Ok content =>
          let lines := split_nl content in
          let lineIndex := (fun n => n - 1)%Z <$> lineNumber in
          if in_range lineIndex lines then
            let i := Z.to_nat (default 0%Z lineIndex) in
            let lines' := <[i := check_off (lines !!! i)]> lines in
            (writeFileSync fs filePath (join_nl lines'), Ok tt)
          else (fs, Ok tt)
      end
  end.

(** The lines of the file at [path], as [markComplete] reads them. *)
Definition file_lines (fs : gmap string string) (path : string)
  : option (list string) :=
  split_nl <$> fs !! path.

End WithRuntime.
End MarkdownFolder.

(** ** [ralphy.sh] *)

Module Ralphy.
Import Text.

(** Text with double quotes in it, as the patterns of the script have. *)
Definition dq : ascii := "034"%char.
Definition quoted (s : string) : string := String dq (s +:+ String dq "").
(** ["k":"v"] *)
Definition pair_text (k v : string) : string := quoted k +:+ ":" +:+ quoted v.

(** [grep pat]: the lines that contain the (literal) pattern. *)
Definition grep (pat text : string) : list string :=
  List.filter (fun l => includes l pat) (split_nl text).

(** [grep -qE 'p1|p2|...']: some line contains one of the alternatives. *)
Definition grep_qE (alts : list string) (text : string) : bool :=
  existsb (fun l => existsb (includes l) alts) (split_nl text).

(** [tail -1] inside [$( )]: the last line, or nothing. *)
Definition tail_1 (ls : list string) : string := List.last ls "".
(** [head -1] inside [$( )] *)
Definition head_1 (ls : list string) : string := List.hd "" ls.

(** The lines fed to a command by a pipe, each ended by a line feed. *)
Fixpoint piped (ls : list string) : string :=
  match ls with
  | [] => ""
  | l :: ls' => l +:+ String nl (piped ls')
  end.

(** [$( ... )] removes the line feeds that end the output. *)
Fixpoint strip_nl_rev (r : list ascii) : list ascii :=
  match r with
  | c :: r' => if Ascii.eqb c nl then strip_nl_rev r' else r
  | [] => []
  end.
Definition captured (out : string) : string :=
  String.string_of_list_ascii
    (rev (strip_nl_rev (rev (String.list_ascii_of_string out)))).

(** A text made of line feeds. *)
Fixpoint line_feeds (t : string) : bool :=
  match t with
  | EmptyString => true
  | String c t' => Ascii.eqb c nl && line_feeds t'
  end.

(** [$( cmd 2>/dev/null || echo dflt )] for a command that printed [out]
    and ended with status zero or not. *)
Definition captured_or (r : string * bool) (dflt : string) : string :=
  captured (if r.2 then r.1 else r.1 +:+ dflt +:+ String nl "").

Definition is_digit (c : ascii) : bool :=
  (48 <=? nat_of_ascii c) && (nat_of_ascii c <=? 57).
Fixpoint all_digits (s : string) : bool :=
  match s with
  | EmptyString => true
  | String c s' => is_digit c && all_digits s'
  end.
(** [[[ "$x" =~ ^[0-9]+$ ]] || x=0] *)
Definition sanitize (x : string) : string :=
  if negb (is_empty x) && all_digits x then x else "0".

Inductive prd_source := markdown | yaml | github.

(** *** The markdown task file *)

(** [sed 's/[[\.*^$()+?{|]/\\&/g'] on a title: a backslash before each of
    the twelve characters of the bracket expression. *)
Definition sed_special (c : ascii) : bool :=
  existsb (Ascii.eqb c) (String.list_ascii_of_string "[\.*^$()+?{|").

Fixpoint sed_escape (task : string) : string :=
  match task with
  | EmptyString => EmptyString
  | String c task' =>
      if sed_special c then String "\" (String c (sed_escape task'))
      else String c (sed_escape task')
  end.

(** What GNU sed reads between the first two slashes of [s/.../.../], a
    basic regular expression.  A backslash makes a group, an alternative
    or a repetition of [( ) | + ? {] and an ordinary character of
    [[ ] \ . * ^ $]. *)
Inductive token :=
  | t_char (c : ascii)
  | t_bol
  | t_open
  | t_close
  | t_alt
  | t_plus
  | t_opt
  | t_brace.

(** The token a backslash and [c] make; [None] for the pairs this model
    does not read (a digit, a letter, [}], ...). *)
Definition escaped_token (c : ascii) : option token :=
  if Ascii.eqb c "(" then Some t_open
  else if Ascii.eqb c ")" then Some t_close
  else if Ascii.eqb c "|" then Some t_alt
  else if Ascii.eqb c "+" then Some t_plus
  else if Ascii.eqb c "?" then Some t_opt
  else if Ascii.eqb c "{" then Some t_brace
  else if sed_special c || Ascii.eqb c "]" then Some (t_char c)
  else None.

(** The tokens of a pattern.  [None] for a pattern this model does not
    read: one with a slash or a line feed (the command [s] ends there), a
    character outside ASCII (what a character is depends on the locale),
    a [. * [ $] or a later [^] without a backslash, or a pair not known
    to [escaped_token]. *)
Fixpoint bre_tokens (first : bool) (pattern : string) : option (list token) :=
  match pattern with
  | EmptyString => Some []
  | String c rest =>
      if Ascii.eqb c "\" then
        match rest with
        | EmptyString => None
        | String c' rest' =>
            match escaped_token c', bre_tokens false rest' with
            | Some t, Some ts => Some (t :: ts)
            | _, _ => None
            end
        end
      else if Ascii.eqb c "^" then
        match first, bre_tokens false rest with
        | true, Some ts => Some (t_bol :: ts)
        | _, _ => None
        end
      else if existsb (Ascii.eqb c) (nl :: String.list_ascii_of_string "/.*[$")
              || negb (is_ascii c) then None
      else
        match bre_tokens false rest with
        | Some ts => Some (t_char c :: ts)
        | None => None
        end
  end.

Inductive regex :=
  | r_empty
  | r_char (c : ascii)
  | r_bol
  | r_seq (r1 r2 : regex)
  | r_alt (r1 r2 : regex)
  | r_plus (r : regex)
  | r_opt (r : regex).

(** The parser's state inside one group (or outside every group): the
    alternatives closed by [\|] so far, the alternative under way, and its
    last item, to which a repetition applies. *)
Record frame := {
  alternatives : option regex;
  branch : regex;
  last_item : option regex;
}.

Definition empty_frame : frame :=
  {| alternatives := None; branch := r_empty; last_item := None |}.

Definition frame_branch (f : frame) : regex :=
  match last_item f with
  | Some item => r_seq (branch f) item
  | None => branch f
  end.

Definition frame_regex (f : frame) : regex :=
  match alternatives f with
  | Some alts => r_alt alts (frame_branch f)
  | None => frame_branch f
  end.

Definition push_item (item : regex) (f : frame) : frame :=
  {| alternatives := alternatives f; branch := frame_branch f;
     last_item := Some item |}.

(** A repetition after an item repeats it; where an alternative or a
    group begins, and after [^], it is an ordinary character. *)
Definition repeat_item (rep : regex → regex) (c : ascii) (f : frame) : frame :=
  match last_item f with
  | Some item =>
      {| alternatives := alternatives f; branch := branch f;
         last_item := Some (rep item) |}
  | None => push_item (r_char c) f
  end.

(** [regcomp]: [None] where it fails, on a [\)] without its [\(], a [\(]
    without its [\)], or a [\{] (no [\}] can follow it here). *)
Fixpoint bre_parse (ts : list token) (f : frame) (outer : list frame)
  : option regex :=
  match ts with
  | [] => match outer with [] => Some (frame_regex f) | _ :: _ => None end
  | t :: ts' =>
      match t with
      | t_char c => bre_parse ts' (push_item (r_char c) f) outer
      | t_bol =>
          bre_parse ts'
            {| alternatives := alternatives f;
               branch := r_seq (frame_branch f) r_bol;
               last_item := None |} outer
      | t_open => bre_parse ts' empty_frame (f :: outer)
      | t_close =>
          match outer with
          | [] => None
          | g :: outer' => bre_parse ts' (push_item (frame_regex f) g) outer'
          end
      | t_alt =>
          bre_parse ts'
            {| alternatives := Some (frame_regex f); branch := r_empty;
               last_item := None |} outer
      | t_plus => bre_parse ts' (repeat_item r_plus "+" f) outer
      | t_opt => bre_parse ts' (repeat_item r_opt "?" f) outer
      | t_brace => None
      end
  end.

(** A list of places without its repetitions. *)
Fixpoint distinct (places : list string) : list string :=
  match places with
  | [] => []
  | s :: places' =>
      if existsb (String.eqb s) places' then distinct places'
      else s :: distinct places'
  end.

(** [repeated n step from]: what one to [n] rounds of [step] reach. *)
Fixpoint repeated (n : nat) (step : list string → list string)
    (from : list string) : list string :=
  match n with
  | O => []
  | S n' =>
      let once := distinct (step from) in
      distinct (once ++ repeated n' step once)
  end.

(** [matches r line from]: what is left of [line] after [r] has matched,
    in every way it can, from one of the places [from] (a place is the
    text from there to the end of the line). *)
Fixpoint matches (r : regex) (line : string) (from : list string)
  : list string :=
  match r with
  | r_empty => from
  | r_char c =>
      from ≫= fun s =>
        match s with
        | String c' s' => if Ascii.eqb c c' then [s'] else []
        | EmptyString => []
        end
  | r_bol =>
      List.filter (fun s => Nat.eqb (String.length s) (String.length line))
        from
  | r_seq r1 r2 => matches r2 line (matches r1 line from)
  | r_alt r1 r2 => distinct (matches r1 line from ++ matches r2 line from)
  | r_plus r' => repeated (S (String.length line)) (matches r' line) from
  | r_opt r' => distinct (from ++ matches r' line from)
  end.

(** The places a sequence of ordinary characters leads to. *)
Fixpoint eat (cs : list ascii) (from : list string) : list string :=
  match cs with
  | [] => from
  | c :: cs' => eat cs' (matches (r_char c) "" from)
  end.

Fixpoint shortest (rests : list string) : option string :=
  match rests with
  | [] => None
  | s :: rests' =>
      match shortest rests' with
      | Some s' =>
          Some (if String.length s' <? String.length s then s' else s)
      | None => Some s
      end
  end.

(** The first place of [line], from the place [s] on, where [r] matches,
    and what is left after the longest match there. *)
Fixpoint first_match (r : regex) (line s : string) : option (string * string) :=
  match shortest (matches r line [s]) with
  | Some rest => Some (s, rest)
  | None =>
      match s with
      | String _ s' => first_match r line s'
      | EmptyString => None
      end
  end.

(** The replacement of [s/.../.../]: [&] is the text matched, a backslash
    and one of the twelve characters is that character.  [None] for the
    replacements this model does not read. *)
Inductive piece := p_char (c : ascii) | p_matched.

Fixpoint sed_replacement (replacement : string) : option (list piece) :=
  match replacement with
  | EmptyString => Some []
  | String c rest =>
      if Ascii.eqb c "\" then
        match rest with
        | EmptyString => None
        | String c' rest' =>
            match sed_special c', sed_replacement rest' with
            | true, Some ps => Some (p_char c' :: ps)
            | _, _ => None
            end
        end
      else if Ascii.eqb c "/" || Ascii.eqb c nl || negb (is_ascii c) then None
      else
        match sed_replacement rest with
        | Some ps => Some ((if Ascii.eqb c "&" then p_matched else p_char c) :: ps)
        | None => None
        end
  end.

Fixpoint replaced (ps : list piece) (matched : string) : string :=
  match ps with
  | [] => ""
  | p_char c :: ps' => String c (replaced ps' matched)
  | p_matched :: ps' => matched +:+ replaced ps' matched
  end.

(** [s/pattern/replacement/] on one line: the first match, the longest
    there, is replaced. *)
Definition substitute (r : regex) (ps : list piece) (line : string) : string :=
  match first_match r line line with
  | Some (s, rest) =>
      let before := String.length line - String.length s in
      let matched := String.length s - String.length rest in
      substring_to before line +:+ replaced ps (substring_to matched s) +:+ rest
  | None => line
  end.

(** How [sed -i "s/pattern/replacement/" file] ends: with the lines it
    wrote, or with an error before it has read the file; [sed_unread]
    for a command this model does not read. *)
Inductive sed_end :=
  | sed_done (lines : list string)
  | sed_failed
  | sed_unread.

Definition sed_s (pattern replacement : string) (lines : list string)
  : sed_end :=
  match bre_tokens true pattern, sed_replacement replacement with
  | Some ts, Some ps =>
      match bre_parse ts empty_frame [] with
      | Some r => sed_done (substitute r ps <$> lines)
      | None => sed_failed
      end
  | _, _ => sed_unread
  end.

(** [mark_task_complete_markdown]: the lines of the task file after
    [sed -i] has run. *)
Definition mark_task_complete_markdown (task : string) (lines : list string)
  : sed_end :=
  let escaped_task := sed_escape task in
  sed_s ("^- \[ \] " +:+ escaped_task) ("- [x] " +:+ escaped_task) lines.

(** A title is plain when each of its characters is an ASCII character
    that neither the escaping step rewrites nor [s/.../.../] reads
    specially (the slash, the ampersand, the line feed). *)
Definition sed_plain_char (c : ascii) : bool :=
  is_ascii c
  && negb (existsb (Ascii.eqb c)
             (nl :: String.list_ascii_of_string "[\.*^$()+?{|/&")).

Fixpoint sed_plain (task : string) : bool :=
  match task with
  | EmptyString => true
  | String c task' => sed_plain_char c && sed_plain task'
  end.

(** What the substitution comes to on one line for a plain title: the
    line that starts with the unchecked box and the title gets the
    checked box. *)
Definition sed_check_off (task line : string) : string :=
  if startsWith line ("- [ ] " +:+ task)
  then "- [x] " +:+ task +:+ substring_from (6 + String.length task) line
  else line.

Record config := {
  USE_OPENCODE : bool;
  DRY_RUN : bool;
  MAX_ITERATIONS : Z;
  MAX_RETRIES : Z;
  BRANCH_PER_TASK : bool;
  CREATE_PR : bool;
  MAX_PARALLEL : Z;
  PRD_SOURCE : prd_source;
}.

(** The jq programs of the script. *)
Inductive jq_filter :=
| jq_result              (* -r '.result // "No result text"' *)
| jq_usage_input         (* -r '.usage.input_tokens // 0' *)
| jq_usage_output        (* -r '.usage.output_tokens // 0' *)
| jq_part_tokens_input   (* -r '.part.tokens.input // 0' *)
| jq_part_tokens_output  (* -r '.part.tokens.output // 0' *)
| jq_part_cost           (* -r '.part.cost // 0' *)
| jq_text_parts          (* -rs 'map(.part.text // "") | join("")' *)
| jq_error_message.      (* -r '.error.message // .message // .' *)

(** The pipelines of the script whose reader may stop before its writer
    has written all. *)
Inductive pipeline :=
| pipe_error_test      (* echo "$result" | grep -q '"type":"error"' *)
| pipe_error_message.  (* ... | grep '"type":"error"' | head -1 | jq ... *)

(** What the outside world answers.
    - [bash_version]: the version of the bash that runs the script, major
      and minor;
    - [sigpipe p text]: whether, in pipeline [p], the writer of [text] is
      killed by SIGPIPE because its reader has stopped reading (it can be
      only when [text] is larger than the buffer of a pipe);
    - [agent_exit n k]: the exit status of the agent command in attempt [k]
      of agent [n], in parallel mode;
    - [mark_exit n]: the exit status of the command that marks the task of
      agent [n] complete in a markdown or YAML task file (sed, yq);
    - [count_remaining_tasks i], [count_completed_tasks i]: what the two
      counting functions print in iteration [i];
    - [get_next_task i]: what [get_next_task] prints in iteration [i];
    - [get_all_tasks]: the lines [get_all_tasks] prints;
    - [create_task_branch t]: what [$(create_task_branch t)] captures;
    - [agent_output n k]: the content of the output file after attempt
      number [k] (from 0) of run [n] (the iteration in sequential mode, the
      agent number in parallel mode);
    - [worktree_created n]: whether the worktree directory of agent [n]
      exists after [create_agent_worktree];
    - [jq f input]: what jq prints on [input], and whether it ended with
      status zero. *)
Record env := {
  bash_version : Z * Z;
  sigpipe : pipeline → string → bool;
  agent_exit : Z → Z → Z;
  mark_exit : Z → Z;
  count_remaining_tasks : Z → string;
  count_completed_tasks : Z → string;
  get_next_task : Z → string;
  get_all_tasks : list string;
  create_task_branch : string → string;
  agent_output : Z → Z → string;
  worktree_created : Z → bool;
  jq : jq_filter → string → string * bool;
}.

(** The world [E] with another answer of [count_remaining_tasks]. *)
Definition with_remaining (remaining : Z → string) (E : env) : env := {|
  bash_version := bash_version E;
  sigpipe := sigpipe E;
  agent_exit := agent_exit E;
  mark_exit := mark_exit E;
  count_remaining_tasks := remaining;
  count_completed_tasks := count_completed_tasks E;
  get_next_task := get_next_task E;
  get_all_tasks := get_all_tasks E;
  create_task_branch := create_task_branch E;
  agent_output := agent_output E;
  worktree_created := worktree_created E;
  jq := jq E;
|}.

(** The world [E] with another bash. *)
Definition with_bash (version : Z * Z) (E : env) : env := {|
  bash_version := version;
  sigpipe := sigpipe E;
  agent_exit := agent_exit E;
  mark_exit := mark_exit E;
  count_remaining_tasks := count_remaining_tasks E;
  count_completed_tasks := count_completed_tasks E;
  get_next_task := get_next_task E;
  get_all_tasks := get_all_tasks E;
  create_task_branch := create_task_branch E;
  agent_output := agent_output E;
  worktree_created := worktree_created E;
  jq := jq E;
|}.

(** The world [E] with other exit statuses of the agent command, and of
    the marking command. *)
Definition with_agent_exit (exit : Z → Z → Z) (E : env) : env := {|
  bash_version := bash_version E;
  sigpipe := sigpipe E;
  agent_exit := exit;
  mark_exit := mark_exit E;
  count_remaining_tasks := count_remaining_tasks E;
  count_completed_tasks := count_completed_tasks E;
  get_next_task := get_next_task E;
  get_all_tasks := get_all_tasks E;
  create_task_branch := create_task_branch E;
  agent_output := agent_output E;
  worktree_created := worktree_created E;
  jq := jq E;
|}.

Definition with_mark_exit (exit : Z → Z) (E : env) : env := {|
  bash_version := bash_version E;
  sigpipe := sigpipe E;
  agent_exit := agent_exit E;
  mark_exit := exit;
  count_remaining_tasks := count_remaining_tasks E;
  count_completed_tasks := count_completed_tasks E;
  get_next_task := get_next_task E;
  get_all_tasks := get_all_tasks E;
  create_task_branch := create_task_branch E;
  agent_output := agent_output E;
  worktree_created := worktree_created E;
  jq := jq E;
|}.

Definition version_at_least (v w : Z * Z) : bool :=
  (w.1 <? v.1)%Z || ((w.1 =? v.1)%Z && (w.2 <=? v.2)%Z).

(** Since bash 4.1 the commands [(( ))] and [[[ ]]] are subject to
    [set -e]: an arithmetic command whose value is zero has status 1 and
    ends the script. *)
Definition arith_errexit (E : env) : bool :=
  version_at_least (bash_version E) (4, 1)%Z.

(** [((x++))] under [set -e], for [x] worth [v]: whether the script goes
    on. *)
Definition arith_goes_on (E : env) (v : Z) : bool :=
  negb (arith_errexit E && (v =? 0)%Z).

(** Before bash 4.4, ["${a[@]}"] for an array without element is an unbound
    variable under [set -u], and ends the script. *)
Definition empty_array_unbound (E : env) : bool :=
  negb (version_at_least (bash_version E) (4, 4)%Z).

(** The states of a status file. *)
Inductive status := waiting | setting_up | running | finished | failed.

(** What the script does to the outside world. [ev_status n s] is
    [echo s > status_file] for agent [n] ([finished] is the word "done"). *)
Inductive event :=
| ev_show_progress (completed remaining : string)
| ev_create_task_branch (task : string)
| ev_run_ai (task : string)
| ev_sleep
| ev_mark_task_complete (src : prd_source) (task : string)
| ev_create_pull_request (branch task : string)
| ev_return_to_base_branch
| ev_show_summary
| ev_notify_done
| ev_status (agent_num : Z) (s : status)
| ev_create_agent_worktree (agent_num : Z) (task : string)
| ev_seed_worktree (agent_num : Z)
| ev_run_agent (agent_num : Z) (task : string)
| ev_push_and_pr (agent_num : Z) (task : string)
| ev_cleanup_agent_worktree (agent_num : Z).

(** The four values [parse_ai_result] prints. *)
Record ai_result := {
  response : string;
  input_tokens : string;
  output_tokens : string;
  actual_cost : string;
}.

(** *** Step detection of [monitor_progress] *)

(** The [if]/[elif] chain over the last 5000 bytes of the output file;
    the step shown so far stays when no test succeeds. *)
Definition monitor_step (content current_step : string) : string :=
  if grep_qE ["git commit"; pair_text "command" "git commit"] content
  then "Committing"
  else if grep_qE ["git add"; pair_text "command" "git add"] content
  then "Staging"
  else if grep_qE ["progress.txt"] content
  then "Logging"
  else if grep_qE ["PRD.md"; "tasks.yaml"] content
  then "Updating PRD"
  else if grep_qE ["lint"; "eslint"; "biome"; "prettier"] content
  then "Linting"
  else if grep_qE ["vitest"; "jest"; "bun test"; "npm test"; "pytest";
                   "go test"] content
  then "Testing"
  else if grep_qE [".test."; ".spec."; "__tests__"; "_test.go"] content
  then "Writing tests"
  else if grep_qE [pair_text "tool" "Write"; pair_text "tool" "write";
                   pair_text "tool" "Edit"; pair_text "tool" "edit";
                   pair_text "name" "write"; pair_text "name" "edit"] content
  then "Implementing"
  else if grep_qE [pair_text "tool" "Read"; pair_text "tool" "read";
                   pair_text "tool" "Glob"; pair_text "tool" "glob";
                   pair_text "tool" "Grep"; pair_text "tool" "grep";
                   pair_text "name" "read"; pair_text "name" "glob";
                   pair_text "name" "grep"] content
  then "Reading code"
  else current_step.

Section WithEnv.
Variable cfg : config.
Variable E : env.

(** *** [parse_ai_result] and [check_for_errors] *)

(** The text of the [text] records of OpenCode:
    [$(echo "$result" | grep '"type":"text"' | jq -rs ... || echo "")];
    the pipeline fails when grep selects no line or jq fails. *)
Definition text_parts (result : string) : string :=
  let texts := grep (pair_text "type" "text") result in
  let out := jq E jq_text_parts (piped texts) in
  captured_or (out.1, negb (is_empty (piped texts)) && out.2) "".

Definition parse_ai_result (result : string) : ai_result :=
  if USE_OPENCODE cfg then
    let step_finish := tail_1 (grep (pair_text "type" "step_finish") result) in
    let '(input_tokens, output_tokens, actual_cost) :=
      if negb (is_empty step_finish) then
        let input := piped [step_finish] in
        (captured_or (jq E jq_part_tokens_input input) "0",
         captured_or (jq E jq_part_tokens_output input) "0",
         captured_or (jq E jq_part_cost input) "0")
      else ("0", "0", "0") in
    let response := text_parts result in
    let response := if is_empty response then "Task completed" else response in
    {| response := response;
       input_tokens := sanitize input_tokens;
       output_tokens := sanitize output_tokens;
       actual_cost := actual_cost |}
  else
    let result_line := tail_1 (grep (pair_text "type" "result") result) in
    let '(response, input_tokens, output_tokens) :=
      if negb (is_empty result_line) then
        let input := piped [result_line] in
        (captured_or (jq E jq_result input) "Could not parse result",
         captured_or (jq E jq_usage_input input) "0",
         captured_or (jq E jq_usage_output input) "0")
      else ("", "0", "0") in
    {| response := response;
       input_tokens := sanitize input_tokens;
       output_tokens := sanitize output_tokens;
       actual_cost := "0" |}.

(** [check_for_errors]: [Some msg] when the function prints [msg] and
    returns 1, [None] when it returns 0.  Under [pipefail] the test
    [echo "$result" | grep -q ...] fails also when grep finds a record and
    echo is killed before it has written all; the pipeline of the message
    fails also when grep is killed after [head -1] has read its line. *)
Definition check_for_errors (result : string) : option string :=
  let errors := grep (pair_text "type" "error") result in
  match errors with
  | [] => None
  | _ :: _ =>
      if sigpipe E pipe_error_test result then None
      else
        let out := jq E jq_error_message (piped [head_1 errors]) in
        Some (captured_or
                (out.1,
                 out.2 && negb (sigpipe E pipe_error_message (piped errors)))
                "Unknown error")
  end.

(** *** The sequential orchestrator *)

Definition return_to_base_branch : list event :=
  if BRANCH_PER_TASK cfg then [ev_return_to_base_branch] else [].

(** [mark_task_complete]: the [case] on [PRD_SOURCE]. *)
Definition mark_task_complete (task : string) : list event :=
  match PRD_SOURCE cfg with
  | markdown => [ev_mark_task_complete markdown task]
  | yaml => [ev_mark_task_complete yaml task]
  | github => [ev_mark_task_complete github task]
  end.

Definition promise_marker : string := "<promise>COMPLETE</promise>".

(** The end of the loop body of [run_single_task], reached with a result
    that is not empty and carries no error: the return code and what is
    done before returning. *)
Definition task_succeeded (current_task branch_name result : string)
  : Z * list event :=
  let marked :=
    match PRD_SOURCE cfg with
    | github => mark_task_complete current_task
    | _ => []
    end in
  let pr :=
    if CREATE_PR cfg && negb (is_empty branch_name)
    then [ev_create_pull_request branch_name current_task] else [] in
  let code := if includes result promise_marker then 2%Z else 0%Z in
  (code, marked ++ pr ++ return_to_base_branch).

(** [while [[ $retry_count -lt $MAX_RETRIES ]]] of [run_single_task];
    [run] is the iteration, [None] is a loop that has not ended within
    [fuel] rounds.  The function is called in [run_single_task ... ||
    result_code=$?], so that no command in it ends the script. *)
Fixpoint retry_loop (fuel : nat) (run : Z) (current_task branch_name : string)
    (retry_count : Z) : option (Z * list event) :=
  match fuel with
  | O => None
  | S fuel' =>
      if (retry_count <? MAX_RETRIES cfg)%Z then
        (* [result=$(cat "$tmpfile" 2>/dev/null || echo "")] *)
        let result := captured (agent_output E run retry_count) in
        (* after [((retry_count++))] *)
        let failed_attempt (retry_count : Z) :=
          if (retry_count <? MAX_RETRIES cfg)%Z then
            '(code, evs) ← retry_loop fuel' run current_task branch_name
                                      retry_count;
            Some (code, ev_run_ai current_task :: ev_sleep :: evs)
          else Some (1%Z, ev_run_ai current_task :: return_to_base_branch) in
        if is_empty result then failed_attempt (retry_count + 1)%Z
        else
          match check_for_errors result with
          | Some _ => failed_attempt (retry_count + 1)%Z
          | None =>
              let '(code, evs) :=
                task_succeeded current_task branch_name result in
              Some (code, ev_run_ai current_task :: evs)
          end
      else Some (1%Z, return_to_base_branch)
  end.

(** [run_single_task task_name task_num]: the return code (0 done, 1
    failed, 2 nothing left or all complete) and the events;
    [ev_show_progress] is the line "Completed: ... | Remaining: ...". *)
Definition run_single_task (task_name : string) (task_num : Z)
  : option (Z * list event) :=
  let progress :=
    ev_show_progress (count_completed_tasks E task_num)
                     (count_remaining_tasks E task_num) in
  let current_task :=
    if negb (is_empty task_name) then task_name
    else get_next_task E task_num in
  if is_empty current_task then Some (2%Z, [progress])
  else
    let branch_name :=
      if BRANCH_PER_TASK cfg then create_task_branch E current_task else "" in
    let branched :=
      if BRANCH_PER_TASK cfg then [ev_create_task_branch current_task]
      else [] in
    if DRY_RUN cfg
    then Some (0%Z, progress :: branched ++ return_to_base_branch)
    else
      '(code, evs) ← retry_loop (S (Z.to_nat (MAX_RETRIES cfg))) task_num
                                current_task branch_name 0;
      Some (code, progress :: branched ++ evs).

(** An attempt that left [output] in the output file succeeded: the text
    [$(cat "$tmpfile")] captures from it is not empty and
    [check_for_errors] returns 0 on it. *)
Definition attempt_succeeded (output : string) : bool :=
  let result := captured output in
  negb (is_empty result)
  && match check_for_errors result with None => true | Some _ => false end.

(** The events of [n] failed attempts that are tried again. *)
Fixpoint retries (task : string) (n : nat) : list event :=
  match n with
  | O => []
  | S n' => ev_run_ai task :: ev_sleep :: retries task n'
  end.

(** One round of the [while true] loop of [main]. *)
Inductive outcome :=
| Continue (iteration : Z)
| Exit (code : Z).

Definition main_iteration (iteration : Z) : option (outcome * list event) :=
  (* [((iteration++))] *)
  if negb (arith_goes_on E iteration) then Some (Exit 1, [])
  else
    let iteration := (iteration + 1)%Z in
    '(result_code, evs) ← run_single_task "" iteration;
    if (result_code =? 2)%Z
    then Some (Exit 0, evs ++ [ev_show_summary; ev_notify_done])
    else if (MAX_ITERATIONS cfg >? 0)%Z && (iteration >=? MAX_ITERATIONS cfg)%Z
    then Some (Exit 0, evs ++ [ev_show_summary; ev_notify_done])
    else Some (Continue iteration, evs ++ [ev_sleep]).

Fixpoint main_loop (fuel : nat) (iteration : Z) : option (Z * list event) :=
  match fuel with
  | O => None
  | S fuel' =>
      '(o, evs) ← main_iteration iteration;
      match o with
      | Exit code => Some (code, evs)
      | Continue iteration' =>
          '(code, evs') ← main_loop fuel' iteration';
          Some (code, evs ++ evs')
      end
  end.

(** *** The parallel batch scheduler *)

(** How the retry loop of an agent ended: with output, without, or because
    the shell ended the process of the agent, with this status. *)
Inductive agent_end :=
| agent_success
| agent_failure
| agent_died (status : Z).

(** [while [[ $retry -lt $MAX_RETRIES ]]] of [run_parallel_agent], which
    runs in a subshell of its own, under [set -e]: the agent command is
    run in the foreground, so that a status that is not zero ends the
    process; so does [((retry++))] from zero in a bash that applies
    [set -e] to it. *)
Fixpoint agent_loop (fuel : nat) (task_name : string) (agent_num retry : Z)
  : option (agent_end * list event) :=
  match fuel with
  | O => None
  | S fuel' =>
      if (retry <? MAX_RETRIES cfg)%Z then
        let run := ev_run_agent agent_num task_name in
        if negb (agent_exit E agent_num retry =? 0)%Z
        then Some (agent_died (agent_exit E agent_num retry), [run])
        else
          (* [result=$(cat "$tmpfile" 2>/dev/null || echo "")] *)
          let result := captured (agent_output E agent_num retry) in
          if negb (is_empty result) then Some (agent_success, [run])
          else if negb (arith_goes_on E retry)
          then Some (agent_died 1, [run])
          else
            '(e, evs) ← agent_loop fuel' task_name agent_num (retry + 1)%Z;
            Some (e, run :: ev_sleep :: evs)
      else Some (agent_failure, [])
  end.

(** [run_parallel_agent]: the exit status of the process of the agent and
    its events.  A process the shell ended has written no status after
    "running" and has not removed its worktree. *)
Definition run_parallel_agent (task_name : string) (agent_num : Z)
  : option (Z * list event) :=
  let setup :=
    [ev_status agent_num setting_up;
     ev_create_agent_worktree agent_num task_name] in
  if negb (worktree_created E agent_num)
  then Some (1%Z, setup ++ [ev_status agent_num failed])
  else
    '(e, evs) ← agent_loop (S (Z.to_nat (MAX_RETRIES cfg))) task_name
                           agent_num 0;
    let started :=
      setup ++ [ev_status agent_num running; ev_seed_worktree agent_num]
            ++ evs in
    match e with
    | agent_success =>
        Some (0%Z,
              started
              ++ (if CREATE_PR cfg then [ev_push_and_pr agent_num task_name]
                  else [])
              ++ [ev_status agent_num finished;
                  ev_cleanup_agent_worktree agent_num])
    | agent_failure =>
        Some (1%Z,
              started ++ [ev_status agent_num failed;
                          ev_cleanup_agent_worktree agent_num])
    | agent_died status => Some (status, started)
    end.

(** The content of a status file: the last status written to it. *)
Fixpoint last_status (evs : list event) (s : status) : status :=
  match evs with
  | [] => s
  | ev_status _ s' :: evs' => last_status evs' s'
  | _ :: evs' => last_status evs' s
  end.

(** One slot of a batch: its task, its agent number, and what its
    background process did after [echo "waiting" > "$status_file"]. *)
Record slot := {
  slot_task : string;
  slot_agent_num : Z;
  slot_events : list event;
}.

Definition status_file (sl : slot) : status :=
  last_status (slot_events sl) waiting.

(** [for ((i = a; i < b; i++))]: the values [i] takes. *)
Definition zrange (a b : Z) : list Z := seqZ a (b - a).

(** The slot started for [tasks[i]]. *)
Definition start_agent (tasks : list string) (i : Z) : option slot :=
  let task := default "" (tasks !! Z.to_nat i) in
  let agent_num := (i + 1)%Z in
  '(_, evs) ← run_parallel_agent task agent_num;
  Some {| slot_task := task; slot_agent_num := agent_num;
          slot_events := ev_status agent_num waiting :: evs |}.

(** The loop that starts the agents of a batch, with [((iteration++))]
    before each: the slots started, the counter, and whether the counter
    ended the script. *)
Fixpoint start_agents (tasks : list string) (indices : list Z)
    (iteration : Z) : option (list slot * Z * bool) :=
  match indices with
  | [] => Some ([], iteration, false)
  | i :: rest =>
      if negb (arith_goes_on E iteration) then Some ([], iteration, true)
      else
        sl ← start_agent tasks i;
        '(slots, iteration', ended) ←
          start_agents tasks rest (iteration + 1)%Z;
        Some (sl :: slots, iteration', ended)
  end.

(** The polling loop looks at the status files only: it goes on for ever
    over a slot whose file says "setting up" or "running" after its
    process has ended. *)
Definition stuck (sl : slot) : bool :=
  match status_file sl with
  | setting_up | running => true
  | _ => false
  end.

(** The [case "$status"] of the results loop, for one slot. *)
Definition record_slot (sl : slot) : list event :=
  match status_file sl with
  | finished =>
      match PRD_SOURCE cfg with
      | markdown => [ev_mark_task_complete markdown (slot_task sl)]
      | yaml => [ev_mark_task_complete yaml (slot_task sl)]
      | github => [ev_mark_task_complete github (slot_task sl)]
      end
  | failed => []
  | _ => []
  end.

(** The exit status of the marking command of a slot that is "done":
    [gh issue close ... || true] cannot fail, sed and yq can. *)
Definition mark_status (sl : slot) : Z :=
  match PRD_SOURCE cfg with
  | github => 0%Z
  | _ => mark_exit E (slot_agent_num sl)
  end.

(** The results loop: its events, and the status of the marking command
    that ended the script, if one did. *)
Fixpoint results_loop (slots : list slot) : list event * option Z :=
  match slots with
  | [] => ([], None)
  | sl :: rest =>
      match status_file sl with
      | finished =>
          if (mark_status sl =? 0)%Z then
            let '(evs, ended) := results_loop rest in
            (record_slot sl ++ evs, ended)
          else (record_slot sl, Some (mark_status sl))
      | _ => results_loop rest
      end
  end.

(** A batch that has run: its slots in order, then the events of the
    results loop. *)
Record batch := {
  batch_slots : list slot;
  batch_results : list event;
}.

(** How a function of the script ended: it returned, or the shell ended
    the script in it. *)
Inductive abort :=
| by_arith                  (* an arithmetic command was worth zero *)
| by_status (status : Z)    (* a command ended with this status *)
| by_unbound.               (* an unbound variable was expanded *)

Inductive ending :=
| Returned (code : Z)
| Aborted (a : abort).

(** [while [[ $batch_start -lt $total_tasks ]]]: how the loop ended, the
    batches whose results loop was reached, and the iteration counter at
    the end.  [None] is a loop that has not ended within [fuel] rounds, or
    whose polling loop never ends.  The counters of the polling loop are
    counted up from zero in every round. *)
Fixpoint batch_loop (fuel : nat) (tasks : list string)
    (batch_start batch_num iteration : Z)
  : option (ending * list batch * Z) :=
  match fuel with
  | O => None
  | S fuel' =>
      let total_tasks := Z.of_nat (length tasks) in
      if (batch_start <? total_tasks)%Z then
        (* [((batch_num++))] *)
        if negb (arith_goes_on E batch_num)
        then Some (Aborted by_arith, [], iteration)
        else
          let batch_end := (batch_start + MAX_PARALLEL cfg)%Z in
          let batch_end :=
            if (batch_end >? total_tasks)%Z then total_tasks else batch_end in
          '(slots, iteration, ended) ←
            start_agents tasks (zrange batch_start batch_end) iteration;
          if ended : bool then Some (Aborted by_arith, [], iteration)
          else
            match slots with
            | [] =>
                (* [for pid in "${parallel_pids[@]}"] *)
                if empty_array_unbound E
                then Some (Aborted by_unbound, [], iteration)
                else
                  let b := {| batch_slots := []; batch_results := [] |} in
                  if (MAX_ITERATIONS cfg >? 0)%Z
                     && (iteration >=? MAX_ITERATIONS cfg)%Z
                  then Some (Returned 0, [b], iteration)
                  else
                    '(e, bs, iteration') ←
                      batch_loop fuel' tasks batch_end (batch_num + 1)
                                 iteration;
                    Some (e, b :: bs, iteration')
            | _ :: _ =>
                (* [((setting_up++))], [((running++))], ... *)
                if arith_errexit E then Some (Aborted by_arith, [], iteration)
                else if existsb stuck slots then None
                else
                  let '(results, ended) := results_loop slots in
                  let b := {| batch_slots := slots;
                              batch_results := results |} in
                  match ended with
                  | Some status =>
                      Some (Aborted (by_status status), [b], iteration)
                  | None =>
                      if (MAX_ITERATIONS cfg >? 0)%Z
                         && (iteration >=? MAX_ITERATIONS cfg)%Z
                      then Some (Returned 0, [b], iteration)
                      else
                        '(e, bs, iteration') ←
                          batch_loop fuel' tasks batch_end (batch_num + 1)
                                     iteration;
                        Some (e, b :: bs, iteration')
                  end
            end
      else Some (Returned 0, [], iteration)
  end.

(** The pending tasks: the lines of [get_all_tasks] that are not empty. *)
Definition pending_tasks : list string :=
  List.filter (fun t => negb (is_empty t)) (get_all_tasks E).

(** The tasks of each batch, in order. *)
Definition batch_tasks (bs : list batch) : list (list string) :=
  (fun b => slot_task <$> batch_slots b) <$> bs.

(** The task and the final status of each slot of each batch. *)
Definition batch_statuses (bs : list batch) : list (list (string * status)) :=
  (fun b => (fun sl => (slot_task sl, status_file sl)) <$> batch_slots b) <$> bs.

(** [run_parallel_tasks]: how it ended (it returns 2 when there is no
    task), the batches run and the iteration counter at the end. *)
Definition run_parallel_tasks (iteration : Z)
  : option (ending * list batch * Z) :=
  let tasks := pending_tasks in
  if Nat.eqb (length tasks) 0 then Some (Returned 2, [], iteration)
  else batch_loop (S (length tasks)) tasks 0 0 iteration.

(** [run_parallel_tasks; show_summary; notify_done; exit 0] in [main]:
    whether the script gets to [exit 0].  A function that returns a status
    that is not zero ends the script too. *)
Definition exits_zero (e : ending) : bool :=
  match e with
  | Returned code => (code =? 0)%Z
  | Aborted _ => false
  end.

End WithEnv.
End Ralphy.

(** ** A reference runtime

    Executable versions of the built-ins, to run the code on concrete
    inputs.  They follow the standard on 8-bit text: white space is the
    ASCII white space, letter case is that of A-Z, [JSON_parse] does not
    accept [\u] escapes and keeps a number literal exact instead of rounding
    it to binary64, [JSON_stringify] prints integers the way the language
    does and other numbers in plain positional notation, [path_join] puts a
    slash between its arguments. *)

Module Ref.
Import Text JS.

Definition code (c : ascii) : nat := nat_of_ascii c.

Definition lower_char (c : ascii) : ascii :=
  if (65 <=? code c) && (code c <=? 90) then ascii_of_nat (code c + 32) else c.

Fixpoint toLowerCase (s : string) : string :=
  match s with
  | EmptyString => EmptyString
  | String c s' => String (lower_char c) (toLowerCase s')
  end.

Definition is_space (c : ascii) : bool :=
  (code c =? 32) || ((9 <=? code c) && (code c <=? 13)).

Fixpoint trim_start (s : string) : string :=
  match s with
  | String c s' => if is_space c then trim_start s' else s
  | EmptyString => EmptyString
  end.

Fixpoint trim_end (s : string) : string :=
  match s with
  | EmptyString => EmptyString
  | String c s' =>
      match trim_end s' with
      | EmptyString => if is_space c then EmptyString else String c EmptyString
      | t => String c t
      end
  end.

Definition trim (s : string) : string := trim_end (trim_start s).

Definition is_digit (c : ascii) : bool := (48 <=? code c) && (code c <=? 57).
Definition digit (c : ascii) : Z := Z.of_nat (code c - 48).

(** The digits at the head of the text, their value (after the digits
    [acc]) and their number, and the rest of the text. *)
Fixpoint digits (l : list ascii) (acc : Z) (n : nat) : Z * nat * list ascii :=
  match l with
  | c :: l' => if is_digit c then digits l' (acc * 10 + digit c)%Z (S n)
               else (acc, n, l)
  | [] => (acc, n, [])
  end.

Definition parseInt10 (s : string) : option Z :=
  let l := String.list_ascii_of_string (trim_start s) in
  let '(negative, l) :=
    match l with
    | c :: l' => if code c =? 45 then (true, l')
                 else if code c =? 43 then (false, l') else (false, l)
    | [] => (false, [])
    end in
  let '(v, n, _) := digits l 0 0 in
  if n =? 0 then None else Some (if negative : bool then - v else v)%Z.

Definition path_join (a b : string) : string := a +:+ "/" +:+ b.

(** *** Printing *)

Definition decimal (z : Z) : string :=
  DecimalString.NilZero.string_of_int (Z.to_int z).

Definition hex_digit (n : nat) : ascii :=
  if n <? 10 then ascii_of_nat (48 + n) else ascii_of_nat (87 + n).

Definition escape_char (c : ascii) : string :=
  let n := code c in
  if n =? 34 then String "\" (String c "")
  else if n =? 92 then "\\"
  else if n =? 8 then "\b"
  else if n =? 9 then "\t"
  else if n =? 10 then "\n"
  else if n =? 12 then "\f"
  else if n =? 13 then "\r"
  else if n <? 32
  then "\u00" +:+ String (hex_digit (n / 16)) (String (hex_digit (n mod 16)) "")
  else String c "".

Fixpoint escape (s : string) : string :=
  match s with
  | EmptyString => EmptyString
  | String c s' => escape_char c +:+ escape s'
  end.

Definition quote (s : string) : string :=
  String Ralphy.dq (escape s +:+ String Ralphy.dq "").

Fixpoint zeros (n : nat) : string :=
  match n with O => "" | S n' => String "0" (zeros n') end.

Definition print_number (n : number) : string :=
  match n with
  | Inf _ => "null"
  | Fin m e =>
      if (0 <=? e)%Z then
        if (m =? 0)%Z then "0" else decimal m +:+ zeros (Z.to_nat e)
      else
        let k := Z.to_nat (- e) in
        let ds := decimal (Z.abs m) in
        let ds := zeros (S k - String.length ds) +:+ ds in
        let i := String.length ds - k in
        (if (m <? 0)%Z then "-" else "") +:+ substring_to i ds +:+ "." +:+ substring_from i ds
  end.

Definition commas (parts : list string) : string :=
  match parts with
  | [] => ""
  | p :: ps => p +:+ String.concat "" ((fun q => "," +:+ q) <$> ps)
  end.

(** [JSON.stringify] inside an array or an object: [None] for a value
    that is left out of an object. *)
Fixpoint print (v : value) : option string :=
  match v with
  | VUndefined => None
  | VNull => Some "null"
  | VBool b => Some (if b then "true" else "false")
  | VNum n => Some (print_number n)
  | VStr s => Some (quote s)
  | VArr xs =>
      Some ("[" +:+ commas ((fun x => default "null" (print x)) <$> xs) +:+ "]")
  | VObj fields =>
      let field (kv : string * value) :=
        match print kv.2 with
        | Some p => [quote kv.1 +:+ ":" +:+ p]
        | None => []
        end in
      Some ("{" +:+ commas (fields ≫= field) +:+ "}")
  end.

Definition JSON_stringify (v : value) : option string := print v.

(** *** Parsing *)

Definition is_json_space (c : ascii) : bool :=
  (code c =? 32) || (code c =? 9) || (code c =? 10) || (code c =? 13).

Fixpoint skip_ws (l : list ascii) : list ascii :=
  match l with
  | c :: l' => if is_json_space c then skip_ws l' else l
  | [] => []
  end.

Definition unescape (c : ascii) : option ascii :=
  let n := code c in
  if (n =? 34) || (n =? 92) || (n =? 47) then Some c
  else if n =? 98 then Some (ascii_of_nat 8)
  else if n =? 102 then Some (ascii_of_nat 12)
  else if n =? 110 then Some (ascii_of_nat 10)
  else if n =? 114 then Some (ascii_of_nat 13)
  else if n =? 116 then Some (ascii_of_nat 9)
  else None.

(** The text of a string literal after its opening quote. *)
Fixpoint string_body (l : list ascii) : option (string * list ascii) :=
  match l with
  | [] => None
  | c :: l' =>
      if code c =? 34 then Some (EmptyString, l')
      else if code c =? 92 then
        match l' with
        | e :: l'' =>
            c' ← unescape e;
            '(s, r) ← string_body l'';
            Some (String c' s, r)
        | [] => None
        end
      else if code c <? 32 then None
      else '(s, r) ← string_body l'; Some (String c s, r)
  end.

Definition number_literal (l : list ascii) : option (number * list ascii) :=
  let '(negative, l) :=
    match l with
    | c :: l' => if code c =? 45 then (true, l') else (false, l)
    | [] => (false, [])
    end in
  '(int, r) ←
    match l with
    | c :: l' =>
        if code c =? 48 then Some (0%Z, l')
        else if is_digit c then
          let '(v, _, r) := digits l 0 0 in Some (v, r)
        else None
    | [] => None
    end;
  '(m, frac, r) ←
    match r with
    | c :: r' =>
        if code c =? 46 then
          let '(v, n, r'') := digits r' int 0 in
          if n =? 0 then None else Some (v, n, r'')
        else Some (int, 0, r)
    | [] => Some (int, 0, [])
    end;
  '(e, r) ←
    match r with
    | c :: r' =>
        if (code c =? 101) || (code c =? 69) then
          let '(neg_e, r') :=
            match r' with
            | s :: r'' => if code s =? 45 then (true, r'')
                          else if code s =? 43 then (false, r'')
                          else (false, r')
            | [] => (false, [])
            end in
          let '(v, n, r'') := digits r' 0 0 in
          if n =? 0 then None
          else Some (if neg_e : bool then (- v)%Z else v, r'')
        else Some (0%Z, r)
    | [] => Some (0%Z, [])
    end;
  Some (Fin (if negative : bool then - m else m) (e - Z.of_nat frac), r).

Fixpoint expect (word : list ascii) (l : list ascii) : option (list ascii) :=
  match word with
  | [] => Some l
  | w :: word' =>
      match l with
      | c :: l' => if Ascii.eqb w c then expect word' l' else None
      | [] => None
      end
  end.

Definition keyword (word : string) (v : value) (l : list ascii)
  : option (value * list ascii) :=
  r ← expect (String.list_ascii_of_string word) l; Some (v, r).

(** A later member with the same key replaces the earlier one. *)
Fixpoint set_field (k : string) (v : value) (fields : list (string * value))
  : list (string * value) :=
  match fields with
  | [] => [(k, v)]
  | (k', v') :: rest =>
      if String.eqb k' k then (k, v) :: rest
      else (k', v') :: set_field k v rest
  end.

Fixpoint parse_value (fuel : nat) (l : list ascii) : option (value * list ascii) :=
  match fuel with
  | O => None
  | S fuel' =>
      (* the elements after [ or after a comma *)
      let fix elements (n : nat) (l : list ascii) (acc : list value)
        : option (value * list ascii) :=
        match n with
        | O => None
        | S n' =>
            '(v, r) ← parse_value fuel' l;
            match skip_ws r with
            | c :: r' =>
                if code c =? 44 then elements n' r' (acc ++ [v])
                else if code c =? 93 then Some (VArr (acc ++ [v]), r')
                else None
            | [] => None
            end
        end in
      (* the members after { or after a comma *)
      let fix members (n : nat) (l : list ascii) (acc : list (string * value))
        : option (value * list ascii) :=
        match n with
        | O => None
        | S n' =>
            match skip_ws l with
            | q :: l' =>
                if code q =? 34 then
                  '(k, r) ← string_body l';
                  match skip_ws r with
                  | c :: r' =>
                      if code c =? 58 then
                        '(v, r'') ← parse_value fuel' r';
                        match skip_ws r'' with
                        | d :: r3 =>
                            if code d =? 44
                            then members n' r3 (set_field k v acc)
                            else if code d =? 125
                            then Some (VObj (set_field k v acc), r3)
                            else None
                        | [] => None
                        end
                      else None
                  | [] => None
                  end
                else None
            | [] => None
            end
        end in
      match skip_ws l with
      | [] => None
      | c :: l' =>
          let n := code c in
          if n =? 123 then
            match skip_ws l' with
            | d :: r => if code d =? 125 then Some (VObj [], r)
                        else members fuel' l' []
            | [] => None
            end
          else if n =? 91 then
            match skip_ws l' with
            | d :: r => if code d =? 93 then Some (VArr [], r)
                        else elements fuel' l' []
            | [] => None
            end
          else if n =? 34 then
            '(s, r) ← string_body l'; Some (VStr s, r)
          else if n =? 116 then keyword "true" (VBool true) (c :: l')
          else if n =? 102 then keyword "false" (VBool false) (c :: l')
          else if n =? 110 then keyword "null" VNull (c :: l')
          else '(x, r) ← number_literal (c :: l'); Some (VNum x, r)
      end
  end.

Definition JSON_parse (s : string) : res value :=
  let l := String.list_ascii_of_string s in
  match parse_value (S (length l)) l with
  | Some (v, r) =>
      match skip_ws r with
      | [] => Ok v
      | _ :: _ => Throw
      end
  | None => Throw
  end.

(** *** jq, on the programs of the script

    A value that is not a string is printed on one line. *)

(** [.k]: [None] is the error of indexing what is neither an object nor
    [null]. *)
Definition jq_index (o : option value) (k : string) : option value :=
  match o with
  | Some (VObj fields) =>
      Some (match own_property fields k with VUndefined => VNull | x => x end)
  | Some VNull => Some VNull
  | _ => None
  end.

(** [a // b] *)
Definition jq_alt (a : option value) (b : value) : value :=
  match a with
  | Some VNull | Some (VBool false) | None => b
  | Some v => v
  end.

Definition jq_raw (v : value) : string :=
  match v with
  | VStr s => s
  | _ => default "null" (print v)
  end.

Definition jq_eval (f : Ralphy.jq_filter) (v : value) : value :=
  let zero := VNum (Fin 0 0) in
  let path ks := foldl jq_index (Some v) ks in
  match f with
  | Ralphy.jq_result => jq_alt (path ["result"]) (VStr "No result text")
  | Ralphy.jq_usage_input => jq_alt (path ["usage"; "input_tokens"]) zero
  | Ralphy.jq_usage_output => jq_alt (path ["usage"; "output_tokens"]) zero
  | Ralphy.jq_part_tokens_input => jq_alt (path ["part"; "tokens"; "input"]) zero
  | Ralphy.jq_part_tokens_output => jq_alt (path ["part"; "tokens"; "output"]) zero
  | Ralphy.jq_part_cost => jq_alt (path ["part"; "cost"]) zero
  | Ralphy.jq_text_parts => jq_alt (path ["part"; "text"]) (VStr "")
  | Ralphy.jq_error_message =>
      jq_alt (path ["error"; "message"]) (jq_alt (path ["message"]) v)
  end.

(** What [join("")] makes of an element. *)
Definition jq_join_part (v : value) : option string :=
  match v with
  | VNull => Some ""
  | VStr s => Some s
  | VNum _ | VBool _ => print v
  | _ => None
  end.

Definition parse_lines (input : string) : option (list value) :=
  mapM (fun l => match JSON_parse l with Ok v => Some v | Throw => None end)
       (List.filter (fun l => negb (is_empty (trim l))) (split_nl input)).

Definition jq (f : Ralphy.jq_filter) (input : string) : string * bool :=
  match parse_lines input with
  | None => ("", false)
  | Some vs =>
      match f with
      | Ralphy.jq_text_parts =>
          match mapM (fun v => jq_join_part (jq_eval f v)) vs with
          | Some parts => (String.concat "" parts +:+ String nl "", true)
          | None => ("", false)
          end
      | _ => (Ralphy.piped ((fun v => jq_raw (jq_eval f v)) <$> vs), true)
      end
  end.

(** An outside world for the examples: the pending tasks, the output of
    each attempt, and the agents whose worktree can be created.  The
    script is run by bash 4.0, no writer of a pipeline is killed, and the
    agent and marking commands end with status zero. *)
Definition world (tasks : list string) (output : Z → Z → string)
    (worktree : Z → bool) : Ralphy.env := {|
  Ralphy.bash_version := (4, 0)%Z;
  Ralphy.sigpipe := fun _ _ => false;
  Ralphy.agent_exit := fun _ _ => 0%Z;
  Ralphy.mark_exit := fun _ => 0%Z;
  Ralphy.count_remaining_tasks := fun _ => decimal (Z.of_nat (length tasks));
  Ralphy.count_completed_tasks := fun _ => "0";
  Ralphy.get_next_task := fun _ => substring_to 50 (List.hd "" tasks);
  Ralphy.get_all_tasks := tasks;
  Ralphy.create_task_branch := fun t => "ralphy/" +:+ t;
  Ralphy.agent_output := output;
  Ralphy.worktree_created := worktree;
  Ralphy.jq := jq;
|}.

End Ref.

#[export] Instance ref_runtime : JS.Runtime := {|
  JS.JSON_parse := Ref.JSON_parse;
  JS.JSON_stringify := Ref.JSON_stringify;
  JS.toLowerCase := Ref.toLowerCase;
  JS.trim := Ref.trim;
  JS.parseInt10 := Ref.parseInt10;
  JS.path_join := Ref.path_join;
|}.

(** ** The specification's wording, for comparison *)

Module Spec.
Import Text.

(** The first rule, in the order of the list, whose test succeeds. *)
Fixpoint first_match {A} (rules : list ((A → bool) * string)) (x : A)
  : option string :=
  match rules with
  | [] => None
  | (test, step) :: rules' =>
      if test x then Some step else first_match rules' x
  end.

(** What a line offers to the tests of [detectStepFromOutput]. *)
Record line_view := {
  toolName : string;
  command : string;
  content : string;
}.

Definition mentions (words : list string) (v : line_view) : bool :=
  existsb (includes (content v)) words.

Definition tool_is (names : list string) (v : line_view) : bool :=
  existsb (String.eqb (toolName v)) names.

Definition commit_keyword (v : line_view) : bool :=
  mentions ["git commit"] v || includes (command v) "git commit".
Definition staging_keyword (v : line_view) : bool :=
  mentions ["git add"] v || includes (command v) "git add".
(** The tracker files are those [monitor_progress] looks for; the content
    of a line is in lower case. *)
Definition tracker_file : line_view → bool :=
  mentions ["progress.txt"; "prd.md"; "tasks.yaml"].
Definition lint_keyword : line_view → bool :=
  mentions ["lint"; "eslint"; "biome"; "prettier"].
Definition test_runner_keyword : line_view → bool :=
  mentions ["vitest"; "jest"; "bun test"; "npm test"; "pytest"; "go test"].
Definition test_file_path : line_view → bool :=
  mentions [".test."; ".spec."; "__tests__"; "_test.go"].
Definition write_tool : line_view → bool := tool_is ["write"; "edit"].
Definition read_tool : line_view → bool := tool_is ["read"; "glob"; "grep"].

(** The order of precedence as the specification states it. *)
Definition stated_order : list ((line_view → bool) * string) :=
  [(commit_keyword, "Committing");
   (staging_keyword, "Staging");
   (tracker_file, "Updating tracker");
   (lint_keyword, "Linting");
   (test_runner_keyword, "Testing");
   (test_file_path, "Writing tests");
   (write_tool, "Implementing");
   (read_tool, "Reading code")].

(** The order [detectStepFromOutput] follows. *)
Definition detect_order : list ((line_view → bool) * string) :=
  [(commit_keyword, "Committing");
   (staging_keyword, "Staging");
   (lint_keyword, "Linting");
   (test_runner_keyword, "Testing");
   (test_file_path, "Writing tests");
   (write_tool, "Implementing");
   (read_tool, "Reading code")].

(** The order [monitor_progress] follows, over the text it looks at. *)
Definition monitor_order : list ((string → bool) * string) :=
  let q := Ralphy.pair_text in
  let g := Ralphy.grep_qE in
  [(g ["git commit"; q "command" "git commit"], "Committing");
   (g ["git add"; q "command" "git add"], "Staging");
   (g ["progress.txt"], "Logging");
   (g ["PRD.md"; "tasks.yaml"], "Updating PRD");
   (g ["lint"; "eslint"; "biome"; "prettier"], "Linting");
   (g ["vitest"; "jest"; "bun test"; "npm test"; "pytest"; "go test"],
    "Testing");
   (g [".test."; ".spec."; "__tests__"; "_test.go"], "Writing tests");
   (g [q "tool" "Write"; q "tool" "write"; q "tool" "Edit"; q "tool" "edit";
       q "name" "write"; q "name" "edit"], "Implementing");
   (g [q "tool" "Read"; q "tool" "read"; q "tool" "Glob"; q "tool" "glob";
       q "tool" "Grep"; q "tool" "grep"; q "name" "read"; q "name" "glob";
       q "name" "grep"], "Reading code")].

(** The view [detectStepFromOutput] has of a line: [None] when the line is
    not a record it can read. *)
Definition view_of `{RT : JS.Runtime} (line : string) : option line_view :=
  let trimmed := JS.trim line in
  if negb (startsWith trimmed "{") then None
  else
    match JS.JSON_parse trimmed with
    | JS.Throw => None
    | JS.Ok parsed =>
        match Base.tool_name_of parsed, Base.command_of parsed,
              Base.content_of parsed with
        | JS.Ok t, JS.Ok c, JS.Ok s =>
            Some {| toolName := t; command := c; content := s |}
        | _, _, _ => None
        end
    end.

(** [detectStep] as the specification states it. *)
Definition detectStep_stated `{RT : JS.Runtime} (line : string) : option string :=
  view_of line ≫= first_match stated_order.

(** [ceil(n / p)] *)
Definition ceil_div (n p : Z) : Z := ((n + p - 1) / p)%Z.

(** The size of the last group: [n mod p], or [p] when [p] divides [n]. *)
Definition last_size (n p : Z) : Z :=
  if (n mod p =? 0)%Z then p else (n mod p)%Z.

End Spec.

(** ** [cli/src/engines/base.ts]: the lines of a streamed output *)

Module Streaming.
Import Text JS.

Section WithRuntime.
Context `{RT : Runtime}.

(** [if (line.trim())] *)
Definition not_blank (line : string) : bool := negb (is_empty (trim line)).

(** One round of the [while (true)] of [processStdout], for a chunk the
    decoder turns into [piece]: the buffer after the round, and the lines
    handed to [onLine] in it. *)
Definition read_chunk (buffer piece : string) : string * list string :=
  let buffer := buffer +:+ piece in
  let lines := split_nl buffer in
  (* [buffer = lines.pop() || ""] *)
  let buffer := List.last lines "" in
  let lines := removelast lines in
  (buffer, List.filter not_blank lines).

Fixpoint read_loop (buffer : string) (pieces : list string)
  : string * list string :=
  match pieces with
  | [] => (buffer, [])
  | piece :: rest =>
      let '(buffer, called) := read_chunk buffer piece in
      let '(buffer, called') := read_loop buffer rest in
      (buffer, called ++ called')
  end.

(** [processStdout] of [execCommandStreaming], on a standard output that
    arrives as the chunks [pieces] (each the text the decoder gives for a
    chunk): the arguments of the calls of [onLine], in order. *)
Definition processStdout (pieces : list string) : list string :=
  let '(buffer, called) := read_loop "" pieces in
  called ++ (if not_blank buffer then [buffer] else []).

End WithRuntime.
End Streaming.

(** ** [cli/src/engines/base.ts]: the records the parsers look for *)

Module Records.
Import Text JS.

(** The line passes [JSON.parse] and the test [parsed.type === kind]. *)
Definition has_type `{RT : Runtime} (kind line : string) : bool :=
  match JSON_parse line with
  | Ok parsed =>
      match get parsed "type" with
      | Ok ty => is_str ty kind
      | Throw => false
      end
  | Throw => false
  end.

End Records.

(** ** [ralphy.sh]: reading the events of a run *)

Module Trace.
Import Ralphy.

Definition is_run_ai (e : event) : bool :=
  match e with ev_run_ai _ => true | _ => false end.
Definition is_sleep (e : event) : bool :=
  match e with ev_sleep => true | _ => false end.
Definition is_show_progress (e : event) : bool :=
  match e with ev_show_progress _ _ => true | _ => false end.
Definition is_create_task_branch (e : event) : bool :=
  match e with ev_create_task_branch _ => true | _ => false end.
Definition is_mark_task_complete (e : event) : bool :=
  match e with ev_mark_task_complete _ _ => true | _ => false end.
Definition is_create_pull_request (e : event) : bool :=
  match e with ev_create_pull_request _ _ => true | _ => false end.

(** How many of the events are of a kind. *)
Definition count (kind : event → bool) (evs : list event) : nat :=
  length (List.filter kind evs).

(** The words written to status files, in order. *)
Definition statuses (evs : list event) : list status :=
  omap (fun e => match e with ev_status _ s => Some s | _ => None end) evs.

(** The slots of a run, batch after batch. *)
Definition all_slots (bs : list batch) : list slot := bs ≫= batch_slots.

End Trace.

(** ** [ralphy.sh]: branch names, worktrees and the task sources

    Text is read byte by byte, as the tools do in the C locale; on a
    text of ASCII characters they do the same in a UTF-8 locale. *)

Module RalphyTasks.
Import Text Ralphy.

(** *** [slugify] *)

(** [echo "$1"] prints its argument and a line feed, unless the argument
    is made of a dash and letters among [n], [e], [E]: echo takes it for
    its options and prints no text. *)
Definition echo_option_letter (c : ascii) : bool :=
  Ascii.eqb c "n" || Ascii.eqb c "e" || Ascii.eqb c "E".

Definition echo_option (s : string) : bool :=
  match s with
  | String "-" (String c rest) =>
      forallb echo_option_letter (c :: String.list_ascii_of_string rest)
  | _ => false
  end.

(** [tr '[:upper:]' '[:lower:]'] *)
Definition tr_lower (c : ascii) : ascii :=
  let n := nat_of_ascii c in
  if (65 <=? n) && (n <=? 90) then ascii_of_nat (n + 32) else c.

Fixpoint tr_upper_lower (s : string) : string :=
  match s with
  | EmptyString => EmptyString
  | String c s' => String (tr_lower c) (tr_upper_lower s')
  end.

(** [[a-z0-9]] *)
Definition slug_char (c : ascii) : bool :=
  let n := nat_of_ascii c in
  ((97 <=? n) && (n <=? 122)) || ((48 <=? n) && (n <=? 57)).

(** [sed -E 's/[^a-z0-9]+/-/g'] on a line; [in_run] says that the
    character before was not in [[a-z0-9]]. *)
Fixpoint dash_runs (in_run : bool) (s : string) : string :=
  match s with
  | EmptyString => EmptyString
  | String c s' =>
      if slug_char c then String c (dash_runs false s')
      else if in_run then dash_runs true s'
      else String "-" (dash_runs true s')
  end.

(** [sed -E 's/^-|-$//g'] on a line: a dash at the start goes, then a
    dash at the end of what is left. *)
Definition strip_leading_dash (s : string) : string :=
  match s with
  | String "-" s' => s'
  | _ => s
  end.

Fixpoint strip_trailing_dash (s : string) : string :=
  match s with
  | EmptyString => EmptyString
  | String c EmptyString => if Ascii.eqb c "-" then EmptyString else s
  | String c s' => String c (strip_trailing_dash s')
  end.

(** The pipeline of [slugify] on one line; [cut -c1-50] comes last. *)
Definition slug_line (line : string) : string :=
  substring_to 50
    (strip_trailing_dash
       (strip_leading_dash (dash_runs false (tr_upper_lower line)))).

(** [$(slugify "$1")] *)
Definition slugify (text : string) : string :=
  if echo_option text then ""
  else captured (piped (slug_line <$> split_nl text)).

(** A text made of the characters [a-z0-9] and dashes. *)
Fixpoint slug_text (s : string) : bool :=
  match s with
  | EmptyString => true
  | String c s' => (slug_char c || Ascii.eqb c "-") && slug_text s'
  end.

(** *** What a command substitution captures after git has run *)

(** [${s%%c*}]: the text before the first [c] (all of it, without [c]). *)
Fixpoint before_first (c : ascii) (s : string) : string :=
  match s with
  | EmptyString => EmptyString
  | String a s' => if Ascii.eqb a c then EmptyString
                   else String a (before_first c s')
  end.

(** [${s##*c}]: the text after the last [c] (all of it, without [c]). *)
Fixpoint after_last (c : ascii) (s : string) : string :=
  match s with
  | EmptyString => EmptyString
  | String a s' =>
      if includes s' (String c "") then after_last c s'
      else if Ascii.eqb a c then s' else s
  end.

(** [log_debug]: what it prints on its standard output, a line when
    [VERBOSE] is true. *)
Definition log_debug (VERBOSE : bool) (DIM RESET message : string) : string :=
  if VERBOSE then DIM +:+ "[DEBUG] " +:+ message +:+ RESET +:+ String nl ""
  else "".

(** [create_task_branch]: what [$(create_task_branch "$task")] captures,
    when the git commands of the function print [git_out] on their
    standard output (their standard error goes to /dev/null). *)
Definition create_task_branch (VERBOSE : bool)
    (DIM RESET BASE_BRANCH git_out task : string) : string :=
  let branch_name := "ralphy/" +:+ slugify task in
  captured (log_debug VERBOSE DIM RESET
              ("Creating branch: " +:+ branch_name +:+ " from "
               +:+ BASE_BRANCH)
            +:+ git_out +:+ branch_name +:+ String nl "").

(** The names [create_agent_worktree] makes; [agent_num] is a number of
    the shell, printed in decimal. *)
Definition agent_branch_name (task_name : string) (agent_num : Z) : string :=
  "ralphy/agent-" +:+ Ref.decimal agent_num +:+ "-" +:+ slugify task_name.

Definition agent_worktree_dir (WORKTREE_BASE : string) (agent_num : Z)
  : string :=
  WORKTREE_BASE +:+ "/agent-" +:+ Ref.decimal agent_num.

(** [create_agent_worktree]: what
    [$(create_agent_worktree "$task_name" "$agent_num" 2>>"$log_file")]
    captures, when the git commands of the subshell print [git_out] on
    their standard output. *)
Definition create_agent_worktree (WORKTREE_BASE git_out task_name : string)
    (agent_num : Z) : string :=
  captured (git_out +:+ agent_worktree_dir WORKTREE_BASE agent_num +:+ "|"
            +:+ agent_branch_name task_name agent_num +:+ String nl "").

(** [worktree_dir="${worktree_info%%|*}"] and
    [branch_name="${worktree_info##*|}"] in [run_parallel_agent]. *)
Definition worktree_dir_of (worktree_info : string) : string :=
  before_first "|" worktree_info.
Definition branch_name_of (worktree_info : string) : string :=
  after_last "|" worktree_info.

(** *** The markdown task file

    [prd] is the task file as the lines grep and sed read, [None] when
    there is no such file. *)

(** [grep '^\- \[ \]'] and [grep '^\- \[x\]'] select these lines. *)
Definition unchecked (line : string) : bool := startsWith line "- [ ]".
Definition checked (line : string) : bool := startsWith line "- [x]".

(** [sed 's/^- \[ \] //'] on a line *)
Definition strip_box (line : string) : string :=
  if startsWith line "- [ ] " then substring_from 6 line else line.

(** [get_tasks_markdown]: the lines printed. *)
Definition get_tasks_markdown (prd : option (list string)) : list string :=
  match prd with
  | Some lines => strip_box <$> List.filter unchecked lines
  | None => []
  end.

(** [grep -m1 ... | sed ... | cut -c1-50]: what the pipeline prints, and
    whether it ends with status zero (with [pipefail], when grep selects a
    line). *)
Definition first_task_pipeline (prd : option (list string)) : string * bool :=
  match prd with
  | Some lines =>
      match List.filter unchecked lines with
      | line :: _ => (piped [substring_to 50 (strip_box line)], true)
      | [] => ("", false)
      end
  | None => ("", false)
  end.

(** [$(get_next_task_markdown)] *)
Definition get_next_task_markdown (prd : option (list string)) : string :=
  captured_or (first_task_pipeline prd) "".

(** [grep -c pattern file 2>/dev/null]: the count printed, and whether
    grep ends with status zero (it does when it selects a line; it prints
    nothing when it cannot read the file). *)
Definition grep_c (selected : string → bool) (prd : option (list string))
  : string * bool :=
  match prd with
  | Some lines =>
      let n := length (List.filter selected lines) in
      (piped [Ref.decimal (Z.of_nat n)], negb (Nat.eqb n 0))
  | None => ("", false)
  end.

(** [$(count_remaining_markdown)] and [$(count_completed_markdown)] *)
Definition count_remaining_markdown (prd : option (list string)) : string :=
  captured_or (grep_c unchecked prd) "0".
Definition count_completed_markdown (prd : option (list string)) : string :=
  captured_or (grep_c checked prd) "0".

(** *** GitHub issues *)

(** The line the jq program ["\(.number):\(.title)"] prints for an open
    issue. *)
Definition issue_line (issue : Z * string) : string :=
  Ref.decimal issue.1 +:+ ":" +:+ issue.2.

(** [get_tasks_github], for the open issues gh lists. *)
Definition get_tasks_github (issues : list (Z * string)) : list string :=
  issue_line <$> issues.

(** [$(get_next_task_github)], for the first open issue gh lists. *)
Definition get_next_task_github (issue : Z * string) : string :=
  captured (piped [substring_to 50 (issue_line issue)]).

(** [issue_num="${task%%:*}"]: the issue [mark_task_complete_github]
    closes. *)
Definition issue_num (task : string) : string := before_first ":" task.

End RalphyTasks.

(** ** [cli/src/tasks/markdown-folder.ts]: scanning, listing, counting *)

Module MarkdownFolderSource.
Import Text JS MarkdownFolder.
Local Open Scope js_scope.

(** [basename] of [node:path]; [join] is [path_join] of the runtime. *)
Class Paths := {
  basename : string → string;
}.

(** [s.endsWith(p)] *)
Fixpoint endsWith (s p : string) : bool :=
  String.eqb s p ||
  match s with
  | EmptyString => false
  | String _ s' => endsWith s' p
  end.

(** The disk: the content of each regular file by path, and the entries
    of each directory by path. *)
Record disk := {
  files : gmap string string;
  folders : gmap string (list string);
}.

(** [readdirSync] throws on a path that is no directory. *)
Definition readdirSync (d : disk) (path : string) : res (list string) :=
  match folders d !! path with
  | Some entries => Ok entries
  | None => Throw
  end.

(** [statSync(path).isFile()]; [statSync] throws on a path that names
    nothing. *)
Definition statSync_isFile (d : disk) (path : string) : res bool :=
  match files d !! path with
  | Some _ => Ok true
  | None =>
      match folders d !! path with
      | Some _ => Ok false
      | None => Throw
      end
  end.

Record Task := {
  id : string;
  title : string;
  completed : bool;
}.

(** The two private fields of a [MarkdownFolderTaskSource]. *)
Record source := {
  folderPath : string;
  markdownFiles : list string;
}.

(** The carriage return, the other line terminator of 8-bit text.  The
    language has two more, U+2028 and U+2029, which are no 8-bit
    characters (in UTF-8 each is three bytes): a text that holds them is
    outside this model, a text of ASCII characters is not. *)
Definition cr : ascii := "013"%char.

Definition line_terminator (c : ascii) : bool :=
  Ascii.eqb c nl || Ascii.eqb c cr.

(** What [.+] can match to the end: a text without line terminator. *)
Fixpoint no_line_terminator (s : string) : bool :=
  match s with
  | EmptyString => true
  | String c s' => negb (line_terminator c) && no_line_terminator s'
  end.

(** [line.match(/^- \[ \] (.+)$/)]: the text of the group, [None] when
    the line does not match. *)
Definition incomplete_match (line : string) : option string :=
  if startsWith line "- [ ] " then
    let rest := substring_from 6 line in
    if negb (is_empty rest) && no_line_terminator rest then Some rest
    else None
  else None.

(** Where [^] matches with the [m] flag: the pieces of the text between
    line terminators. *)
Fixpoint split_terminators (s : string) : list string :=
  match s with
  | EmptyString => [EmptyString]
  | String a s' =>
      if line_terminator a then EmptyString :: split_terminators s'
      else match split_terminators s' with
           | l :: ls => String a l :: ls
           | [] => [String a EmptyString]
           end
  end.

(** [content.match(re)?.length || 0] for a regular expression [re] that
    matches one of [prefixes] at a [^] of the [m] flag. *)
Definition count_matches (prefixes : list string) (content : string) : Z :=
  Z.of_nat
    (length (List.filter (fun l => existsb (startsWith l) prefixes)
               (split_terminators content))).

(** The two regular expressions of the counting methods, as the
    prefixes they match: [/^- \[ \] /gm] and [/^- \[x\] /gim]. *)
Definition unchecked_box : list string := ["- [ ] "].
Definition checked_box : list string := ["- [x] "; "- [X] "].

Section WithRuntime.
Context `{RT : Runtime} `{PT : Paths}.

(** The [for] loop of [scanForMarkdownFiles], inside its [try]: an
    exception ends the loop, what was pushed before stays. *)
Fixpoint scan_entries (d : disk) (folder : string)
    (entries files : list string) : list string :=
  match entries with
  | [] => files
  | entry :: rest =>
      let fullPath := path_join folder entry in
      match statSync_isFile d fullPath with
      | Throw => files
      | Ok isFile =>
          scan_entries d folder rest
            (if isFile && endsWith entry ".md" then files ++ [fullPath]
             else files)
      end
  end.

(** [scanForMarkdownFiles]; [files.sort()] orders text by its
    characters. *)
Definition scanForMarkdownFiles (d : disk) (folder : string) : list string :=
  let files :=
    match readdirSync d folder with
    | Throw => []
    | Ok entries => scan_entries d folder entries []
    end in
  merge_sort String.le files.

(** [new MarkdownFolderTaskSource(folderPath)] *)
Definition constructor (d : disk) (folder : string) : source :=
  {| folderPath := folder; markdownFiles := scanForMarkdownFiles d folder |}.

(** [createTaskId]; [lineNumber] is an integer, printed in decimal. *)
Definition createTaskId (filePath : string) (lineNumber : Z) : string :=
  basename filePath +:+ ":" +:+ Ref.decimal lineNumber.

(** The inner loop of [getAllTasks], from index [i] on: the tasks it
    pushes. *)
Fixpoint line_tasks (filePath : string) (i : nat) (lines : list string)
  : list Task :=
  match lines with
  | [] => []
  | line :: rest =>
      match incomplete_match line with
      | Some text =>
          {| id := createTaskId filePath (Z.of_nat i + 1);
             title := trim text;
             completed := false |} :: line_tasks filePath (S i) rest
      | None => line_tasks filePath (S i) rest
      end
  end.

(** The outer loop of [getAllTasks]; reading a file that is gone
    throws. *)
Fixpoint file_tasks (fs : gmap string string) (files : list string)
    (allTasks : list Task) : res (list Task) :=
  match files with
  | [] => Ok allTasks
  | filePath :: rest =>
      let* content := readFileSync fs filePath in
      file_tasks fs rest
        (allTasks ++ line_tasks filePath 0 (split_nl content))
  end.

Definition getAllTasks (src : source) (fs : gmap string string)
  : res (list Task) :=
  file_tasks fs (markdownFiles src) [].

(** [getNextTask]: [None] is [null]. *)
Definition getNextTask (src : source) (fs : gmap string string)
  : res (option Task) :=
  let* tasks := getAllTasks src fs in Ok (head tasks).

(** The loop of [countRemaining] and of [countCompleted]. *)
Fixpoint count_loop (prefixes : list string) (fs : gmap string string)
    (files : list string) (count : Z) : res Z :=
  match files with
  | [] => Ok count
  | filePath :: rest =>
      let* content := readFileSync fs filePath in
      count_loop prefixes fs rest (count + count_matches prefixes content)%Z
  end.

Definition countRemaining (src : source) (fs : gmap string string) : res Z :=
  count_loop unchecked_box fs (markdownFiles src) 0.

Definition countCompleted (src : source) (fs : gmap string string) : res Z :=
  count_loop checked_box fs (markdownFiles src) 0.

Definition getMarkdownFiles (src : source) : list string := markdownFiles src.

(** The entries [scanForMarkdownFiles] gets to look at: those before the
    first one [statSync] throws on. *)
Fixpoint entries_seen (d : disk) (folder : string) (entries : list string)
  : list string :=
  match entries with
  | [] => []
  | entry :: rest =>
      match statSync_isFile d (path_join folder entry) with
      | Throw => []
      | Ok _ => entry :: entries_seen d folder rest
      end
  end.

(** An entry the scan keeps: a regular file whose name ends in [.md]. *)
Definition markdown_file (d : disk) (folder entry : string) : bool :=
  endsWith entry ".md"
  && bool_decide (is_Some (files d !! path_join folder entry)).

End WithRuntime.

(** [basename] for the examples: the text after the last slash. *)
Definition ref_basename (path : string) : string :=
  RalphyTasks.after_last "/" path.

End MarkdownFolderSource.

#[export] Instance ref_paths : MarkdownFolderSource.Paths := {|
  MarkdownFolderSource.basename := MarkdownFolderSource.ref_basename;
|}.

(** ** [ralphy.sh]: what [parse_ai_result] prints and how it is read *)

Module RalphyOutput.
Import Text Ralphy RalphyTasks.

(** [echo "$1"]: the argument and a line feed; an argument echo takes for
    its options prints no text, and no line feed when [n] is among
    them. *)
Definition echo (s : string) : string :=
  if echo_option s then
    if includes s "n" then "" else String nl ""
  else s +:+ String nl "".

(** The lines a command reads from a pipe; the last one may come without
    its line feed. *)
Definition input_lines (text : string) : list string :=
  let ls := split_nl text in
  if is_empty (List.last ls "") then removelast ls else ls.

Definition marker : string := "---TOKENS---".

(** The five [echo] at the end of [parse_ai_result]. *)
Definition print_ai_result (r : ai_result) : string :=
  echo (response r) +:+ echo marker +:+ echo (input_tokens r)
  +:+ echo (output_tokens r) +:+ echo (actual_cost r).

(** [sed '/^---TOKENS---$/,$d'] *)
Fixpoint sed_delete_from_marker (ls : list string) : list string :=
  match ls with
  | [] => []
  | l :: ls' =>
      if String.eqb l marker then [] else l :: sed_delete_from_marker ls'
  end.

(** [sed -n '/^---TOKENS---$/,$p'] *)
Fixpoint sed_print_from_marker (ls : list string) : list string :=
  match ls with
  | [] => []
  | l :: ls' => if String.eqb l marker then ls else sed_print_from_marker ls'
  end.

(** [tail -3] *)
Definition tail_3 (ls : list string) : list string :=
  skipn (length ls - 3) ls.

(** [sed -n 'Np'], lines counted from one. *)
Definition sed_line (n : nat) (ls : list string) : list string :=
  match ls !! (n - 1) with
  | Some l => [l]
  | None => []
  end.

(** [$(echo "$text" | sed -n 'Np')] *)
Definition nth_line (n : nat) (text : string) : string :=
  captured (piped (sed_line n (input_lines (echo text)))).

(** [response=$(echo "$parsed" | sed '/^---TOKENS---$/,$d')] *)
Definition read_response (parsed : string) : string :=
  captured (piped (sed_delete_from_marker (input_lines (echo parsed)))).

(** [token_data=$(echo "$parsed" | sed -n '/^---TOKENS---$/,$p' | tail -3)] *)
Definition read_token_data (parsed : string) : string :=
  captured (piped (tail_3 (sed_print_from_marker (input_lines (echo parsed))))).

(** What [run_single_task] reads from the text [parse_ai_result] printed,
    the two counts after [[[ ... =~ ^[0-9]+$ ]] || ...=0]. *)
Definition read_ai_result (parsed : string) : ai_result :=
  let token_data := read_token_data parsed in
  {| response := read_response parsed;
     input_tokens := sanitize (nth_line 1 token_data);
     output_tokens := sanitize (nth_line 2 token_data);
     actual_cost := nth_line 3 token_data |}.

(** [parsed=$(parse_ai_result "$result")] and the lines after it. *)
Definition parsed_ai_result (cfg : config) (E : env) (result : string)
  : ai_result :=
  read_ai_result (captured (print_ai_result (parse_ai_result cfg E result))).

End RalphyOutput.

(** ** Concrete inputs for the examples *)

Module Examples.
Import Text.

Definition lines (ls : list string) : string := join_nl ls.

(** A folder with one task file of three lines. *)
Definition tasks_md : string :=
  lines ["# Tasks"; "- [ ] add login"; "- [x] set up the project"].

Definition disk : gmap string string := {[ "prd/tasks.md" := tasks_md ]}.

(** [{"k1":"v1","k2":"v2",...}] *)
Definition record (fields : list (string * string)) : string :=
  "{" +:+ Ref.commas ((fun kv => Ralphy.pair_text kv.1 kv.2) <$> fields) +:+ "}".

(** A tool call that reads the tracker file:
    [{"tool":"Read","file_path":"PRD.md"}] *)
Definition tracker_line : string :=
  record [("tool", "Read"); ("file_path", "PRD.md")].

(** [{"type":"result","result":"X","usage":{"input_tokens":5,"output_tokens":7}}] *)
Definition result_record : string :=
  "{" +:+ Ralphy.pair_text "type" "result" +:+ ","
  +:+ Ralphy.pair_text "result" "X" +:+ ","
  +:+ Ralphy.quoted "usage" +:+ ":{"
  +:+ Ralphy.quoted "input_tokens" +:+ ":5,"
  +:+ Ralphy.quoted "output_tokens" +:+ ":7}}".

(** [{"type":"error","error":{"message":"overloaded"}}] *)
Definition error_record : string :=
  "{" +:+ Ralphy.pair_text "type" "error" +:+ ","
  +:+ Ralphy.quoted "error" +:+ ":"
  +:+ record [("message", "overloaded")] +:+ "}".

(** Output with text that is not JSON around a result record. *)
Definition noisy_output : string :=
  lines ["Starting the agent"; result_record; "{ not json"].

(** Output of an agent that printed no record. *)
Definition plain_output : string := "The work is finished.".

(** Output that ends with the promise marker. *)
Definition complete_output : string :=
  record [("type", "result"); ("result", "<promise>COMPLETE</promise>")].

(** Options: the defaults of the script, on a given task source. *)
Definition defaults (src : Ralphy.prd_source) : Ralphy.config := {|
  Ralphy.USE_OPENCODE := false;
  Ralphy.DRY_RUN := false;
  Ralphy.MAX_ITERATIONS := 0;
  Ralphy.MAX_RETRIES := 3;
  Ralphy.BRANCH_PER_TASK := false;
  Ralphy.CREATE_PR := false;
  Ralphy.MAX_PARALLEL := 3;
  Ralphy.PRD_SOURCE := src;
|}.

Definition with_opencode (c : Ralphy.config) : Ralphy.config := {|
  Ralphy.USE_OPENCODE := true;
  Ralphy.DRY_RUN := Ralphy.DRY_RUN c;
  Ralphy.MAX_ITERATIONS := Ralphy.MAX_ITERATIONS c;
  Ralphy.MAX_RETRIES := Ralphy.MAX_RETRIES c;
  Ralphy.BRANCH_PER_TASK := Ralphy.BRANCH_PER_TASK c;
  Ralphy.CREATE_PR := Ralphy.CREATE_PR c;
  Ralphy.MAX_PARALLEL := Ralphy.MAX_PARALLEL c;
  Ralphy.PRD_SOURCE := Ralphy.PRD_SOURCE c;
|}.

Definition with_max_iterations (n : Z) (c : Ralphy.config) : Ralphy.config := {|
  Ralphy.USE_OPENCODE := Ralphy.USE_OPENCODE c;
  Ralphy.DRY_RUN := Ralphy.DRY_RUN c;
  Ralphy.MAX_ITERATIONS := n;
  Ralphy.MAX_RETRIES := Ralphy.MAX_RETRIES c;
  Ralphy.BRANCH_PER_TASK := Ralphy.BRANCH_PER_TASK c;
  Ralphy.CREATE_PR := Ralphy.CREATE_PR c;
  Ralphy.MAX_PARALLEL := Ralphy.MAX_PARALLEL c;
  Ralphy.PRD_SOURCE := Ralphy.PRD_SOURCE c;
|}.

(** Seven pending tasks. *)
Definition seven_tasks : list string :=
  ["task 1"; "task 2"; "task 3"; "task 4"; "task 5"; "task 6"; "task 7"].

(** A world in which every attempt prints [output]. *)
Definition steady (tasks : list string) (output : string) : Ralphy.env :=
  Ref.world tasks (fun _ _ => output) (fun _ => true).

(** A world in which the runs listed in [silent] print nothing, and the
    other runs print a result record. *)
Definition mixed (tasks : list string) (silent : list Z) : Ralphy.env :=
  Ref.world tasks
    (fun n _ => if bool_decide (n ∈ silent) then "" else result_record)
    (fun _ => true).

(** A world in which the worktree of the agents listed in [broken] cannot
    be created. *)
Definition no_worktree (tasks : list string) (broken : list Z) : Ralphy.env :=
  Ref.world tasks (fun _ _ => result_record)
    (fun n => negb (bool_decide (n ∈ broken))).

End Examples.

(** ** More concrete inputs *)

Module MoreExamples.
Import Text.

(** [{"type":"result","result":"Y","usage":{"input_tokens":1,"output_tokens":2}}] *)
Definition second_result_record : string :=
  "{" +:+ Ralphy.pair_text "type" "result" +:+ ","
  +:+ Ralphy.pair_text "result" "Y" +:+ ","
  +:+ Ralphy.quoted "usage" +:+ ":{"
  +:+ Ralphy.quoted "input_tokens" +:+ ":1,"
  +:+ Ralphy.quoted "output_tokens" +:+ ":2}}".

(** Output with two result records. *)
Definition two_results : string :=
  Examples.lines [Examples.result_record; "Working"; second_result_record;
                  "{ not json"].

(** [{"type":"error","message":""}]: an error record with an empty
    message. *)
Definition bare_error_record : string :=
  Examples.record [("type", "error"); ("message", "")].

(** Output with two error records after a result record. *)
Definition two_errors : string :=
  Examples.lines [Examples.result_record; bare_error_record;
                  Examples.error_record].

(** [--dry-run --branch-per-task] on a markdown task file. *)
Definition dry_run_with_branches : Ralphy.config := {|
  Ralphy.USE_OPENCODE := false;
  Ralphy.DRY_RUN := true;
  Ralphy.MAX_ITERATIONS := 0;
  Ralphy.MAX_RETRIES := 3;
  Ralphy.BRANCH_PER_TASK := true;
  Ralphy.CREATE_PR := false;
  Ralphy.MAX_PARALLEL := 3;
  Ralphy.PRD_SOURCE := Ralphy.markdown;
|}.

(** [--parallel --max-parallel 0] *)
Definition no_parallelism : Ralphy.config := {|
  Ralphy.USE_OPENCODE := false;
  Ralphy.DRY_RUN := false;
  Ralphy.MAX_ITERATIONS := 0;
  Ralphy.MAX_RETRIES := 3;
  Ralphy.BRANCH_PER_TASK := false;
  Ralphy.CREATE_PR := false;
  Ralphy.MAX_PARALLEL := 0;
  Ralphy.PRD_SOURCE := Ralphy.markdown;
|}.

(** A markdown task file in which one title begins like another. *)
Definition login_prd : list string :=
  ["# Tasks"; "- [ ] add login"; "- [x] set up the project";
   "- [ ] add login tests"; "- [ ] add logout"].

(** What [git worktree add] prints on its standard output. *)
Definition git_says : string :=
  "HEAD is now at f9e8ce4 first commit" +:+ String nl "".

(** A folder with two task files, a text file and a directory. *)
Definition b_md : string :=
  Examples.lines ["# Later"; "- [ ] add logout"; "- [ ] add login"].

Definition a_md : string :=
  Examples.lines ["# First"; "- [x] set up the project"; "- [ ] add login";
                  "- [ ] "; "not a task"].

Definition folder_disk : MarkdownFolderSource.disk := {|
  MarkdownFolderSource.files :=
    {[ "prd/b.md" := b_md; "prd/notes.txt" := "- [ ] not a task file";
       "prd/a.md" := a_md ]};
  MarkdownFolderSource.folders :=
    {[ "prd" := ["b.md"; "notes.txt"; "archive.md"; "a.md"];
       "prd/archive.md" := [] ]};
|}.

(** The same folder with an entry that names nothing (a dangling link)
    before [a.md]. *)
Definition dangling_disk : MarkdownFolderSource.disk := {|
  MarkdownFolderSource.files := MarkdownFolderSource.files folder_disk;
  MarkdownFolderSource.folders :=
    {[ "prd" := ["b.md"; "gone.md"; "a.md"] ]};
|}.

(** The tasks of that folder. *)
Definition folder_tasks : list MarkdownFolderSource.Task :=
  [{| MarkdownFolderSource.id := "a.md:3";
      MarkdownFolderSource.title := "add login";
      MarkdownFolderSource.completed := false |};
   {| MarkdownFolderSource.id := "b.md:2";
      MarkdownFolderSource.title := "add logout";
      MarkdownFolderSource.completed := false |};
   {| MarkdownFolderSource.id := "b.md:3";
      MarkdownFolderSource.title := "add login";
      MarkdownFolderSource.completed := false |}].

(** A folder whose one task file has lines that end in a carriage
    return and a line feed. *)
Definition crlf_md : string :=
  "- [ ] add login" +:+ String MarkdownFolderSource.cr (String nl "")
  +:+ "- [ ] add logout" +:+ String MarkdownFolderSource.cr (String nl "").

Definition crlf_disk : MarkdownFolderSource.disk := {|
  MarkdownFolderSource.files := {[ "prd/a.md" := crlf_md ]};
  MarkdownFolderSource.folders := {[ "prd" := ["a.md"] ]};
|}.

End MoreExamples.

(** * Properties *)

(** ** Text *)

Module TextFacts.
Import Text.

Lemma append_cons a s t : String a s +:+ t = String a (s +:+ t).
Proof. done. Qed.

Lemma split_nl_cons s : ∃ l ls, split_nl s = l :: ls.
Proof.
  induction s as [|a s [l [ls IH]]]; simpl; [by eauto|].
  destruct (Ascii.eqb a nl); [by eauto|]. rewrite IH. by eauto.
Qed.

Lemma split_nl_not_nil s : split_nl s ≠ [].
Proof. destruct (split_nl_cons s) as (l & ls & ->). done. Qed.

Lemma length_split_nl s : 0 < length (split_nl s).
Proof. destruct (split_nl_cons s) as (l & ls & ->). simpl. lia. Qed.

Lemma join_nl_cons l l' ls :
  join_nl (l :: l' :: ls) = l +:+ String nl (join_nl (l' :: ls)).
Proof. done. Qed.

(** Splitting then joining gives the text back. *)
Lemma join_split s : join_nl (split_nl s) = s.
Proof.
  induction s as [|a s IH]; [done|].
  cbn [split_nl]. destruct (split_nl_cons s) as (l & ls & Hs).
  rewrite Hs in IH |- *.
  destruct (Ascii.eqb_spec a nl) as [->|Hne].
  - by rewrite join_nl_cons, IH.
  - destruct ls as [|l' ls]; [by simpl in *; subst|].
    rewrite join_nl_cons in IH. rewrite join_nl_cons, <- IH. done.
Qed.

Lemma split_one_line s : Forall (fun l => one_line l = true) (split_nl s).
Proof.
  induction s as [|a s IH]; simpl; [by repeat constructor|].
  destruct (Ascii.eqb_spec a nl) as [->|Hne]; [by constructor|].
  destruct (split_nl_cons s) as (l & ls & Hs). rewrite Hs in IH |- *.
  inversion_clear IH as [|?? Hl Hls]. constructor; [|done].
  simpl. rewrite Hl. by destruct (Ascii.eqb_spec a nl).
Qed.

Lemma split_one_line_id l : one_line l = true → split_nl l = [l].
Proof.
  induction l as [|a l IH]; [done|]. simpl.
  destruct (Ascii.eqb a nl); [done|]. simpl. intros H. by rewrite IH.
Qed.

Lemma split_app_nl l s :
  one_line l = true → split_nl (l +:+ String nl s) = l :: split_nl s.
Proof.
  induction l as [|a l IH]; simpl.
  - done.
  - destruct (Ascii.eqb a nl); [done|]. simpl. intros H. by rewrite IH.
Qed.

(** Joining lines then splitting gives the lines back. *)
Lemma split_join ls :
  ls ≠ [] → Forall (fun l => one_line l = true) ls →
  split_nl (join_nl ls) = ls.
Proof.
  induction ls as [|l ls IH]; [done|]. intros _ Hall.
  inversion_clear Hall as [|?? Hl Hls].
  destruct ls as [|l' ls]; [by apply split_one_line_id|].
  rewrite join_nl_cons, split_app_nl by done. by rewrite IH.
Qed.

Lemma startsWith_app p s : startsWith (p +:+ s) p = true.
Proof. induction p as [|a p IH]; [done|]. simpl. by rewrite Ascii.eqb_refl. Qed.

Lemma startsWith_split s p :
  startsWith s p = true → s = p +:+ substring_from (String.length p) s.
Proof.
  revert s. induction p as [|a p IH]; intros s; [done|].
  destruct s as [|b s]; [done|]. simpl.
  destruct (Ascii.eqb_spec a b) as [->|]; [|done].
  intros H. rewrite append_cons. f_equal. by apply IH.
Qed.

Lemma one_line_app a b :
  one_line (a +:+ b) = one_line a && one_line b.
Proof. induction a as [|c a IH]; [done|]. simpl. by rewrite IH, andb_assoc. Qed.

Lemma one_line_substring_from n s : one_line s = true → one_line (substring_from n s) = true.
Proof.
  revert s. induction n as [|n IH]; intros s; [done|].
  destruct s as [|a s]; [done|]. simpl. intros [_ H]%andb_prop. by apply IH.
Qed.

End TextFacts.

(** ** The markdown-folder task source *)

Module MarkdownFolderFacts.
Import Text JS MarkdownFolder TextFacts.

Section WithRuntime.
Context `{RT : Runtime}.

Lemma check_off_unchecked rest :
  check_off ("- [ ] " +:+ rest) = "- [x] " +:+ rest.
Proof. done. Qed.

Lemma check_off_other line : startsWith line "- [ ] " = false → check_off line = line.
Proof. unfold check_off. by intros ->. Qed.

Lemma check_off_cases line :
  check_off line = line ∨
  ∃ rest, line = "- [ ] " +:+ rest ∧ check_off line = "- [x] " +:+ rest.
Proof.
  destruct (startsWith line "- [ ] ") eqn:H.
  - right. exists (substring_from 6 line). split.
    + by apply (startsWith_split line "- [ ] ").
    + unfold check_off. by rewrite H.
  - left. by apply check_off_other.
Qed.

Lemma check_off_idempotent line : check_off (check_off line) = check_off line.
Proof.
  destruct (check_off_cases line) as [H|(rest & -> & ->)]; [|done].
  by rewrite !H.
Qed.

Lemma check_off_one_line line :
  one_line line = true → one_line (check_off line) = true.
Proof.
  intros H. destruct (check_off_cases line) as [->|(rest & -> & ->)]; [done|].
  rewrite one_line_app in H. rewrite one_line_app. by destruct (one_line rest).
Qed.

(** The lines [markComplete] writes, read again. *)
Lemma split_join_insert content i :
  i < length (split_nl content) →
  split_nl (join_nl (<[i := check_off (split_nl content !!! i)]> (split_nl content)))
  = <[i := check_off (split_nl content !!! i)]> (split_nl content).
Proof.
  intros Hi. apply split_join.
  - intros Hnil. apply (f_equal length) in Hnil.
    rewrite length_insert in Hnil. simpl in Hnil. lia.
  - apply Forall_insert; [apply split_one_line|].
    apply check_off_one_line.
    pose proof (split_one_line content) as Hall.
    rewrite Forall_lookup in Hall.
    destruct (lookup_lt_is_Some_2 _ _ Hi) as [l Hl].
    rewrite (list_lookup_total_correct _ _ _ Hl). by apply (Hall i).
Qed.

Lemma in_range_spec lineNumber lines :
  in_range ((fun n => n - 1)%Z <$> lineNumber) lines = true ↔
  ∃ n, lineNumber = Some n ∧ (1 ≤ n ≤ Z.of_nat (length lines))%Z.
Proof.
  destruct lineNumber as [n|]; simpl; [|by split; [|intros (? & ? & ?)]].
  rewrite andb_true_iff, Z.leb_le, Z.ltb_lt. split.
  - intros ?. exists n. split; [done|lia].
  - intros (? & [= <-] & ?). lia.
Qed.

(** What one call does, case by case. *)
Lemma markComplete_unfold folderPath id fs :
  (markComplete folderPath id fs = (fs, Throw) ∧
   (parseTaskId folderPath id = Throw ∨
    ∃ filePath lineNumber, parseTaskId folderPath id = Ok (filePath, lineNumber)
                           ∧ fs !! filePath = None)) ∨
  ∃ filePath lineNumber content,
    parseTaskId folderPath id = Ok (filePath, lineNumber) ∧
    fs !! filePath = Some content ∧
    ((in_range ((fun n => n - 1)%Z <$> lineNumber) (split_nl content) = false ∧
      markComplete folderPath id fs = (fs, Ok tt)) ∨
     ∃ n, lineNumber = Some n ∧
          (1 ≤ n ≤ Z.of_nat (length (split_nl content)))%Z ∧
          let i := Z.to_nat (n - 1) in
          markComplete folderPath id fs =
            (<[filePath :=
                 join_nl (<[i := check_off (split_nl content !!! i)]>
                            (split_nl content))]> fs, Ok tt)).
Proof.
  unfold markComplete, readFileSync, writeFileSync.
  destruct (parseTaskId folderPath id) as [[filePath lineNumber]|] eqn:Hp;
    [|left; by eauto].
  destruct (fs !! filePath) as [content|] eqn:Hf; [|left; by eauto 10].
  right. exists filePath, lineNumber, content. do 2 (split; [done|]).
  destruct (in_range _ _) eqn:Hr; [|by left].
  right. apply in_range_spec in Hr as (n & -> & Hn).
  exists n. by do 2 (split; [done|]).
Qed.

End WithRuntime.
End MarkdownFolderFacts.

Module MarkdownFolderClaims.
Import Text JS MarkdownFolder TextFacts MarkdownFolderFacts.

(** [markComplete] of the markdown-folder source is idempotent (the part
    of C9 that holds): for every task id and every state of the disk, a
    second call of [markComplete id] right after the first leaves the
    disk as the first call left it, and ends the way the first call
    ended. *)
Theorem markComplete_idempotent `{RT : Runtime}
    (folderPath id : string) (fs : gmap string string) :
  markComplete folderPath id (markComplete folderPath id fs).1
  = markComplete folderPath id fs.
Proof.
  destruct (markComplete_unfold folderPath id fs)
    as [[H _]|(filePath & lineNumber & content & Hp & Hf &
               [[_ H]|(n & -> & Hn & Hw)])];
    [by rewrite H; simpl; rewrite H..|].
  simpl in Hw. rewrite Hw. simpl.
  set (i := Z.to_nat (n - 1)) in *.
  set (lines := split_nl content) in *.
  set (lines' := <[i := check_off (lines !!! i)]> lines).
  assert (i < length lines) as Hi by (subst i; lia).
  unfold markComplete, readFileSync, writeFileSync. rewrite Hp.
  rewrite lookup_insert_eq.
  subst lines' lines. rewrite (split_join_insert content i Hi).
  set (lines := split_nl content) in *.
  assert (in_range ((fun n => n - 1)%Z <$> Some n)
            (<[i := check_off (lines !!! i)]> lines) = true) as ->.
  { apply in_range_spec. exists n. rewrite length_insert. done. }
  simpl. fold i.
  rewrite (list_lookup_total_insert_eq lines i _ Hi).
  rewrite check_off_idempotent, list_insert_insert_eq.
  by rewrite insert_insert_eq.
Qed.

(** C10. [markComplete id] changes at most the line the id addresses, and
    only from ["- [ ] rest"] to ["- [x] rest"]:
    - a call that throws writes nothing;
    - no other file changes;
    - when the line number is outside the 1-based range of the file's
      lines, the disk is unchanged;
    - when the addressed line does not begin with ["- [ ] "], the disk is
      unchanged;
    - in every case the file keeps its number of lines, and each of its
      lines is either unchanged or is the addressed line, which began
      with ["- [ ] "] and now begins with ["- [x] "] before the same
      rest. *)
Theorem markComplete_frame `{RT : Runtime}
    (folderPath id : string) (fs : gmap string string) :
  let fs' := (markComplete folderPath id fs).1 in
  ((markComplete folderPath id fs).2 = Throw → fs' = fs) ∧
  ∀ filePath lineNumber content,
    parseTaskId folderPath id = Ok (filePath, lineNumber) →
    fs !! filePath = Some content →
    let lines := split_nl content in
    (∀ p, p ≠ filePath → fs' !! p = fs !! p) ∧
    ((∀ n, lineNumber = Some n →
           (n < 1 ∨ Z.of_nat (length lines) < n)%Z) → fs' = fs) ∧
    (∀ n line, lineNumber = Some n → (1 ≤ n)%Z →
               lines !! Z.to_nat (n - 1) = Some line →
               startsWith line "- [ ] " = false → fs' = fs) ∧
    ∃ lines', file_lines fs' filePath = Some lines' ∧
              length lines' = length lines ∧
              ∀ j line, lines !! j = Some line →
                lines' !! j = Some line ∨
                (lineNumber = Some (Z.of_nat j + 1)%Z ∧
                 ∃ rest, line = "- [ ] " +:+ rest ∧
                         lines' !! j = Some ("- [x] " +:+ rest)).
Proof.
  cbv zeta.
  destruct (markComplete_unfold folderPath id fs)
    as [[Heq Hwhy]|(filePath & lineNumber & content & Hp & Hf & Hcases)].
  { rewrite Heq. simpl. split; [done|].
    intros filePath lineNumber content Hp Hf.
    destruct Hwhy as [Hwhy|(fp & ln & Hp' & Hnone)]; [congruence|].
    rewrite Hp in Hp'. injection Hp' as <- <-. congruence. }
  assert ((markComplete folderPath id fs).2 = Ok tt) as Hok.
  { destruct Hcases as [[_ ->]|(n & _ & _ & ->)]; done. }
  split; [by rewrite Hok|].
  intros filePath' lineNumber' content' Hp' Hf'.
  rewrite Hp in Hp'. injection Hp' as <- <-.
  rewrite Hf in Hf'. injection Hf' as <-.
  set (lines := split_nl content) in *.
  destruct Hcases as [[Hout ->]|(n & -> & Hn & Hw)]; simpl.
  - (* nothing is written *)
    do 3 (split; [done|]).
    exists lines. unfold file_lines. rewrite Hf. do 2 (split; [done|]).
    by left.
  - simpl in Hw. rewrite Hw. simpl.
    set (i := Z.to_nat (n - 1)) in *.
    assert (i < length lines) as Hi by (subst i; lia).
    destruct (lookup_lt_is_Some_2 _ _ Hi) as [l Hl].
    rewrite (list_lookup_total_correct _ _ _ Hl).
    split; [|split; [|split]].
    + intros p Hne. by rewrite lookup_insert_ne.
    + intros Hrange. destruct (Hrange n eq_refl); lia.
    + intros n' line [= <-] _. fold i. rewrite Hl. intros [= <-] Hstart.
      rewrite (check_off_other _ Hstart), list_insert_id by done.
      subst lines. rewrite join_split. by apply insert_id.
    + exists (<[i := check_off l]> lines). split; [|split].
      * unfold file_lines. rewrite lookup_insert_eq. simpl. f_equal.
        pose proof (split_join_insert content i Hi) as Hs. fold lines in Hs.
        by rewrite (list_lookup_total_correct _ _ _ Hl) in Hs.
      * by rewrite length_insert.
      * intros j line Hj. destruct (decide (i = j)) as [<-|Hne].
        -- rewrite Hl in Hj. injection Hj as <-.
           rewrite list_lookup_insert_eq by done.
           destruct (check_off_cases l) as [->|(rest & -> & ->)]; [by left|].
           right. split; [f_equal; subst i; lia|]. by exists rest.
        -- left. by rewrite list_lookup_insert_ne.
Qed.

End MarkdownFolderClaims.

Module MarkdownFolderExamples.
Import Text JS MarkdownFolder MarkdownFolderClaims.

Example markComplete_checks_the_line :
  file_lines (markComplete "prd" "tasks.md:2" Examples.disk).1 "prd/tasks.md"
  = Some ["# Tasks"; "- [x] add login"; "- [x] set up the project"].
Proof. vm_compute. reflexivity. Qed.

Example markComplete_out_of_range :
  markComplete "prd" "tasks.md:4" Examples.disk = (Examples.disk, Ok tt)
  ∧ markComplete "prd" "tasks.md:0" Examples.disk = (Examples.disk, Ok tt)
  ∧ markComplete "prd" "tasks.md:x" Examples.disk = (Examples.disk, Ok tt).
Proof. repeat split. Qed.

Example markComplete_throws :
  markComplete "prd" "tasks.md" Examples.disk = (Examples.disk, Throw)
  ∧ markComplete "prd" "other.md:1" Examples.disk = (Examples.disk, Throw).
Proof. split; reflexivity. Qed.

(** [markComplete_frame] at the id ["tasks.md:2"] of the example folder. *)
Lemma markComplete_frame_witness :
  parseTaskId "prd" "tasks.md:2" = Ok ("prd/tasks.md", Some 2%Z) ∧
  Examples.disk !! "prd/tasks.md" = Some Examples.tasks_md ∧
  ∃ lines',
    file_lines (markComplete "prd" "tasks.md:2" Examples.disk).1 "prd/tasks.md"
    = Some lines' ∧
    length lines' = length (split_nl Examples.tasks_md) ∧
    ∀ j line, split_nl Examples.tasks_md !! j = Some line →
      lines' !! j = Some line ∨
      (Some 2%Z = Some (Z.of_nat j + 1)%Z ∧
       ∃ rest, line = "- [ ] " +:+ rest ∧
               lines' !! j = Some ("- [x] " +:+ rest)).
Proof.
  split; [reflexivity|]. split; [reflexivity|].
  exact (proj2 (proj2 (proj2
    (proj2 (markComplete_frame "prd" "tasks.md:2" Examples.disk)
           "prd/tasks.md" (Some 2%Z) Examples.tasks_md eq_refl eq_refl)))).
Defined.

End MarkdownFolderExamples.

(** ** Stream-json parsing and step detection *)

Module BaseFacts.
Import Text JS Base TextFacts.

Section WithRuntime.
Context `{RT : Runtime}.

(** The lines of a text made of lines. *)
Lemma nonempty_lines_join ls :
  Forall (fun l => one_line l = true) ls →
  nonempty_lines (join_nl ls) = List.filter (fun l => negb (is_empty l)) ls.
Proof.
  intros Hall. unfold nonempty_lines. destruct ls as [|l ls]; [done|].
  by rewrite split_join.
Qed.

(** The loop of [parseStreamJsonResult] never stops on an exception. *)
Lemma result_loop_ok lines a : ∃ a', result_loop lines a = (a', Ok tt).
Proof.
  revert a. induction lines as [|line lines IH]; intros a; simpl; [by eauto|].
  destruct (result_line line a) as [a' [[]|]]; simpl; apply IH.
Qed.

(** A line that is not JSON leaves the three variables as they are. *)
Lemma result_line_unparseable line a :
  JSON_parse line = Throw → result_line line a = (a, Throw).
Proof. unfold result_line. by intros ->. Qed.

Lemma result_loop_skip before bad after a :
  JSON_parse bad = Throw →
  result_loop (before ++ bad :: after) a = result_loop (before ++ after) a.
Proof.
  intros Hbad. revert a. induction before as [|l before IH]; intros a; simpl.
  - by rewrite (result_line_unparseable _ _ Hbad).
  - destruct (result_line l a) as [a' [[]|]]; simpl; apply IH.
Qed.

Lemma error_loop_ok lines : ∃ r, error_loop lines = Ok r.
Proof.
  induction lines as [|line lines IH]; simpl; [by eauto|].
  destruct (error_line line) as [[v|]|]; simpl; by eauto.
Qed.

Lemma error_loop_skip before bad after :
  JSON_parse bad = Throw →
  error_loop (before ++ bad :: after) = error_loop (before ++ after).
Proof.
  intros Hbad. induction before as [|l before IH]; simpl.
  - unfold error_line. by rewrite Hbad.
  - by rewrite IH.
Qed.

Lemma filter_skip (keep : string → bool) before bad after :
  List.filter keep (before ++ bad :: after)
  = List.filter keep before ++ (if keep bad then [bad] else [])
    ++ List.filter keep after.
Proof.
  rewrite List.filter_app. simpl. by destruct (keep bad).
Qed.

(** An unparseable line among the lines of the output changes nothing. *)
Lemma parseStreamJsonResult_skip before bad after :
  Forall (fun l => one_line l = true) (before ++ bad :: after) →
  JSON_parse bad = Throw →
  parseStreamJsonResult (join_nl (before ++ bad :: after))
  = parseStreamJsonResult (join_nl (before ++ after)).
Proof.
  intros Hall Hbad. unfold parseStreamJsonResult.
  rewrite !nonempty_lines_join; [|by decompose_Forall|done].
  rewrite filter_skip, List.filter_app.
  destruct (negb (is_empty bad)); [|done].
  simpl. by rewrite result_loop_skip.
Qed.

Lemma checkForErrors_skip before bad after :
  Forall (fun l => one_line l = true) (before ++ bad :: after) →
  JSON_parse bad = Throw →
  checkForErrors (join_nl (before ++ bad :: after))
  = checkForErrors (join_nl (before ++ after)).
Proof.
  intros Hall Hbad. unfold checkForErrors.
  rewrite !nonempty_lines_join; [|by decompose_Forall|done].
  rewrite filter_skip, List.filter_app.
  destruct (negb (is_empty bad)); [|done].
  simpl. by rewrite error_loop_skip.
Qed.

(** What a line does to the response. *)
Lemma result_line_response line a a' r :
  result_line line a = (a', r) →
  response a' = response a ∨
  ∃ parsed ty v,
    JSON_parse line = Ok parsed ∧ get parsed "type" = Ok ty ∧
    is_str ty "result" = true ∧ get parsed "result" = Ok v ∧
    response a' = or_else v (VStr "Task completed").
Proof.
  unfold result_line.
  destruct (JSON_parse line) as [parsed|] eqn:Hp; [|intros [= <- _]; by left].
  destruct (get parsed "type") as [ty|] eqn:Hg; [|intros [= <- _]; by left].
  destruct (is_str ty "result") eqn:Hty; [|intros [= <- _]; by left].
  destruct (get parsed "result") as [v|] eqn:Hv; [|intros [= <- _]; by left].
  intros Hr. right. exists parsed, ty, v. do 4 (split; [done|]).
  destruct (bind _ _); [destruct (bind _ _)|]; by injection Hr as <- _.
Qed.

Lemma or_else_truthy v d : truthy d = true → truthy (or_else v d) = true.
Proof. unfold or_else. by destruct (truthy v) eqn:?. Qed.

(** The response is the empty text it starts as, or a truthy value. *)
Lemma result_loop_response lines a a' r :
  result_loop lines a = (a', r) →
  response a = VStr "" ∨ truthy (response a) = true →
  response a' = VStr "" ∨ truthy (response a') = true.
Proof.
  revert a. induction lines as [|line lines IH]; intros a; simpl.
  { by intros [= <- _]. }
  destruct (result_line line a) as [a1 r1] eqn:Hline.
  assert (try_catch r1 (Ok tt) = Ok tt) as -> by by destruct r1 as [[]|].
  intros Hloop Ha. apply (IH _ Hloop).
  destruct (result_line_response _ _ _ _ Hline)
    as [->|(parsed & ty & v & _ & _ & _ & _ & ->)]; [done|].
  right. by apply or_else_truthy.
Qed.

(** With no record of type [result] that carries a truthy result, the
    response is the empty text or the default. *)
Lemma result_loop_default lines a a' r :
  (∀ line parsed ty v,
     line ∈ lines → JSON_parse line = Ok parsed →
     get parsed "type" = Ok ty → is_str ty "result" = true →
     get parsed "result" = Ok v → truthy v = false) →
  result_loop lines a = (a', r) →
  response a = VStr "" ∨ response a = VStr "Task completed" →
  response a' = VStr "" ∨ response a' = VStr "Task completed".
Proof.
  revert a. induction lines as [|line lines IH]; intros a Hno; simpl.
  { by intros [= <- _]. }
  destruct (result_line line a) as [a1 r1] eqn:Hline.
  assert (try_catch r1 (Ok tt) = Ok tt) as -> by by destruct r1 as [[]|].
  intros Hloop Ha. apply (IH a1); [|done|].
  { intros l p ty v Hl. apply Hno. by right. }
  destruct (result_line_response _ _ _ _ Hline)
    as [->|(parsed & ty & v & Hp & Hty & His & Hv & ->)]; [done|].
  right. unfold or_else.
  by rewrite (Hno line parsed ty v (list_elem_of_here _ _) Hp Hty His Hv).
Qed.

(** The chain of tests is the table [Spec.detect_order], read in order. *)
Lemma classify_first_match t c s :
  classify t c s
  = Spec.first_match Spec.detect_order
      {| Spec.toolName := t; Spec.command := c; Spec.content := s |}.
Proof.
  unfold classify, Spec.detect_order, Spec.first_match,
    Spec.commit_keyword, Spec.staging_keyword, Spec.lint_keyword,
    Spec.test_runner_keyword, Spec.test_file_path, Spec.write_tool,
    Spec.read_tool, Spec.mentions, Spec.tool_is.
  cbn [existsb Spec.toolName Spec.command Spec.content].
  by rewrite ?orb_false_r, ?orb_assoc.
Qed.

Lemma detectStepFromOutput_view line :
  detectStepFromOutput line
  = Ok (Spec.view_of line ≫= Spec.first_match Spec.detect_order).
Proof.
  unfold detectStepFromOutput, Spec.view_of, detect_parsed.
  destruct (negb (startsWith (trim line) "{")); [done|].
  destruct (JSON_parse (trim line)) as [parsed|]; [|done]. simpl.
  destruct (tool_name_of parsed) as [t|]; [|done]. simpl.
  destruct (command_of parsed) as [c|]; [|done]. simpl.
  destruct (content_of parsed) as [s|]; [|done]. simpl.
  by rewrite classify_first_match.
Qed.

End WithRuntime.

(** A rule wins over every later rule, and loses to no rule that fails. *)
Lemma first_match_earlier {A} (before : list ((A → bool) * string)) test step
    after (x : A) :
  Forall (fun rule => rule.1 x = false) before → test x = true →
  Spec.first_match (before ++ (test, step) :: after) x = Some step.
Proof.
  intros Hbefore Htest. induction Hbefore as [|[t s] before Ht _ IH]; simpl.
  - by rewrite Htest.
  - simpl in Ht. by rewrite Ht.
Qed.

Lemma first_match_none {A} (rules : list ((A → bool) * string)) (x : A) :
  Forall (fun rule => rule.1 x = false) rules → Spec.first_match rules x = None.
Proof.
  intros H. induction H as [|[t s] rules Ht _ IH]; [done|].
  simpl in *. by rewrite Ht.
Qed.

Lemma monitor_step_first_match content current_step :
  Ralphy.monitor_step content current_step
  = default current_step (Spec.first_match Spec.monitor_order content).
Proof.
  unfold Ralphy.monitor_step, Spec.monitor_order, Spec.first_match.
  repeat (match goal with |- context [if ?b then _ else _] =>
            destruct b; [done|] end).
  done.
Qed.

End BaseFacts.

Module BaseClaims.
Import Text JS Base TextFacts BaseFacts.

(** C7. [parseStreamJsonResult], [checkForErrors] and
    [detectStepFromOutput] return normally on every input, whatever the
    runtime's parser does with it: none of them ends with an exception.  A
    line that [JSON.parse] rejects yields no step, and among the lines of
    an output it leaves the parsed result and the detected error as they
    are without it. *)
Theorem parsers_total `{RT : Runtime} :
  (∀ output, ∃ a, parseStreamJsonResult output = Ok a) ∧
  (∀ output, ∃ v, checkForErrors output = Ok v) ∧
  (∀ line, ∃ step, detectStepFromOutput line = Ok step) ∧
  (∀ line, JSON_parse (trim line) = Throw →
           detectStepFromOutput line = Ok None) ∧
  (∀ before bad after,
     Forall (fun l => one_line l = true) (before ++ bad :: after) →
     JSON_parse bad = Throw →
     parseStreamJsonResult (join_nl (before ++ bad :: after))
     = parseStreamJsonResult (join_nl (before ++ after)) ∧
     checkForErrors (join_nl (before ++ bad :: after))
     = checkForErrors (join_nl (before ++ after))).
Proof.
  repeat split.
  - intros output. unfold parseStreamJsonResult.
    destruct (result_loop_ok (nonempty_lines output)
                (mk_acc (VStr "") (VNum (Fin 0 0)) (VNum (Fin 0 0))))
      as [a ->]. simpl. by eauto.
  - intros output. unfold checkForErrors.
    destruct (error_loop_ok (nonempty_lines output)) as [r ->]. simpl. by eauto.
  - intros line. rewrite detectStepFromOutput_view. by eauto.
  - intros line Hbad. rewrite detectStepFromOutput_view.
    unfold Spec.view_of. rewrite Hbad. by destruct (negb _).
  - by apply parseStreamJsonResult_skip.
  - by apply checkForErrors_skip.
Qed.

(** [parsers_total] on an output whose second line is not JSON. *)
Lemma parsers_total_witness :
  Forall (fun l => one_line l = true)
    ([Examples.result_record] ++ "{ not json" :: [Examples.error_record]) ∧
  JSON_parse "{ not json" = Throw ∧
  parseStreamJsonResult
    (join_nl ([Examples.result_record] ++ "{ not json" :: [Examples.error_record]))
  = parseStreamJsonResult
      (join_nl ([Examples.result_record] ++ [Examples.error_record])).
Proof.
  assert (Forall (fun l => one_line l = true)
            ([Examples.result_record] ++ "{ not json" :: [Examples.error_record]))
    as Hlines by (repeat constructor).
  split; [exact Hlines|]. split; [reflexivity|].
  exact (proj1 (proj2 (proj2 (proj2 (proj2 parsers_total)))
                  [Examples.result_record] "{ not json" [Examples.error_record]
                  Hlines eq_refl)).
Defined.

End BaseClaims.

Module BaseExamples.
Import Text JS Base.

Example parseStreamJsonResult_result_record :
  parseStreamJsonResult Examples.result_record
  = Ok (mk_acc (VStr "X") (VNum (Fin 5 0)) (VNum (Fin 7 0))).
Proof. reflexivity. Qed.

Example parseStreamJsonResult_noisy_output :
  parseStreamJsonResult Examples.noisy_output
  = Ok (mk_acc (VStr "X") (VNum (Fin 5 0)) (VNum (Fin 7 0))).
Proof. reflexivity. Qed.

Example parseStreamJsonResult_plain_output :
  parseStreamJsonResult Examples.plain_output
  = Ok (mk_acc (VStr "Task completed") (VNum (Fin 0 0)) (VNum (Fin 0 0))).
Proof. reflexivity. Qed.

Example checkForErrors_error_record :
  checkForErrors (Examples.lines [Examples.result_record; Examples.error_record])
  = Ok (VStr "overloaded")
  ∧ checkForErrors Examples.noisy_output = Ok VNull.
Proof. split; reflexivity. Qed.

Example detectStepFromOutput_tools :
  detectStepFromOutput (Examples.record [("tool", "Write")])
  = Ok (Some "Implementing")
  ∧ detectStepFromOutput (Examples.record [("name", "edit")])
    = Ok (Some "Implementing")
  ∧ detectStepFromOutput (Examples.record [("tool_name", "Grep")])
    = Ok (Some "Reading code")
  ∧ detectStepFromOutput (Examples.record [("type", "text")]) = Ok None
  ∧ detectStepFromOutput "git commit" = Ok None.
Proof. repeat split. Qed.

Example detectStepFromOutput_commit_first :
  detectStepFromOutput
    (Examples.record [("tool", "Write"); ("command", "git commit -m lint")])
  = Ok (Some "Committing").
Proof. reflexivity. Qed.

Example monitor_step_tracker_file :
  Ralphy.monitor_step Examples.tracker_line "Thinking" = "Updating PRD"
  ∧ Ralphy.monitor_step "nothing to see" "Thinking" = "Thinking".
Proof. split; reflexivity. Qed.

End BaseExamples.

(** ** The shell script *)

Module RalphyFacts.
Import Text Ralphy TextFacts.

(** *** [mark_task_complete_markdown] *)

Lemma sed_check_off_idempotent task line :
  sed_check_off task (sed_check_off task line) = sed_check_off task line.
Proof.
  unfold sed_check_off at 2 3.
  destruct (startsWith line ("- [ ] " +:+ task)) eqn:Hline.
  - by unfold sed_check_off.
  - unfold sed_check_off. by rewrite Hline.
Qed.

Lemma string_of_list_app l l' :
  String.string_of_list_ascii (l ++ l')
  = String.string_of_list_ascii l +:+ String.string_of_list_ascii l'.
Proof. induction l as [|c l IH]; [done|]. simpl. by rewrite IH. Qed.

Lemma length_list_ascii_of_string s :
  length (String.list_ascii_of_string s) = String.length s.
Proof. induction s as [|c s IH]; [done|]. simpl. by rewrite IH. Qed.

(** What the tokenizers and the escaping step make of a plain
    character. *)
Lemma sed_plain_char_spec c :
  sed_plain_char c = true →
  sed_special c = false ∧ Ascii.eqb c "\" = false ∧
  Ascii.eqb c "^" = false ∧ Ascii.eqb c "/" = false ∧
  Ascii.eqb c nl = false ∧ Ascii.eqb c "&" = false ∧
  existsb (Ascii.eqb c) (nl :: String.list_ascii_of_string "/.*[$")
  || negb (is_ascii c) = false.
Proof.
  destruct c as [[] [] [] [] [] [] [] []]; vm_compute; intros H;
    by repeat split.
Qed.

Lemma sed_escape_plain task : sed_plain task = true → sed_escape task = task.
Proof.
  induction task as [|c task IH]; [done|]. cbn [sed_plain sed_escape].
  intros [Hc Htask]%andb_prop.
  destruct (sed_plain_char_spec c Hc) as (-> & _). by rewrite IH.
Qed.

Lemma bre_tokens_plain task :
  sed_plain task = true →
  bre_tokens false task = Some (t_char <$> String.list_ascii_of_string task).
Proof.
  induction task as [|c task IH]; [done|]. cbn [sed_plain bre_tokens].
  intros [Hc Htask]%andb_prop.
  destruct (sed_plain_char_spec c Hc) as (_ & -> & -> & _ & _ & _ & ->).
  by rewrite (IH Htask).
Qed.

Lemma sed_replacement_plain task :
  sed_plain task = true →
  sed_replacement task = Some (p_char <$> String.list_ascii_of_string task).
Proof.
  induction task as [|c task IH]; [done|]. cbn [sed_plain sed_replacement].
  intros [Hc Htask]%andb_prop.
  destruct (sed_plain_char_spec c Hc) as (_ & -> & _ & H1 & H2 & -> & _).
  unfold sed_plain_char in Hc. apply andb_prop in Hc as [-> _].
  rewrite H1, H2, (IH Htask). done.
Qed.

Lemma replaced_chars cs matched :
  replaced (p_char <$> cs) matched = String.string_of_list_ascii cs.
Proof.
  induction cs as [|c cs IH]; [done|]. rewrite fmap_cons. cbn [replaced].
  by rewrite IH.
Qed.

Lemma eat_nil cs : eat cs [] = [].
Proof. by induction cs. Qed.

Lemma eat_one cs s :
  eat cs [s]
  = if startsWith s (String.string_of_list_ascii cs)
    then [substring_from (length cs) s] else [].
Proof.
  revert s. induction cs as [|c cs IH]; intros s; [done|].
  cbn [eat matches]. destruct s as [|c' s]; [by rewrite eat_nil|].
  cbn. destruct (Ascii.eqb c c'); [|by rewrite eat_nil].
  cbn. apply IH.
Qed.

Lemma bre_parse_chars cs f :
  alternatives f = None →
  ∃ r, bre_parse (t_char <$> cs) f [] = Some r ∧
       ∀ line from,
         matches r line from = eat cs (matches (frame_branch f) line from).
Proof.
  revert f. induction cs as [|c cs IH]; intros f Hf.
  - exists (frame_regex f). split; [done|]. unfold frame_regex.
    by rewrite Hf.
  - destruct (IH (push_item (r_char c) f) Hf) as (r & Hr & Hm).
    exists r. split; [done|]. intros line from. by rewrite Hm.
Qed.

Lemma bre_tokens_box rest ts :
  bre_tokens false rest = Some ts →
  bre_tokens true ("^- \[ \] " +:+ rest)
  = Some (t_bol :: (t_char <$> String.list_ascii_of_string "- [ ] ") ++ ts).
Proof.
  intros H. rewrite !append_cons. change ("" +:+ rest) with rest.
  cbn. rewrite H. reflexivity.
Qed.

Lemma sed_replacement_box rest ps :
  sed_replacement rest = Some ps →
  sed_replacement ("- [x] " +:+ rest)
  = Some ((p_char <$> String.list_ascii_of_string "- [x] ") ++ ps).
Proof.
  intros H. rewrite !append_cons. change ("" +:+ rest) with rest.
  cbn. rewrite H. reflexivity.
Qed.

Lemma first_match_later r line s :
  (∀ s', String.length s' < String.length line → matches r line [s'] = []) →
  String.length s < String.length line → first_match r line s = None.
Proof.
  intros Hr. induction s as [|c s IH]; intros Hs.
  - cbn [first_match]. by rewrite (Hr "" Hs).
  - cbn [first_match]. rewrite (Hr _ Hs). cbn [shortest].
    apply IH. simpl in Hs. lia.
Qed.

Lemma length_substring_from n s :
  String.length (substring_from n s) = String.length s - n.
Proof.
  revert s. induction n as [|n IH]; intros s; [simpl; lia|].
  destruct s as [|c s]; [done|]. simpl. apply IH.
Qed.

(** For a plain title [sed] does what [sed_check_off] says. *)
Lemma mark_task_complete_markdown_plain task lines :
  sed_plain task = true →
  mark_task_complete_markdown task lines
  = sed_done (sed_check_off task <$> lines).
Proof.
  intros Hplain. unfold mark_task_complete_markdown, sed_s.
  rewrite (sed_escape_plain _ Hplain).
  rewrite (bre_tokens_box _ _ (bre_tokens_plain _ Hplain)).
  rewrite (sed_replacement_box _ _ (sed_replacement_plain _ Hplain)).
  set (cs := String.list_ascii_of_string task).
  rewrite <- !fmap_app.
  cbn [bre_parse alternatives frame_branch empty_frame last_item branch].
  destruct (bre_parse_chars (String.list_ascii_of_string "- [ ] " ++ cs)
              {| alternatives := None; branch := r_seq r_empty r_bol;
                 last_item := None |} eq_refl) as (r & Hparse & Hr).
  rewrite Hparse.
  f_equal. apply list_fmap_ext. intros _ line _.
  assert (∀ s, matches r line [s]
               = if Nat.eqb (String.length s) (String.length line)
                 then if startsWith s ("- [ ] " +:+ task)
                      then [substring_from (6 + String.length task) s]
                      else []
                 else []) as Hm.
  { intros s. rewrite Hr. cbn [frame_branch last_item branch matches
                               List.filter].
    destruct (Nat.eqb _ _); [|apply eat_nil].
    rewrite eat_one, string_of_list_app. subst cs.
    rewrite !String.string_of_list_ascii_of_string, length_app.
    by rewrite !length_list_ascii_of_string. }
  unfold substitute, sed_check_off.
  destruct (startsWith line ("- [ ] " +:+ task)) eqn:Hline.
  - destruct line as [|c line]; [done|].
    cbn [first_match]. rewrite Hm, Nat.eqb_refl, Hline. cbn [shortest].
    rewrite Nat.sub_diag. cbn [substring_to String.append].
    rewrite replaced_chars, string_of_list_app. subst cs.
    rewrite !String.string_of_list_ascii_of_string.
    by rewrite !append_cons.
  - assert (first_match r line line = None) as ->; [|done].
    destruct line as [|c line].
    + cbn [first_match]. rewrite Hm, Hline. done.
    + cbn [first_match]. rewrite Hm, Nat.eqb_refl, Hline. cbn [shortest].
      apply first_match_later; [|simpl; lia].
      intros s' Hs'. rewrite Hm.
      by destruct (Nat.eqb_spec (String.length s')
                     (String.length (String c line))) as [?|_]; [lia|].
Qed.

(** Marking a task with a plain title twice leaves the task file as
    marking it once does. *)
Lemma mark_task_complete_markdown_idempotent task lines :
  sed_plain task = true →
  ∃ lines',
    mark_task_complete_markdown task lines = sed_done lines' ∧
    mark_task_complete_markdown task lines' = sed_done lines'.
Proof.
  intros Hplain. exists (sed_check_off task <$> lines).
  rewrite !mark_task_complete_markdown_plain by done. split; [done|].
  f_equal. rewrite <- list_fmap_compose. apply list_fmap_ext.
  intros i line _. apply sed_check_off_idempotent.
Qed.

Example mark_task_complete_markdown_example :
  mark_task_complete_markdown "add login"
    ["# Tasks"; "- [ ] add login"; "- [ ] add logout"]
  = sed_done ["# Tasks"; "- [x] add login"; "- [ ] add logout"].
Proof. reflexivity. Qed.

(** *** Command substitution *)

Lemma strip_nl_rev_split r :
  ∃ ns, r = ns ++ strip_nl_rev r ∧ Forall (fun c => c = nl) ns.
Proof.
  induction r as [|c r (ns & IH & Hns)].
  - by exists [].
  - simpl. destruct (Ascii.eqb_spec c nl) as [->|Hc].
    + exists (nl :: ns). split; [simpl; by f_equal|by constructor].
    + by exists [].
Qed.

Lemma line_feeds_of_list ns :
  Forall (fun c => c = nl) ns →
  line_feeds (String.string_of_list_ascii ns) = true.
Proof.
  induction 1 as [|c ns -> _ IH]; [done|]. simpl. by rewrite IH.
Qed.

(** What [$( )] removes from a text is line feeds at its end. *)
Lemma captured_split s :
  ∃ t, s = captured s +:+ t ∧ line_feeds t = true.
Proof.
  unfold captured.
  destruct (strip_nl_rev_split (rev (String.list_ascii_of_string s)))
    as (ns & Hr & Hns).
  exists (String.string_of_list_ascii (rev ns)). split.
  - rewrite <- string_of_list_app, <- rev_app_distr, <- Hr, rev_involutive.
    by rewrite String.string_of_list_ascii_of_string.
  - apply line_feeds_of_list. by apply Forall_rev.
Qed.

Lemma startsWith_before_line_feeds a t p :
  one_line p = true → line_feeds t = true →
  startsWith (a +:+ t) p = true → startsWith a p = true.
Proof.
  intros Hp Ht. revert a. induction p as [|c p IH]; intros a; [done|].
  simpl in Hp. apply andb_prop in Hp as [Hc Hp].
  destruct a as [|b a].
  - destruct t as [|d t]; [done|]. simpl in Ht |- *.
    apply andb_prop in Ht as [Hd _].
    destruct (Ascii.eqb_spec c d) as [->|]; [|done].
    by rewrite Hd in Hc.
  - rewrite append_cons. cbn [startsWith].
    destruct (Ascii.eqb c b); [|done]. by apply IH.
Qed.

Lemma includes_line_feeds t p :
  one_line p = true → is_empty p = false → line_feeds t = true →
  includes t p = false.
Proof.
  intros Hp Hne. induction t as [|d t IH]; intros Ht.
  - by destruct p.
  - simpl in Ht. apply andb_prop in Ht as [Hd Ht]. cbn [includes].
    rewrite (IH Ht), orb_false_r.
    destruct p as [|c p]; [done|]. simpl in Hp |- *.
    destruct (Ascii.eqb_spec c d) as [->|]; [|done].
    by rewrite Hd in Hp.
Qed.

(** A text of one line is in the output of a command exactly when it is
    in what [$( )] captures of it. *)
Lemma includes_captured s p :
  one_line p = true → is_empty p = false →
  includes (captured s) p = includes s p.
Proof.
  intros Hp Hne. destruct (captured_split s) as (t & Hs & Ht).
  rewrite Hs at 2. clear Hs. induction (captured s) as [|b a IH].
  - change ("" +:+ t) with t. rewrite (includes_line_feeds t p) by done.
    by destruct p.
  - rewrite append_cons. cbn [includes]. rewrite IH. f_equal.
    change (String b (a +:+ t)) with (String b a +:+ t).
    destruct (startsWith (String b a +:+ t) p) eqn:Hst.
    + by apply (startsWith_before_line_feeds (String b a) t p).
    + destruct (startsWith (String b a) p) eqn:Hsa; [|done].
      rewrite <- Hst. clear -Hsa. revert Hsa. generalize (String b a) as a'.
      induction p as [|c p IHp]; intros a'; [done|].
      destruct a' as [|d a']; [done|]. rewrite append_cons. cbn [startsWith].
      destruct (Ascii.eqb c d); [|done]. apply IHp.
Qed.

Section WithEnv.
Variable cfg : config.
Variable E : env.

(** *** [parse_ai_result] *)

Lemma parse_ai_result_opencode result :
  USE_OPENCODE cfg = true →
  is_empty (response (parse_ai_result cfg E result)) = false.
Proof.
  intros H. unfold parse_ai_result. rewrite H.
  destruct (if negb _ then _ else _) as [[i o] c]. simpl.
  by destruct (is_empty (text_parts E result)) eqn:Hr.
Qed.

Lemma parse_ai_result_opencode_default result :
  USE_OPENCODE cfg = true →
  is_empty (text_parts E result) = true →
  response (parse_ai_result cfg E result) = "Task completed".
Proof.
  intros H Hnone. unfold parse_ai_result. rewrite H, Hnone.
  by destruct (if negb _ then _ else _) as [[i o] c].
Qed.

Lemma parse_ai_result_claude_empty result :
  USE_OPENCODE cfg = false →
  grep (pair_text "type" "result") result = [] →
  response (parse_ai_result cfg E result) = "".
Proof. intros H Hnone. unfold parse_ai_result. by rewrite H, Hnone. Qed.

(** *** The retry loop of [run_single_task] *)

Lemma attempt_failed_cases output :
  attempt_succeeded E output = false →
  is_empty (captured output) = true ∨
  (is_empty (captured output) = false
   ∧ ∃ msg, check_for_errors E (captured output) = Some msg).
Proof.
  unfold attempt_succeeded. destruct (is_empty (captured output)); [by left|].
  destruct (check_for_errors E (captured output)); [by eauto|done].
Qed.

Lemma attempt_succeeded_cases output :
  attempt_succeeded E output = true →
  is_empty (captured output) = false
  ∧ check_for_errors E (captured output) = None.
Proof.
  unfold attempt_succeeded. destruct (is_empty (captured output)); [done|].
  by destruct (check_for_errors E (captured output)).
Qed.

End WithEnv.
End RalphyFacts.

Module ParseClaims.
Import Text JS Base TextFacts BaseFacts.

(** C5, as the code has it.  [detectStepFromOutput] checks, on a line that
    is a record it can read, the commit keyword, the add/staging keyword,
    the lint keyword, the test-runner keyword, the test-file-path pattern,
    the write/edit tool name and the read/glob/grep tool name, in this
    order, and returns the first that matches; it has no tracker-file
    category; a line that matches none, or that is no such record, yields
    no step.  [monitor_progress] checks the window of output it looks at
    in the order commit, add/staging, progress.txt ("Logging"),
    PRD.md or tasks.yaml ("Updating PRD"), lint, test runner, test-file
    path, write/edit tool, read/glob/grep tool, and keeps the step shown
    so far when none matches. *)
Theorem detectStep_order `{RT : Runtime} :
  (∀ line,
     detectStepFromOutput line
     = Ok (Spec.view_of line ≫= Spec.first_match Spec.detect_order)) ∧
  (∀ line v before test step after,
     Spec.view_of line = Some v →
     Spec.detect_order = before ++ (test, step) :: after →
     Forall (fun rule => rule.1 v = false) before → test v = true →
     detectStepFromOutput line = Ok (Some step)) ∧
  (∀ line v,
     Spec.view_of line = Some v →
     Forall (fun rule => rule.1 v = false) Spec.detect_order →
     detectStepFromOutput line = Ok None) ∧
  (∀ line, Spec.view_of line = None → detectStepFromOutput line = Ok None) ∧
  (∀ content current_step,
     Ralphy.monitor_step content current_step
     = default current_step (Spec.first_match Spec.monitor_order content)).
Proof.
  split; [apply detectStepFromOutput_view|].
  split; [|split; [|split]].
  - intros line v before test step after Hv Horder Hbefore Htest.
    rewrite detectStepFromOutput_view, Hv, Horder. cbn [mbind option_bind].
    by rewrite first_match_earlier.
  - intros line v Hv Hnone.
    rewrite detectStepFromOutput_view, Hv. cbn [mbind option_bind].
    by rewrite first_match_none.
  - intros line Hv. by rewrite detectStepFromOutput_view, Hv.
  - apply monitor_step_first_match.
Qed.

(** [detectStep_order] on a line that names the read tool and matches no
    earlier rule. *)
Lemma detectStep_order_witness :
  let v := {| Spec.toolName := "read"; Spec.command := "";
              Spec.content := Ref.toLowerCase Examples.tracker_line |} in
  Spec.view_of Examples.tracker_line = Some v ∧
  Spec.detect_order
  = take 6 Spec.detect_order ++ (Spec.read_tool, "Reading code") :: [] ∧
  Forall (fun rule => rule.1 v = false) (take 6 Spec.detect_order) ∧
  Spec.read_tool v = true ∧
  detectStepFromOutput Examples.tracker_line = Ok (Some "Reading code").
Proof.
  assert (Forall (fun rule : (Spec.line_view → bool) * string =>
                    rule.1 {| Spec.toolName := "read"; Spec.command := "";
                              Spec.content :=
                                Ref.toLowerCase Examples.tracker_line |} = false)
            (take 6 Spec.detect_order)) as Hbefore
    by (repeat constructor).
  split; [reflexivity|]. split; [reflexivity|]. split; [exact Hbefore|].
  split; [reflexivity|].
  exact (proj1 (proj2 detectStep_order) Examples.tracker_line _
           (take 6 Spec.detect_order) Spec.read_tool "Reading code" []
           eq_refl eq_refl Hbefore eq_refl).
Defined.

(** C5, as stated, fails: the line [{"tool":"Read","file_path":"PRD.md"}]
    mentions a tracker file and names the read tool; the stated order
    classifies it as the tracker update, [detectStepFromOutput] as
    "Reading code". *)
Lemma detectStep_ignores_tracker_file :
  Spec.view_of Examples.tracker_line
  = Some {| Spec.toolName := "read"; Spec.command := "";
            Spec.content := Ref.toLowerCase Examples.tracker_line |} ∧
  Spec.detectStep_stated Examples.tracker_line = Some "Updating tracker" ∧
  detectStepFromOutput Examples.tracker_line = Ok (Some "Reading code").
Proof. vm_compute. repeat split. Qed.

(** C6, as the code has it.  [parseStreamJsonResult] returns a response
    that is never empty: it is "Task completed" whenever no line parses as
    a record of type [result] with a truthy [result].  [parse_ai_result]
    gives a response that is not empty in OpenCode mode, "Task completed"
    when jq extracts no text from the output; in Claude mode its response is
    empty when no line of the output contains ["type":"result"]. *)
Theorem response_default `{RT : Runtime} :
  (∀ output, ∃ a, parseStreamJsonResult output = Ok a
                  ∧ truthy (Base.response a) = true
                  ∧ Base.response a ≠ VStr "") ∧
  (∀ output,
     (∀ line parsed ty v,
        line ∈ nonempty_lines output → JSON_parse line = Ok parsed →
        get parsed "type" = Ok ty → is_str ty "result" = true →
        get parsed "result" = Ok v → truthy v = false) →
     ∃ a, parseStreamJsonResult output = Ok a
          ∧ Base.response a = VStr "Task completed") ∧
  (∀ cfg E result,
     Ralphy.USE_OPENCODE cfg = true →
     is_empty (Ralphy.response (Ralphy.parse_ai_result cfg E result)) = false ∧
     (is_empty (Ralphy.text_parts E result) = true →
      Ralphy.response (Ralphy.parse_ai_result cfg E result) = "Task completed")) ∧
  (∀ cfg E result,
     Ralphy.USE_OPENCODE cfg = false →
     Ralphy.grep (Ralphy.pair_text "type" "result") result = [] →
     Ralphy.response (Ralphy.parse_ai_result cfg E result) = "").
Proof.
  split; [|split; [|split]].
  - intros output. unfold parseStreamJsonResult.
    destruct (result_loop _ _) as [a r] eqn:Hloop.
    destruct (result_loop_ok (nonempty_lines output)
                (mk_acc (VStr "") (VNum (Fin 0 0)) (VNum (Fin 0 0))))
      as [a' Hok].
    rewrite Hloop in Hok. injection Hok as <- ->. simpl.
    eexists. split; [done|]. simpl.
    assert (truthy (or_else (Base.response a) (VStr "Task completed")) = true)
      as Ht by by apply or_else_truthy.
    split; [done|]. intros Heq. by rewrite Heq in Ht.
  - intros output Hno. unfold parseStreamJsonResult.
    destruct (result_loop _ _) as [a r] eqn:Hloop.
    destruct (result_loop_ok (nonempty_lines output)
                (mk_acc (VStr "") (VNum (Fin 0 0)) (VNum (Fin 0 0))))
      as [a' Hok].
    rewrite Hloop in Hok. injection Hok as <- ->. simpl.
    eexists. split; [done|]. simpl.
    destruct (result_loop_default _ _ _ _ Hno Hloop) as [->| ->]; by eauto.
  - intros cfg E result H. split.
    + by apply RalphyFacts.parse_ai_result_opencode.
    + by apply RalphyFacts.parse_ai_result_opencode_default.
  - intros cfg E result. apply RalphyFacts.parse_ai_result_claude_empty.
Qed.

(** [response_default] on an output without any record. *)
Lemma response_default_witness :
  (∀ line parsed ty v,
     line ∈ nonempty_lines Examples.plain_output → JSON_parse line = Ok parsed →
     get parsed "type" = Ok ty → is_str ty "result" = true →
     get parsed "result" = Ok v → truthy v = false) ∧
  ∃ a, parseStreamJsonResult Examples.plain_output = Ok a
       ∧ Base.response a = VStr "Task completed".
Proof.
  assert (∀ line parsed ty v,
     line ∈ nonempty_lines Examples.plain_output → JSON_parse line = Ok parsed →
     get parsed "type" = Ok ty → is_str ty "result" = true →
     get parsed "result" = Ok v → truthy v = false) as Hno.
  { intros line parsed ty v Hin Hp.
    change (nonempty_lines Examples.plain_output)
      with [Examples.plain_output] in Hin.
    apply list_elem_of_singleton in Hin. subst line.
    vm_compute in Hp. discriminate Hp. }
  split; [exact Hno|].
  exact (proj1 (proj2 response_default) Examples.plain_output Hno).
Defined.

(** C6, as stated, fails: in Claude mode [parse_ai_result] gives an empty
    response for an output with no result record. *)
Lemma parse_ai_result_empty_response :
  Ralphy.response
    (Ralphy.parse_ai_result (Examples.defaults Ralphy.markdown)
       (Examples.steady [] Examples.plain_output) Examples.plain_output)
  = "".
Proof. reflexivity. Qed.

End ParseClaims.

(** *** The sequential orchestrator *)

Module SequentialFacts.
Import Text Ralphy RalphyFacts.

Section WithEnv.
Variable cfg : config.
Variable E : env.

(** The retry loop ends, within the fuel [run_single_task] gives it. *)
Lemma retry_loop_total fuel run task branch retry_count :
  Z.to_nat (MAX_RETRIES cfg - retry_count) < fuel →
  ∃ code evs,
    retry_loop cfg E fuel run task branch retry_count = Some (code, evs).
Proof.
  revert retry_count.
  induction fuel as [|fuel IH]; intros rc Hfuel; [lia|]. simpl.
  destruct (rc <? MAX_RETRIES cfg)%Z eqn:Hlt; [|by eauto].
  assert (∃ code evs,
            (if (rc + 1 <? MAX_RETRIES cfg)%Z
             then retry_loop cfg E fuel run task branch (rc + 1)
                  ≫= (fun '(code, evs) =>
                        Some (code, ev_run_ai task :: ev_sleep :: evs))
             else Some (1%Z, ev_run_ai task :: return_to_base_branch cfg))
            = Some (code, evs)) as Hfailed.
  { destruct (rc + 1 <? MAX_RETRIES cfg)%Z; [|by eauto].
    destruct (IH (rc + 1)%Z) as (code & evs & ->); [lia|]. simpl. by eauto. }
  destruct (is_empty (captured (agent_output E run rc))); [done|].
  destruct (check_for_errors E (captured (agent_output E run rc))); [done|].
  destruct (task_succeeded cfg task branch (captured (agent_output E run rc))).
  by eauto.
Qed.

(** [run_single_task] always returns. *)
Lemma run_single_task_total task_name task_num :
  ∃ code evs, run_single_task cfg E task_name task_num = Some (code, evs).
Proof.
  unfold run_single_task.
  destruct (is_empty (if negb (is_empty task_name) then task_name
                      else get_next_task E task_num)); [by eauto|].
  destruct (DRY_RUN cfg); [by eauto|].
  destruct (retry_loop_total (S (Z.to_nat (MAX_RETRIES cfg))) task_num
              (if negb (is_empty task_name) then task_name
               else get_next_task E task_num)
              (if BRANCH_PER_TASK cfg
               then create_task_branch E
                      (if negb (is_empty task_name) then task_name
                       else get_next_task E task_num)
               else "") 0) as (code & evs & ->); [lia|].
  simpl. by eauto.
Qed.

(** Attempts [retry_count], ..., [k - 1] fail and attempt [k] succeeds:
    the loop returns what the end of its body computes for attempt [k]. *)
Lemma retry_loop_succeeds fuel run task branch retry_count k :
  (retry_count ≤ k < MAX_RETRIES cfg)%Z →
  Z.to_nat (k - retry_count) < fuel →
  (∀ j, (retry_count ≤ j < k)%Z →
        attempt_succeeded E (agent_output E run j) = false) →
  attempt_succeeded E (agent_output E run k) = true →
  retry_loop cfg E fuel run task branch retry_count
  = Some ((task_succeeded cfg task branch (captured (agent_output E run k))).1,
          retries task (Z.to_nat (k - retry_count))
          ++ ev_run_ai task
             :: (task_succeeded cfg task branch (captured (agent_output E run k))).2).
Proof.
  revert retry_count.
  induction fuel as [|fuel IH]; intros rc Hk Hfuel Hfail Hok; [lia|].
  simpl. assert ((rc <? MAX_RETRIES cfg)%Z = true) as -> by lia.
  destruct (decide (rc = k)) as [->|Hne].
  - apply attempt_succeeded_cases in Hok as [-> ->].
    rewrite Z.sub_diag. simpl.
    by destruct (task_succeeded cfg task branch (captured (agent_output E run k))).
  - assert ((rc + 1 <? MAX_RETRIES cfg)%Z = true) as Hnext by lia.
    assert (retry_loop cfg E fuel run task branch (rc + 1)
            = Some ((task_succeeded cfg task branch (captured (agent_output E run k))).1,
                    retries task (Z.to_nat (k - (rc + 1)))
                    ++ ev_run_ai task
                       :: (task_succeeded cfg task branch
                             (captured (agent_output E run k))).2)) as Hrec.
    { apply IH; [lia|lia| |done]. intros j Hj. apply Hfail. lia. }
    replace (Z.to_nat (k - rc)) with (S (Z.to_nat (k - (rc + 1)))) by lia.
    destruct (attempt_failed_cases E (agent_output E run rc))
      as [->|[-> [msg ->]]]; [apply Hfail; lia|..];
      rewrite Hnext, Hrec; done.
Qed.

(** What [run_single_task] does when attempt [k] is the first to succeed. *)
Lemma run_single_task_succeeds run k :
  DRY_RUN cfg = false →
  is_empty (get_next_task E run) = false →
  (0 ≤ k < MAX_RETRIES cfg)%Z →
  (∀ j, (0 ≤ j < k)%Z → attempt_succeeded E (agent_output E run j) = false) →
  attempt_succeeded E (agent_output E run k) = true →
  let task := get_next_task E run in
  let branch :=
    if BRANCH_PER_TASK cfg then create_task_branch E task else "" in
  run_single_task cfg E "" run
  = Some ((task_succeeded cfg task branch (captured (agent_output E run k))).1,
          ev_show_progress (count_completed_tasks E run)
                           (count_remaining_tasks E run)
          :: (if BRANCH_PER_TASK cfg then [ev_create_task_branch task] else [])
          ++ retries task (Z.to_nat k)
          ++ ev_run_ai task
             :: (task_succeeded cfg task branch (captured (agent_output E run k))).2).
Proof.
  intros Hdry Htask Hk Hfail Hok. cbv zeta.
  unfold run_single_task. cbn [is_empty negb]. rewrite Htask, Hdry.
  rewrite (retry_loop_succeeds _ run _ _ 0 k);
    [|lia|lia|by intros; apply Hfail|done].
  simpl. by rewrite Z.sub_0_r.
Qed.

(** No retry marks a task complete. *)
Lemma retries_not_mark task n src t :
  ev_mark_task_complete src t ∉ retries task n.
Proof.
  induction n as [|n IH]; simpl; [by apply not_elem_of_nil|].
  rewrite !not_elem_of_cons. by repeat split.
Qed.

Lemma return_to_base_branch_not_mark src t :
  ev_mark_task_complete src t ∉ return_to_base_branch cfg.
Proof.
  unfold return_to_base_branch. destruct (BRANCH_PER_TASK cfg).
  - rewrite not_elem_of_cons. split; [done|apply not_elem_of_nil].
  - apply not_elem_of_nil.
Qed.

(** The marks of the end of the loop body: one, for a GitHub source. *)
Lemma task_succeeded_marks task branch result src t :
  ev_mark_task_complete src t ∈ (task_succeeded cfg task branch result).2 ↔
  PRD_SOURCE cfg = github ∧ src = github ∧ t = task.
Proof.
  unfold task_succeeded, mark_task_complete. simpl.
  rewrite !elem_of_app.
  assert (∀ l : list event,
            l = (if CREATE_PR cfg && negb (is_empty branch)
                 then [ev_create_pull_request branch task] else []) →
            ev_mark_task_complete src t ∉ l) as Hpr.
  { intros l ->. destruct (_ && _); [|apply not_elem_of_nil].
    rewrite not_elem_of_cons. split; [done|apply not_elem_of_nil]. }
  specialize (Hpr _ eq_refl).
  pose proof (return_to_base_branch_not_mark src t) as Hbase.
  destruct (PRD_SOURCE cfg); split.
  - intros [H|[H|H]]; [by apply elem_of_nil in H|done..].
  - by intros [? _].
  - intros [H|[H|H]]; [by apply elem_of_nil in H|done..].
  - by intros [? _].
  - intros [H|[H|H]]; [|done..].
    apply list_elem_of_singleton in H. by injection H as -> ->.
  - intros (_ & -> & ->). left. by apply list_elem_of_singleton.
Qed.

End WithEnv.
End SequentialFacts.

Module SequentialClaims.
Import Text Ralphy RalphyFacts SequentialFacts.

(** C2. When the output of a successful attempt of the sequential
    orchestrator contains [<promise>COMPLETE</promise>], [run_single_task]
    returns 2 and that round of the loop of [main] ends the process with
    exit status 0, whatever [count_remaining_tasks] answers.  The attempt
    is number [k] of the round that follows [iteration]: the attempts
    before it failed, it left an output of which the captured text is not
    empty and in which [check_for_errors] finds no error.  The round makes
    its attempts: [((iteration++))] does not end the script, as it does
    from zero under bash 4.1 and later. *)
Theorem promise_marker_ends_the_run (cfg : config) (E : env)
    (iteration k : Z) (remaining : Z → string) :
  let run := (iteration + 1)%Z in
  let W := with_remaining remaining E in
  arith_errexit E = false ∨ iteration ≠ 0%Z →
  DRY_RUN cfg = false →
  is_empty (get_next_task E run) = false →
  (0 ≤ k < MAX_RETRIES cfg)%Z →
  (∀ j, (0 ≤ j < k)%Z → attempt_succeeded E (agent_output E run j) = false) →
  attempt_succeeded E (agent_output E run k) = true →
  includes (agent_output E run k) promise_marker = true →
  ∃ evs,
    run_single_task cfg W "" run = Some (2%Z, evs) ∧
    main_iteration cfg W iteration
    = Some (Exit 0, evs ++ [ev_show_summary; ev_notify_done]) ∧
    ∀ fuel, main_loop cfg W (S fuel) iteration
            = Some (0%Z, evs ++ [ev_show_summary; ev_notify_done]).
Proof.
  intros run W Hshell Hdry Htask Hk Hfail Hok Hmarker.
  pose proof (run_single_task_succeeds cfg W run k Hdry Htask Hk Hfail Hok)
    as Hrun.
  cbv zeta in Hrun.
  assert ((task_succeeded cfg (get_next_task W run)
             (if BRANCH_PER_TASK cfg
              then create_task_branch W (get_next_task W run) else "")
             (captured (agent_output W run k))).1 = 2%Z) as Hcode.
  { unfold task_succeeded. cbn [fst].
    change (agent_output W run k) with (agent_output E run k).
    by rewrite includes_captured, Hmarker. }
  rewrite Hcode in Hrun. eexists. split; [exact Hrun|].
  assert (arith_goes_on W iteration = true) as Hgo.
  { unfold arith_goes_on.
    change (arith_errexit W) with (arith_errexit E).
    destruct Hshell as [->|Hne]; [done|].
    destruct (Z.eqb_spec iteration 0); [done|]. by rewrite andb_false_r. }
  match goal with |- ?A ∧ _ => assert A as Hmain end.
  { unfold main_iteration. rewrite Hgo. cbn [negb]. fold run.
    rewrite Hrun. reflexivity. }
  split; [exact Hmain|].
  intros fuel. simpl. by rewrite Hmain.
Qed.

(** [promise_marker_ends_the_run] on a first attempt that prints the
    marker while five tasks are reported as remaining, under bash 4.0. *)
Lemma promise_marker_ends_the_run_witness :
  let cfg := Examples.defaults markdown in
  let E := Examples.steady ["add login"; "add logout"] Examples.complete_output in
  (arith_errexit E = false ∨ 0%Z ≠ 0%Z) ∧
  DRY_RUN cfg = false ∧
  is_empty (get_next_task E 1) = false ∧
  attempt_succeeded E (agent_output E 1 0) = true ∧
  includes (agent_output E 1 0) promise_marker = true ∧
  ∃ evs,
    run_single_task cfg (with_remaining (fun _ => "5") E) "" 1 = Some (2%Z, evs) ∧
    main_iteration cfg (with_remaining (fun _ => "5") E) 0
    = Some (Exit 0, evs ++ [ev_show_summary; ev_notify_done]) ∧
    ∀ fuel, main_loop cfg (with_remaining (fun _ => "5") E) (S fuel) 0
            = Some (0%Z, evs ++ [ev_show_summary; ev_notify_done]).
Proof.
  split; [by left|].
  do 4 (split; [reflexivity|]).
  apply (promise_marker_ends_the_run
           (Examples.defaults markdown)
           (Examples.steady ["add login"; "add logout"] Examples.complete_output)
           0 0 (fun _ => "5")); try reflexivity.
  - by left.
  - simpl. lia.
  - intros j Hj. lia.
Defined.

(** Under bash 4.1 and later the sequential loop makes no attempt at
    all: the first [((iteration++))], from zero, ends the script with
    status 1. *)
Example first_round_ends_the_script :
  let E := with_bash (5, 2)%Z
             (Examples.steady ["add login"] Examples.complete_output) in
  main_iteration (Examples.defaults markdown) E 0 = Some (Exit 1, []) ∧
  main_loop (Examples.defaults markdown) E 1 0 = Some (1%Z, []).
Proof. split; reflexivity. Qed.

(** C3, as the code has it.  After a successful attempt the sequential
    orchestrator marks the task complete itself only when the task source
    is GitHub; for a markdown or a YAML source it marks nothing (the prompt
    asks the agent to update the file).  Either way [run_single_task]
    returns 0 or 2. *)
Theorem sequential_marks_github_only (cfg : config) (E : env) (run k : Z) :
  DRY_RUN cfg = false →
  is_empty (get_next_task E run) = false →
  (0 ≤ k < MAX_RETRIES cfg)%Z →
  (∀ j, (0 ≤ j < k)%Z → attempt_succeeded E (agent_output E run j) = false) →
  attempt_succeeded E (agent_output E run k) = true →
  ∃ code evs,
    run_single_task cfg E "" run = Some (code, evs) ∧
    (code = 0 ∨ code = 2)%Z ∧
    (PRD_SOURCE cfg = github →
     ev_mark_task_complete github (get_next_task E run) ∈ evs) ∧
    (PRD_SOURCE cfg ≠ github →
     ∀ src task, ev_mark_task_complete src task ∉ evs).
Proof.
  intros Hdry Htask Hk Hfail Hok.
  pose proof (run_single_task_succeeds cfg E run k Hdry Htask Hk Hfail Hok)
    as Hrun.
  cbv zeta in Hrun. do 2 eexists. split; [exact Hrun|].
  split; [|split].
  - unfold task_succeeded. simpl. destruct (includes _ _); by eauto.
  - intros Hsrc. right. rewrite !elem_of_app. right. right. right.
    by apply task_succeeded_marks.
  - intros Hsrc src task.
    rewrite not_elem_of_cons. split; [done|]. rewrite !not_elem_of_app.
    split; [destruct (BRANCH_PER_TASK cfg);
            [rewrite not_elem_of_cons; split; [done|]|]; apply not_elem_of_nil|].
    split; [apply retries_not_mark|].
    rewrite not_elem_of_cons. split; [done|].
    rewrite task_succeeded_marks. by intros [? _].
Qed.

(** [sequential_marks_github_only] on a GitHub issue whose second attempt
    succeeds. *)
Lemma sequential_marks_github_only_witness :
  let cfg := Examples.defaults github in
  let E := Ref.world ["12:fix the parser"]
             (fun _ k => if (k =? 0)%Z then "" else Examples.result_record)
             (fun _ => true) in
  DRY_RUN cfg = false ∧
  is_empty (get_next_task E 1) = false ∧
  attempt_succeeded E (agent_output E 1 0) = false ∧
  attempt_succeeded E (agent_output E 1 1) = true ∧
  ∃ code evs,
    run_single_task cfg E "" 1 = Some (code, evs) ∧
    (code = 0 ∨ code = 2)%Z ∧
    (PRD_SOURCE cfg = github →
     ev_mark_task_complete github (get_next_task E 1) ∈ evs) ∧
    (PRD_SOURCE cfg ≠ github →
     ∀ src task, ev_mark_task_complete src task ∉ evs).
Proof.
  do 4 (split; [reflexivity|]).
  apply (sequential_marks_github_only
           (Examples.defaults github)
           (Ref.world ["12:fix the parser"]
              (fun _ k => if (k =? 0)%Z then "" else Examples.result_record)
              (fun _ => true))
           1 1); try reflexivity.
  - simpl. lia.
  - intros j Hj. assert (j = 0%Z) as -> by lia. reflexivity.
Defined.

(** C3, as stated, fails: with a markdown source a successful attempt is
    followed by no mark; the orchestrator starts the agent and returns 0. *)
Lemma markdown_task_is_not_marked :
  attempt_succeeded (Examples.steady ["add login"] Examples.result_record)
    Examples.result_record = true ∧
  run_single_task (Examples.defaults markdown)
    (Examples.steady ["add login"] Examples.result_record) "" 1
  = Some (0%Z, [ev_show_progress "0" "1"; ev_run_ai "add login"]).
Proof. split; reflexivity. Qed.

Example github_task_is_marked :
  run_single_task (Examples.defaults github)
    (Examples.steady ["12:fix the parser"] Examples.result_record) "" 1
  = Some (0%Z, [ev_show_progress "0" "1"; ev_run_ai "12:fix the parser";
                ev_mark_task_complete github "12:fix the parser"]).
Proof. reflexivity. Qed.

Example error_record_is_retried :
  run_single_task (Examples.defaults markdown)
    (Examples.steady ["add login"] Examples.error_record) "" 1
  = Some (1%Z, [ev_show_progress "0" "1";
                ev_run_ai "add login"; ev_sleep;
                ev_run_ai "add login"; ev_sleep;
                ev_run_ai "add login"]).
Proof. reflexivity. Qed.

(** An attempt that prints line feeds only is a failed attempt: the
    script tests the text that [$(cat ...)] captured, which has lost
    them. *)
Example line_feeds_are_no_output :
  let E := Examples.steady ["add login"] (String nl (String nl "")) in
  attempt_succeeded E (agent_output E 1 0) = false ∧
  run_single_task (Examples.defaults markdown) E "" 1
  = Some (1%Z, [ev_show_progress "0" "1";
                ev_run_ai "add login"; ev_sleep;
                ev_run_ai "add login"; ev_sleep;
                ev_run_ai "add login"]).
Proof. split; reflexivity. Qed.

End SequentialClaims.
(** *** The parallel batch scheduler *)

Module ParallelFacts.
Import Text Ralphy RalphyFacts.

Lemma last_status_app evs evs' s :
  last_status (evs ++ evs') s = last_status evs' (last_status evs s).
Proof.
  revert s. induction evs as [|e evs IH]; intros s; [done|].
  destruct e; simpl; apply IH.
Qed.

Lemma arith_goes_on_old E v :
  arith_errexit E = false → arith_goes_on E v = true.
Proof. unfold arith_goes_on. by intros ->. Qed.

Lemma arith_goes_on_zero E : arith_goes_on E 0 = negb (arith_errexit E).
Proof. unfold arith_goes_on. by rewrite andb_true_r. Qed.

Section WithEnv.
Variable cfg : config.
Variable E : env.

(** The retry loop of an agent ends, within the fuel [run_parallel_agent]
    gives it. *)
Lemma agent_loop_total fuel task agent_num retry :
  Z.to_nat (MAX_RETRIES cfg - retry) < fuel →
  ∃ e evs, agent_loop cfg E fuel task agent_num retry = Some (e, evs).
Proof.
  revert retry. induction fuel as [|fuel IH]; intros retry Hfuel; [lia|].
  simpl. destruct (retry <? MAX_RETRIES cfg)%Z eqn:Hlt; [|by eauto].
  destruct (negb (agent_exit E agent_num retry =? 0)%Z); [by eauto|].
  destruct (negb (is_empty (captured (agent_output E agent_num retry))));
    [by eauto|].
  destruct (negb (arith_goes_on E retry)); [by eauto|].
  destruct (IH (retry + 1)%Z) as (e & evs & ->); [lia|]. simpl. by eauto.
Qed.

(** The loop writes no status, and starts the agent only for its task. *)
Lemma agent_loop_events fuel task agent_num retry e evs :
  agent_loop cfg E fuel task agent_num retry = Some (e, evs) →
  (∀ s, last_status evs s = s) ∧
  (∀ n t, ev_run_agent n t ∈ evs → n = agent_num ∧ t = task).
Proof.
  assert (∀ n t, ev_run_agent n t ∈ [ev_run_agent agent_num task] →
                 n = agent_num ∧ t = task) as Hone.
  { intros n t. rewrite list_elem_of_singleton. by intros [= -> ->]. }
  revert retry e evs.
  induction fuel as [|fuel IH]; intros retry e evs; [done|]. simpl.
  destruct (retry <? MAX_RETRIES cfg)%Z.
  - destruct (negb (agent_exit E agent_num retry =? 0)%Z);
      [by intros [= <- <-]|].
    destruct (negb (is_empty (captured (agent_output E agent_num retry))));
      [by intros [= <- <-]|].
    destruct (negb (arith_goes_on E retry)); [by intros [= <- <-]|].
    destruct (agent_loop cfg E fuel task agent_num (retry + 1))
      as [[e' evs']|] eqn:Hrec; [|done].
    simpl. intros [= <- <-].
    destruct (IH _ _ _ Hrec) as [Hstatus Hrun]. split; [done|].
    intros n t. rewrite !elem_of_cons.
    intros [[= -> ->]|[?|?]]; [done|done|by apply Hrun].
  - intros [= <- <-]. split; [done|]. intros n t H. by apply elem_of_nil in H.
Qed.

(** With nothing captured on any attempt, the agent command ending with
    status zero, and a shell that goes on after [((retry++))], the loop
    reports failure. *)
Lemma agent_loop_silent fuel task agent_num retry e evs :
  arith_errexit E = false →
  (∀ k, (retry ≤ k < MAX_RETRIES cfg)%Z →
        agent_exit E agent_num k = 0%Z ∧
        is_empty (captured (agent_output E agent_num k)) = true) →
  agent_loop cfg E fuel task agent_num retry = Some (e, evs) →
  e = agent_failure.
Proof.
  intros Hshell. revert retry e evs.
  induction fuel as [|fuel IH]; intros retry e evs Hsilent; [done|].
  simpl. destruct (retry <? MAX_RETRIES cfg)%Z eqn:Hlt.
  - destruct (Hsilent retry ltac:(lia)) as [-> ->].
    rewrite (arith_goes_on_old E retry Hshell). simpl.
    destruct (agent_loop cfg E fuel task agent_num (retry + 1))
      as [[e' evs']|] eqn:Hrec; [|done].
    simpl. intros [= <- <-]. apply (IH (retry + 1)%Z e' evs'); [|done].
    intros k Hk. apply Hsilent. lia.
  - by intros [= <- <-].
Qed.

(** Every agent run ends.  Its status file says "done" or "failed", or
    still "running" when the shell ended the process in the retry loop. *)
Lemma run_parallel_agent_total task agent_num :
  ∃ code evs,
    run_parallel_agent cfg E task agent_num = Some (code, evs) ∧
    ((code = 0%Z ∧ last_status evs waiting = finished) ∨
     (code = 1%Z ∧ last_status evs waiting = failed) ∨
     last_status evs waiting = running).
Proof.
  unfold run_parallel_agent.
  destruct (negb (worktree_created E agent_num)); [by eauto 10|].
  destruct (agent_loop_total (S (Z.to_nat (MAX_RETRIES cfg))) task agent_num 0)
    as (e & evs & Hloop); [lia|].
  rewrite Hloop. simpl.
  destruct (agent_loop_events _ _ _ _ _ _ Hloop) as [Hstatus _].
  destruct e; do 2 eexists; (split; [done|]).
  - left. split; [done|]. simpl. rewrite !last_status_app, Hstatus.
    by destruct (CREATE_PR cfg).
  - right. left. split; [done|]. simpl. by rewrite !last_status_app, Hstatus.
  - right. right. simpl. by rewrite Hstatus.
Qed.

(** A run whose worktree cannot be created ends "failed" at once. *)
Lemma run_parallel_agent_no_worktree task agent_num :
  worktree_created E agent_num = false →
  run_parallel_agent cfg E task agent_num
  = Some (1%Z, [ev_status agent_num setting_up;
                ev_create_agent_worktree agent_num task;
                ev_status agent_num failed]).
Proof. intros H. unfold run_parallel_agent. by rewrite H. Qed.

(** Every slot of a batch gets started and its process ends. *)
Lemma start_agent_total tasks i :
  ∃ sl, start_agent cfg E tasks i = Some sl ∧
        slot_task sl = default "" (tasks !! Z.to_nat i) ∧
        slot_agent_num sl = (i + 1)%Z ∧
        (status_file sl = finished ∨ status_file sl = failed
         ∨ status_file sl = running).
Proof.
  unfold start_agent.
  destruct (run_parallel_agent_total (default "" (tasks !! Z.to_nat i)) (i + 1))
    as (code & evs & -> & Hcases).
  simpl. eexists. split; [done|]. do 2 (split; [done|]).
  unfold status_file. simpl.
  destruct Hcases as [[_ ->]|[[_ ->]| ->]]; by eauto.
Qed.

(** The loop that starts the agents ends. *)
Lemma start_agents_total tasks (indices : list Z) iteration :
  ∃ slots iteration' ended,
    start_agents cfg E tasks indices iteration
    = Some (slots, iteration', ended).
Proof.
  revert iteration.
  induction indices as [|i indices IH]; intros iteration; simpl; [by eauto|].
  destruct (negb (arith_goes_on E iteration)); [by eauto|].
  destruct (start_agent_total tasks i) as (sl & -> & _).
  destruct (IH (iteration + 1)%Z) as (slots & it' & ended & ->).
  simpl. by eauto.
Qed.

(** In a shell that goes on after [((iteration++))] it starts them
    all. *)
Lemma start_agents_all tasks (indices : list Z) iteration :
  arith_errexit E = false →
  ∃ slots,
    start_agents cfg E tasks indices iteration
    = Some (slots, (iteration + Z.of_nat (length indices))%Z, false) ∧
    slot_task <$> slots
    = (fun i => default "" (tasks !! Z.to_nat i)) <$> indices ∧
    slot_agent_num <$> slots = (fun i => (i + 1)%Z) <$> indices.
Proof.
  intros Hshell. revert iteration.
  induction indices as [|i indices IH]; intros iteration; simpl.
  { exists []. by rewrite Z.add_0_r. }
  rewrite (arith_goes_on_old E iteration Hshell). simpl.
  destruct (start_agent_total tasks i) as (sl & -> & Htask & Hnum & _).
  destruct (IH (iteration + 1)%Z) as (slots & -> & Htasks & Hnums).
  simpl. exists (sl :: slots). split; [do 3 f_equal; lia|].
  rewrite !fmap_cons. by rewrite Htask, Htasks, Hnum, Hnums.
Qed.

(** The results loop marks the tasks of the slots that read "done", and
    nothing else. *)
Lemma record_slot_cases sl :
  (status_file sl = finished ∧
   record_slot cfg sl = [ev_mark_task_complete (PRD_SOURCE cfg) (slot_task sl)]) ∨
  (status_file sl ≠ finished ∧ record_slot cfg sl = []).
Proof.
  unfold record_slot.
  destruct (status_file sl); [by right..| |by right].
  left. by destruct (PRD_SOURCE cfg).
Qed.

Lemma results_only_finished slots e :
  e ∈ slots ≫= record_slot cfg →
  ∃ sl, sl ∈ slots ∧ status_file sl = finished ∧
        e = ev_mark_task_complete (PRD_SOURCE cfg) (slot_task sl).
Proof.
  rewrite list_elem_of_bind. intros (sl & He & Hsl). exists sl.
  destruct (record_slot_cases sl) as [[Hst Hrec]|[_ Hrec]]; rewrite Hrec in He.
  - apply list_elem_of_singleton in He. by subst.
  - by apply elem_of_nil in He.
Qed.

(** What the results loop does is the start of what it does when no
    marking command fails. *)
Lemma results_loop_events slots :
  ∃ later, slots ≫= record_slot cfg = (results_loop cfg E slots).1 ++ later.
Proof.
  induction slots as [|sl slots (later & IH)]; [by exists []|].
  rewrite bind_cons. cbn [results_loop].
  destruct (record_slot_cases sl) as [[Hst Hrec]|[Hst Hrec]].
  - rewrite Hst. destruct (mark_status cfg E sl =? 0)%Z.
    + destruct (results_loop cfg E slots) as [evs ended]. simpl in *.
      exists later. by rewrite IH, app_assoc.
    + simpl. by eauto.
  - rewrite Hrec. simpl.
    destruct (status_file sl); [by eauto..|done|by eauto].
Qed.

(** When every marking command succeeds the results loop goes through
    all the slots. *)
Lemma results_loop_all slots :
  (∀ sl, sl ∈ slots → status_file sl = finished → mark_status cfg E sl = 0%Z) →
  results_loop cfg E slots = (slots ≫= record_slot cfg, None).
Proof.
  induction slots as [|sl slots IH]; intros Hmarks; [done|].
  rewrite bind_cons. cbn [results_loop].
  rewrite IH by (intros sl' Hsl'; apply Hmarks; by right).
  destruct (record_slot_cases sl) as [[Hst Hrec]|[Hst Hrec]].
  - rewrite Hst, (Hmarks sl ltac:(by left) Hst). done.
  - rewrite Hrec. by destruct (status_file sl).
Qed.

(** *** Agents whose command ends with status zero, in a shell that goes
    on after an arithmetic command *)

Section Calm.
Hypothesis shell : arith_errexit E = false.
Hypothesis agents : ∀ n k, agent_exit E n k = 0%Z.

Lemma agent_loop_calm fuel task agent_num retry e evs :
  agent_loop cfg E fuel task agent_num retry = Some (e, evs) →
  e = agent_success ∨ e = agent_failure.
Proof using All.
  revert retry e evs.
  induction fuel as [|fuel IH]; intros retry e evs; [done|]. simpl.
  destruct (retry <? MAX_RETRIES cfg)%Z; [|intros [= <- <-]; by right].
  rewrite agents, (arith_goes_on_old E retry shell). simpl.
  destruct (negb (is_empty (captured (agent_output E agent_num retry))));
    [intros [= <- <-]; by left|].
  destruct (agent_loop cfg E fuel task agent_num (retry + 1))
    as [[e' evs']|] eqn:Hrec; [|done].
  simpl. intros [= <- <-]. by apply (IH _ _ _ Hrec).
Qed.

Lemma run_parallel_agent_calm task agent_num :
  ∃ code evs,
    run_parallel_agent cfg E task agent_num = Some (code, evs) ∧
    ((code = 0%Z ∧ last_status evs waiting = finished) ∨
     (code = 1%Z ∧ last_status evs waiting = failed)).
Proof using All.
  unfold run_parallel_agent.
  destruct (negb (worktree_created E agent_num)); [by eauto 10|].
  destruct (agent_loop_total (S (Z.to_nat (MAX_RETRIES cfg))) task agent_num 0)
    as (e & evs & Hloop); [lia|].
  rewrite Hloop. simpl.
  destruct (agent_loop_events _ _ _ _ _ _ Hloop) as [Hstatus _].
  destruct (agent_loop_calm _ _ _ _ _ _ Hloop) as [-> | ->];
    do 2 eexists; (split; [done|]); [left|right];
    (split; [done|]); simpl; rewrite !last_status_app, Hstatus;
    by destruct (CREATE_PR cfg).
Qed.

Lemma start_agent_calm tasks i sl :
  start_agent cfg E tasks i = Some sl → stuck sl = false.
Proof using All.
  unfold start_agent.
  destruct (run_parallel_agent_calm (default "" (tasks !! Z.to_nat i)) (i + 1))
    as (code & evs & -> & Hcases).
  simpl. intros [= <-]. unfold stuck, status_file. simpl.
  by destruct Hcases as [[_ ->]|[_ ->]].
Qed.

Lemma start_agents_calm tasks indices iteration slots iteration' ended :
  start_agents cfg E tasks indices iteration
  = Some (slots, iteration', ended) →
  existsb stuck slots = false.
Proof using All.
  revert iteration slots iteration' ended.
  induction indices as [|i indices IH];
    intros iteration slots iteration' ended; simpl; [by intros [= <- <- <-]|].
  destruct (negb (arith_goes_on E iteration)); [by intros [= <- <- <-]|].
  destruct (start_agent cfg E tasks i) as [sl|] eqn:Hsl; [|done]. simpl.
  destruct (start_agents cfg E tasks indices (iteration + 1))
    as [[[slots' it'] ended']|] eqn:Hrest; [|done].
  simpl. intros [= <- <- <-]. simpl.
  by rewrite (start_agent_calm _ _ _ Hsl), (IH _ _ _ _ Hrest).
Qed.

End Calm.
End WithEnv.

(** *** Slices of the task list *)

Lemma zrange_tasks (tasks : list string) (a b : Z) :
  (0 ≤ a ≤ b)%Z → (b ≤ Z.of_nat (length tasks))%Z →
  (fun i => default "" (tasks !! Z.to_nat i)) <$> zrange a b
  = take (Z.to_nat (b - a)) (drop (Z.to_nat a) tasks).
Proof.
  intros Ha Hb. unfold zrange.
  apply list_eq. intros k. rewrite list_lookup_fmap.
  destruct (decide (k < Z.to_nat (b - a))) as [Hk|Hk].
  - rewrite lookup_seqZ_lt by lia. simpl.
    rewrite lookup_take_lt, lookup_drop by done.
    replace (Z.to_nat (a + Z.of_nat k)) with (Z.to_nat a + k) by lia.
    destruct (tasks !! (Z.to_nat a + k)) eqn:Hl; [done|].
    apply lookup_ge_None in Hl. lia.
  - rewrite lookup_seqZ_ge by lia. simpl. symmetry.
    apply lookup_ge_None. rewrite length_take. lia.
Qed.

End ParallelFacts.

(** *** The partition into batches *)

Module BatchFacts.
Import Ralphy RalphyFacts ParallelFacts.
Local Open Scope Z_scope.

Lemma ceil_div_small n p : 1 ≤ n ≤ p → Spec.ceil_div n p = 1.
Proof.
  intros H. unfold Spec.ceil_div. symmetry.
  apply (Z.div_unique_pos _ _ 1 (n - 1)); lia.
Qed.

Lemma ceil_div_step n p : 1 ≤ p → Spec.ceil_div n p = 1 + Spec.ceil_div (n - p) p.
Proof.
  intros H. unfold Spec.ceil_div.
  replace (n + p - 1) with (n - p + p - 1 + 1 * p) by lia.
  rewrite Z.div_add by lia. lia.
Qed.

Lemma last_size_small n p : 1 ≤ n ≤ p → Spec.last_size n p = n.
Proof.
  intros H. unfold Spec.last_size.
  destruct (decide (n = p)) as [->|Hne].
  - rewrite Z.mod_same by lia. done.
  - rewrite Z.mod_small by lia. destruct (Z.eqb_spec n 0); [lia|done].
Qed.

Lemma last_size_step n p : 1 ≤ p → Spec.last_size n p = Spec.last_size (n - p) p.
Proof.
  intros H. unfold Spec.last_size.
  replace (n - p) with (n + (-1) * p) by lia.
  by rewrite Z.mod_add by lia.
Qed.

Lemma full_batches_step n p : 1 ≤ p → (n - p - 1) / p = (n - 1) / p - 1.
Proof.
  intros H. replace (n - p - 1) with (n - 1 + (-1) * p) by lia.
  rewrite Z.div_add by lia. lia.
Qed.

Section WithEnv.
Variable cfg : config.
Variable E : env.

(** With no task left the loop ends. *)
Lemma batch_loop_done fuel tasks batch_start batch_num iteration :
  (0 < fuel)%nat → Z.of_nat (length tasks) ≤ batch_start →
  batch_loop cfg E fuel tasks batch_start batch_num iteration
  = Some (Returned 0, [], iteration).
Proof.
  intros Hfuel Hs. destruct fuel as [|fuel]; [lia|]. simpl.
  by assert ((batch_start <? Z.of_nat (length tasks)) = false) as -> by lia.
Qed.

(** Under bash 4.1 and later the first round ends the script, before any
    agent is started. *)
Lemma batch_loop_arith fuel tasks batch_start iteration :
  arith_errexit E = true → batch_start < Z.of_nat (length tasks) →
  batch_loop cfg E (S fuel) tasks batch_start 0 iteration
  = Some (Aborted by_arith, [], iteration).
Proof.
  intros Hshell Hs. simpl.
  assert ((batch_start <? Z.of_nat (length tasks)) = true) as -> by lia.
  by rewrite arith_goes_on_zero, Hshell.
Qed.

(** *** Runs that no command ends: a shell that goes on after an
    arithmetic command, agent and marking commands that end with status
    zero *)

Section Calm.
Hypothesis shell : arith_errexit E = false.
Hypothesis agents : ∀ n k, agent_exit E n k = 0.
Hypothesis marks : ∀ sl, mark_status cfg E sl = 0.

(** One round of the loop. *)
Lemma batch_loop_step fuel tasks s batch_num it :
  1 ≤ MAX_PARALLEL cfg → 0 ≤ s < Z.of_nat (length tasks) →
  let e := if s + MAX_PARALLEL cfg >? Z.of_nat (length tasks)
           then Z.of_nat (length tasks) else s + MAX_PARALLEL cfg in
  ∃ slots,
    slot_task <$> slots = take (Z.to_nat (e - s)) (drop (Z.to_nat s) tasks) ∧
    Z.of_nat (length slots) = e - s ∧
    batch_loop cfg E (S fuel) tasks s batch_num it
    = let b := {| batch_slots := slots;
                  batch_results := slots ≫= record_slot cfg |} in
      if (MAX_ITERATIONS cfg >? 0)
         && (it + Z.of_nat (length slots) >=? MAX_ITERATIONS cfg)
      then Some (Returned 0, [b], it + Z.of_nat (length slots))
      else batch_loop cfg E fuel tasks e (batch_num + 1)
                      (it + Z.of_nat (length slots))
           ≫= (fun '(en, bs, it') => Some (en, b :: bs, it')).
Proof using All.
  set (N := Z.of_nat (length tasks)). set (P := MAX_PARALLEL cfg).
  intros HP Hs e. cbn [batch_loop]. fold N P.
  assert ((s <? N) = true) as -> by lia.
  rewrite (arith_goes_on_old E batch_num shell). cbn [negb].
  fold e.
  assert (s < e ≤ N) as He by (subst e; destruct (Z.gtb_spec (s + P) N); lia).
  destruct (start_agents_all cfg E tasks (zrange s e) it shell)
    as (slots & Hstart & Htasks & _).
  pose proof (start_agents_calm cfg E shell agents _ _ _ _ _ _ Hstart)
    as Hcalm.
  rewrite zrange_tasks in Htasks by lia.
  assert (Z.of_nat (length slots) = e - s) as Hlen.
  { rewrite <- (length_fmap slot_task), Htasks, length_take, length_drop.
    subst N. lia. }
  assert (length (zrange s e) = length slots) as Hlen'.
  { unfold zrange. rewrite length_seqZ. lia. }
  exists slots. do 2 (split; [done|]).
  rewrite Hstart. cbn [mbind option_bind]. rewrite Hlen'.
  destruct slots as [|sl slots]; [simpl in Hlen; lia|].
  rewrite shell, Hcalm.
  by rewrite results_loop_all by (intros; apply marks).
Qed.

(** From [batch_start] on, and when the cap on iterations is not reached
    before the last batch, the loop runs the tasks in groups of
    [MAX_PARALLEL], the last group taking what is left. *)
Lemma batch_loop_partition fuel tasks batch_start batch_num iteration :
  1 ≤ MAX_PARALLEL cfg →
  0 ≤ batch_start < Z.of_nat (length tasks) →
  (Z.to_nat (Z.of_nat (length tasks) - batch_start) < fuel)%nat →
  (MAX_ITERATIONS cfg ≤ 0 ∨
   iteration
   + (Z.of_nat (length tasks) - batch_start - 1) / MAX_PARALLEL cfg
     * MAX_PARALLEL cfg
   < MAX_ITERATIONS cfg) →
  ∃ bs iteration',
    batch_loop cfg E fuel tasks batch_start batch_num iteration
    = Some (Returned 0, bs, iteration') ∧
    concat (batch_tasks bs) = drop (Z.to_nat batch_start) tasks ∧
    Z.of_nat (length (batch_tasks bs))
    = Spec.ceil_div (Z.of_nat (length tasks) - batch_start) (MAX_PARALLEL cfg) ∧
    ∃ full last_group,
      batch_tasks bs = full ++ [last_group] ∧
      Forall (fun g => Z.of_nat (length g) = MAX_PARALLEL cfg) full ∧
      Z.of_nat (length last_group)
      = Spec.last_size (Z.of_nat (length tasks) - batch_start) (MAX_PARALLEL cfg).
Proof using All.
  set (N := Z.of_nat (length tasks)). set (P := MAX_PARALLEL cfg).
  set (M := MAX_ITERATIONS cfg).
  intros HP. revert batch_start batch_num iteration.
  induction fuel as [|fuel IH]; intros s bn it Hs Hfuel Hcap; [lia|].
  destruct (batch_loop_step fuel tasks s bn it HP Hs)
    as (slots & Htasks & Hlen & ->).
  fold N P M in Htasks, Hlen |- *.
  set (e := if s + P >? N then N else s + P) in *.
  assert (s < e ≤ N) as He by (subst e; destruct (Z.gtb_spec (s + P) N); lia).
  cbv zeta.
  set (b := {| batch_slots := slots; batch_results := slots ≫= record_slot cfg |}).
  destruct (decide (e = N)) as [HeN|HeN].
  - (* the last batch *)
    assert (N - s ≤ P) as Hsmall
      by (revert HeN; subst e; destruct (Z.gtb_spec (s + P) N); lia).
    assert (slot_task <$> slots = drop (Z.to_nat s) tasks) as Hall.
    { rewrite Htasks. apply take_ge. rewrite length_drop. subst N. lia. }
    assert (∃ it', (if (M >? 0) && (it + Z.of_nat (length slots) >=? M)
                    then Some (Returned 0, [b], it + Z.of_nat (length slots))
                    else batch_loop cfg E fuel tasks e (bn + 1)
                           (it + Z.of_nat (length slots))
                         ≫= (fun '(en, bs, iteration') =>
                               Some (en, b :: bs, iteration')))
                   = Some (Returned 0, [b], it')) as [it' ->].
    { destruct (_ && _); [by eauto|].
      rewrite batch_loop_done by lia. simpl. by eauto. }
    exists [b], it'. split; [done|].
    unfold batch_tasks. simpl. rewrite app_nil_r, Hall.
    split; [done|]. split; [by rewrite ceil_div_small by lia|].
    exists [], (drop (Z.to_nat s) tasks). split; [done|]. split; [done|].
    rewrite last_size_small by lia. rewrite <- Hall, length_fmap. lia.
  - (* a full batch, and more to come *)
    assert (e = s + P) as HeP by (subst e; destruct (Z.gtb_spec (s + P) N); lia).
    assert (1 ≤ (N - s - 1) / P) as Hq by (apply Z.div_le_lower_bound; lia).
    assert ((M >? 0) && (it + Z.of_nat (length slots) >=? M) = false) as ->.
    { destruct Hcap as [Hcap|Hcap]; [by assert ((M >? 0) = false) as -> by lia|].
      assert ((it + Z.of_nat (length slots) >=? M) = false) as ->; [|by destruct (M >? 0)].
      rewrite Z.geb_leb. apply Z.leb_gt. nia. }
    destruct (IH e (bn + 1) (it + Z.of_nat (length slots)))
      as (bs & it' & -> & Hconcat & Hcount & full & last_group & Hsplit & Hfull & Hlast);
      [lia|lia| |].
    { destruct Hcap as [Hcap|Hcap]; [by left|right].
      rewrite HeP, Hlen, HeP.
      replace (N - (s + P) - 1) with (N - s - P - 1) by lia.
      rewrite full_batches_step by lia. nia. }
    simpl. exists (b :: bs), it'. split; [done|].
    unfold batch_tasks in *. rewrite fmap_cons. simpl.
    split; [|split].
    + rewrite Hconcat, Htasks, HeP.
      replace (Z.to_nat (s + P - s)) with (Z.to_nat P) by lia.
      replace (Z.to_nat (s + P)) with (Z.to_nat s + Z.to_nat P)%nat by lia.
      rewrite <- drop_drop. apply take_drop.
    + rewrite (ceil_div_step (N - s) P) by lia.
      replace (N - s - P) with (N - e) by lia. lia.
    + exists ((slot_task <$> slots) :: full), last_group.
      split; [by rewrite Hsplit|]. split.
      * constructor; [|done]. rewrite length_fmap. lia.
      * rewrite Hlast, (last_size_step (N - s) P) by lia.
        f_equal. lia.
Qed.

(** Whatever the cap on iterations, the batches run are the first groups
    of that partition: tasks stay behind only when the cap is reached, and
    then every batch that ran was full. *)
Lemma batch_loop_prefix fuel tasks batch_start batch_num iteration :
  1 ≤ MAX_PARALLEL cfg →
  0 ≤ batch_start ≤ Z.of_nat (length tasks) →
  (Z.to_nat (Z.of_nat (length tasks) - batch_start) < fuel)%nat →
  ∃ bs iteration' rest,
    batch_loop cfg E fuel tasks batch_start batch_num iteration
    = Some (Returned 0, bs, iteration') ∧
    iteration' = iteration + Z.of_nat (length (concat (batch_tasks bs))) ∧
    drop (Z.to_nat batch_start) tasks = concat (batch_tasks bs) ++ rest ∧
    (rest ≠ [] →
     0 < MAX_ITERATIONS cfg ≤ iteration' ∧
     Forall (fun g => Z.of_nat (length g) = MAX_PARALLEL cfg) (batch_tasks bs)).
Proof using All.
  set (N := Z.of_nat (length tasks)). set (P := MAX_PARALLEL cfg).
  set (M := MAX_ITERATIONS cfg).
  intros HP. revert batch_start batch_num iteration.
  induction fuel as [|fuel IH]; intros s bn it Hs Hfuel; [lia|].
  destruct (decide (s = N)) as [->|HsN].
  { rewrite batch_loop_done by (subst N; lia).
    exists [], it, []. split; [done|]. split; [simpl; lia|].
    split; [|done]. simpl. apply drop_ge. subst N. lia. }
  destruct (batch_loop_step fuel tasks s bn it HP ltac:(subst N; lia))
    as (slots & Htasks & Hlen & ->).
  fold N P M in Htasks, Hlen |- *.
  set (e := if s + P >? N then N else s + P) in *.
  assert (s < e ≤ N) as He by (subst e; destruct (Z.gtb_spec (s + P) N); lia).
  cbv zeta.
  assert (drop (Z.to_nat s) tasks
          = (slot_task <$> slots) ++ drop (Z.to_nat e) tasks) as Hsplit.
  { rewrite Htasks.
    replace (Z.to_nat e) with (Z.to_nat s + Z.to_nat (e - s))%nat by lia.
    rewrite <- drop_drop. symmetry. apply take_drop. }
  set (b := {| batch_slots := slots; batch_results := slots ≫= record_slot cfg |}).
  destruct ((M >? 0) && (it + Z.of_nat (length slots) >=? M)) eqn:Hcap.
  - (* the cap is reached *)
    exists [b], (it + Z.of_nat (length slots)), (drop (Z.to_nat e) tasks).
    split; [done|]. unfold batch_tasks. simpl. rewrite app_nil_r, length_fmap.
    split; [done|]. split; [done|]. intros Hrest.
    apply andb_prop in Hcap as [HM Hit]. split; [lia|].
    constructor; [|done]. rewrite length_fmap, Hlen.
    destruct (decide (e = N)) as [->|HeN].
    + exfalso. apply Hrest, drop_ge. subst N. lia.
    + subst e. destruct (Z.gtb_spec (s + P) N); lia.
  - destruct (IH e (bn + 1) (it + Z.of_nat (length slots)))
      as (bs & it' & rest & -> & Hit & Hdrop & Hrest); [lia|lia|].
    simpl. exists (b :: bs), it', rest. split; [done|].
    unfold batch_tasks in *. rewrite fmap_cons. simpl.
    rewrite length_app, length_fmap. split; [lia|].
    split; [by rewrite Hsplit, Hdrop, app_assoc|].
    intros Hne. destruct (Hrest Hne) as [HM Hfull]. split; [done|].
    constructor; [|done]. rewrite length_fmap, Hlen.
    destruct (decide (e = N)) as [HeN|HeN].
    + exfalso. apply Hne.
      assert (drop (Z.to_nat e) tasks = []) as Hnil
        by (apply drop_ge; subst N; lia).
      rewrite Hnil in Hdrop. symmetry in Hdrop.
      by apply app_eq_nil in Hdrop as [_ ?].
    + subst e. destruct (Z.gtb_spec (s + P) N); lia.
Qed.

End Calm.
End WithEnv.
End BatchFacts.
Module ParallelClaims.
Import Text Ralphy RalphyFacts ParallelFacts BatchFacts.

(** C1, as the code has it, for a run that no command ends: the shell
    goes on after an arithmetic command worth zero (bash 4.0), and the
    agent and marking commands end with status zero.  For [N >= 1] pending
    tasks and a concurrency limit [P >= 1], [run_parallel_tasks] returns 0
    after it has run, one after the other, batches that are the leading
    groups of the pending tasks taken [P] at a time: put end to end they
    are a prefix of the pending tasks, in their order; tasks are left out
    only when the cap on iterations is set and reached, and then every
    batch that ran has exactly [P] tasks.  When the cap is not set, or is
    not reached before the last batch is started, there are [ceil(N/P)]
    batches; every batch but the last has exactly [P] tasks, the last has
    [N mod P] tasks ([P] when [P] divides [N]), and the batches put end
    to end are all the pending tasks. *)
Theorem batches_partition (cfg : config) (E : env) (iteration : Z) :
  let tasks := pending_tasks E in
  let N := Z.of_nat (length tasks) in
  let P := MAX_PARALLEL cfg in
  (1 ≤ N)%Z → (1 ≤ P)%Z →
  arith_errexit E = false →
  (∀ n k, agent_exit E n k = 0%Z) →
  (PRD_SOURCE cfg = github ∨ ∀ n, mark_exit E n = 0%Z) →
  ∃ bs iteration' rest,
    run_parallel_tasks cfg E iteration = Some (Returned 0, bs, iteration') ∧
    tasks = concat (batch_tasks bs) ++ rest ∧
    (rest ≠ [] →
     (0 < MAX_ITERATIONS cfg ≤ iteration')%Z ∧
     Forall (fun g => Z.of_nat (length g) = P) (batch_tasks bs)) ∧
    ((MAX_ITERATIONS cfg ≤ 0 ∨
      iteration + (N - 1) / P * P < MAX_ITERATIONS cfg)%Z →
     rest = [] ∧
     Z.of_nat (length (batch_tasks bs)) = Spec.ceil_div N P ∧
     ∃ full last_group,
       batch_tasks bs = full ++ [last_group] ∧
       Forall (fun g => Z.of_nat (length g) = P) full ∧
       Z.of_nat (length last_group) = Spec.last_size N P).
Proof.
  intros tasks N P HN HP Hshell Hagents Hmarks.
  assert (∀ sl, mark_status cfg E sl = 0%Z) as Hmark.
  { intros sl. unfold mark_status.
    destruct Hmarks as [->|Hmarks]; [done|]. by destruct (PRD_SOURCE cfg). }
  unfold run_parallel_tasks. fold tasks.
  assert (Nat.eqb (length tasks) 0 = false) as ->
    by (apply Nat.eqb_neq; subst N; lia).
  destruct (batch_loop_prefix cfg E Hshell Hagents Hmark
              (S (length tasks)) tasks 0 0 iteration)
    as (bs & it' & rest & Hloop & _ & Hprefix & Hrest); [done|lia|lia|].
  rewrite Hloop. exists bs, it', rest. split; [done|].
  split; [done|]. split; [done|]. intros Hcap.
  destruct (batch_loop_partition cfg E Hshell Hagents Hmark
              (S (length tasks)) tasks 0 0 iteration)
    as (bs' & it'' & Hloop' & Hconcat & Hcount & Hgroups).
  - done.
  - subst N. lia.
  - lia.
  - by rewrite Z.sub_0_r.
  - rewrite Hloop in Hloop'. injection Hloop' as <- <-.
    rewrite Z.sub_0_r in *. simpl in *.
    split; [|by split].
    rewrite Hconcat in Hprefix.
    apply (app_inv_head (pending_tasks E)). by rewrite app_nil_r.
Qed.

(** [batches_partition] on seven tasks, at most three at a time, under
    bash 4.0: batches of 3, 3 and 1. *)
Lemma batches_partition_witness :
  let cfg := Examples.defaults markdown in
  let E := Examples.steady Examples.seven_tasks Examples.result_record in
  (1 ≤ Z.of_nat (length (pending_tasks E)))%Z ∧ (1 ≤ MAX_PARALLEL cfg)%Z ∧
  arith_errexit E = false ∧
  (∀ n k, agent_exit E n k = 0%Z) ∧
  (PRD_SOURCE cfg = github ∨ ∀ n, mark_exit E n = 0%Z) ∧
  ∃ bs iteration' rest,
    run_parallel_tasks cfg E 0 = Some (Returned 0, bs, iteration') ∧
    pending_tasks E = concat (batch_tasks bs) ++ rest ∧
    (rest ≠ [] →
     (0 < MAX_ITERATIONS cfg ≤ iteration')%Z ∧
     Forall (fun g => Z.of_nat (length g) = MAX_PARALLEL cfg) (batch_tasks bs)) ∧
    ((MAX_ITERATIONS cfg ≤ 0 ∨
      0 + (Z.of_nat (length (pending_tasks E)) - 1) / MAX_PARALLEL cfg
          * MAX_PARALLEL cfg < MAX_ITERATIONS cfg)%Z →
     rest = [] ∧
     Z.of_nat (length (batch_tasks bs))
     = Spec.ceil_div (Z.of_nat (length (pending_tasks E))) (MAX_PARALLEL cfg) ∧
     ∃ full last_group,
       batch_tasks bs = full ++ [last_group] ∧
       Forall (fun g => Z.of_nat (length g) = MAX_PARALLEL cfg) full ∧
       Z.of_nat (length last_group)
       = Spec.last_size (Z.of_nat (length (pending_tasks E)))
           (MAX_PARALLEL cfg)).
Proof.
  split; [simpl; lia|]. split; [simpl; lia|]. split; [reflexivity|].
  split; [reflexivity|]. split; [by right|].
  apply (batches_partition (Examples.defaults markdown)
           (Examples.steady Examples.seven_tasks Examples.result_record) 0).
  - simpl. lia.
  - simpl. lia.
  - reflexivity.
  - reflexivity.
  - by right.
Defined.

Example seven_tasks_three_at_a_time :
  (fun r : ending * list batch * Z => (r.1.1, batch_tasks r.1.2, r.2))
    <$> run_parallel_tasks (Examples.defaults markdown)
          (Examples.steady Examples.seven_tasks Examples.result_record) 0
  = Some (Returned 0,
          [["task 1"; "task 2"; "task 3"]; ["task 4"; "task 5"; "task 6"];
           ["task 7"]],
          7%Z).
Proof. vm_compute. reflexivity. Qed.

(** With no pending task the function returns 2, which ends the script
    before [exit 0]. *)
Example no_pending_task :
  run_parallel_tasks (Examples.defaults markdown)
    (Examples.steady [] Examples.result_record) 0
  = Some (Returned 2, [], 0%Z) ∧
  exits_zero (Returned 2) = false.
Proof. split; reflexivity. Qed.

(** C1, as stated, fails.  With seven pending tasks, three at a time and
    a cap of two iterations, the scheduler runs one batch, not
    [ceil(7/3) = 3]; four tasks are never started.  And under bash 5.2,
    without a cap, it runs no batch at all: [((batch_num++))], from zero,
    ends the script. *)
Lemma batches_stop_early :
  (fun r : ending * list batch * Z => (r.1.1, batch_tasks r.1.2, r.2))
    <$> run_parallel_tasks
          (Examples.with_max_iterations 2 (Examples.defaults markdown))
          (Examples.steady Examples.seven_tasks Examples.result_record) 0
  = Some (Returned 0, [["task 1"; "task 2"; "task 3"]], 3%Z) ∧
  run_parallel_tasks (Examples.defaults markdown)
    (with_bash (5, 2)%Z
       (Examples.steady Examples.seven_tasks Examples.result_record)) 0
  = Some (Aborted by_arith, [], 0%Z) ∧
  Spec.ceil_div 7 3 = 3%Z.
Proof. vm_compute. repeat split; reflexivity. Qed.

(** A marking command that fails ends the script in the results loop, and
    an agent command that fails leaves a status file at "running", over
    which the polling loop goes on for ever. *)
Example commands_that_fail :
  let cfg := Examples.defaults markdown in
  let E := Examples.steady Examples.seven_tasks Examples.result_record in
  (fun r : ending * list batch * Z =>
     (r.1.1, batch_tasks r.1.2, batch_results <$> r.1.2))
    <$> run_parallel_tasks cfg
          (with_mark_exit (fun n => if (n =? 2)%Z then 1 else 0)%Z E) 0
  = Some (Aborted (by_status 1), [["task 1"; "task 2"; "task 3"]],
          [[ev_mark_task_complete markdown "task 1";
            ev_mark_task_complete markdown "task 2"]]) ∧
  run_parallel_tasks cfg
    (with_agent_exit (fun n _ => if (n =? 2)%Z then 1 else 0)%Z E) 0
  = None.
Proof. vm_compute. split; reflexivity. Qed.


(** C8. When the worktree directory of a parallel agent does not exist
    after [create_agent_worktree], the run writes the status "failed" and
    returns 1 without ever starting the agent process. *)
Theorem no_worktree_no_agent (cfg : config) (E : env)
    (task_name : string) (agent_num : Z) :
  worktree_created E agent_num = false →
  ∃ evs,
    run_parallel_agent cfg E task_name agent_num = Some (1%Z, evs) ∧
    last_status evs waiting = failed ∧
    ∀ n t, ev_run_agent n t ∉ evs.
Proof.
  intros H. rewrite (run_parallel_agent_no_worktree cfg E _ _ H).
  eexists. split; [done|]. split; [done|].
  intros n t. rewrite !not_elem_of_cons. repeat split; try done.
  apply not_elem_of_nil.
Qed.

(** [no_worktree_no_agent] on an agent whose worktree cannot be created. *)
Lemma no_worktree_no_agent_witness :
  let cfg := Examples.defaults markdown in
  let E := Examples.no_worktree ["task 1"; "task 2"] [2%Z] in
  worktree_created E 2 = false ∧
  ∃ evs,
    run_parallel_agent cfg E "task 2" 2 = Some (1%Z, evs) ∧
    last_status evs waiting = failed ∧
    ∀ n t, ev_run_agent n t ∉ evs.
Proof.
  split; [reflexivity|].
  exact (no_worktree_no_agent (Examples.defaults markdown)
           (Examples.no_worktree ["task 1"; "task 2"] [2%Z]) "task 2" 2 eq_refl).
Defined.

Example worktree_failure_events :
  run_parallel_agent (Examples.defaults markdown)
    (Examples.no_worktree ["task 1"; "task 2"] [2%Z]) "task 2" 2
  = Some (1%Z, [ev_status 2 setting_up; ev_create_agent_worktree 2 "task 2";
                ev_status 2 failed]).
Proof. reflexivity. Qed.

End ParallelClaims.

Module MarkClaims.
Import Text Ralphy RalphyFacts.

(** C9 fails on the shell's [mark_task_complete_markdown].  The escaping
    step puts a backslash before the bar of the title [a|b], which makes
    it the alternation of a basic regular expression: the first call
    rewrites the line of the task to one that ends in [|b], and the
    second call, which finds [b] in that line, rewrites the file
    again. *)
Lemma marking_twice_differs :
  sed_escape "a|b" = "a\|b" ∧
  mark_task_complete_markdown "a|b" ["- [ ] a|b"]
  = sed_done ["- [x] a|b|b"] ∧
  mark_task_complete_markdown "a|b" ["- [x] a|b|b"]
  = sed_done ["- [x] a|- [x] a|b|b"].
Proof. repeat split; reflexivity. Qed.

(** For a plain title the second call changes nothing. *)
Example marking_a_plain_title_twice :
  mark_task_complete_markdown "add login" ["- [ ] add login"; "- [ ] add logout"]
  = sed_done ["- [x] add login"; "- [ ] add logout"] ∧
  mark_task_complete_markdown "add login" ["- [x] add login"; "- [ ] add logout"]
  = sed_done ["- [x] add login"; "- [ ] add logout"].
Proof. split; reflexivity. Qed.

End MarkClaims.

(** ** The lines of a streamed output *)

Module StreamingFacts.
Import Text JS Streaming TextFacts.

Lemma last_cons_cons {A} (x y : A) l d : List.last (x :: y :: l) d = List.last (y :: l) d.
Proof. done. Qed.

Lemma removelast_cons_cons {A} (x y : A) l :
  removelast (x :: y :: l) = x :: removelast (y :: l).
Proof. done. Qed.

(** The lines of a text that goes on: the last line so far goes on too. *)
Lemma split_nl_app s t :
  split_nl (s +:+ t)
  = removelast (split_nl s) ++ split_nl (List.last (split_nl s) "" +:+ t).
Proof.
  induction s as [|a s IH]; [done|].
  rewrite append_cons. cbn [split_nl].
  destruct (split_nl_cons s) as (l & ls & Hs).
  destruct (split_nl_cons (s +:+ t)) as (l' & ls' & Hst).
  rewrite Hs in IH |- *. rewrite Hst in IH |- *.
  destruct (Ascii.eqb_spec a nl) as [->|Hne].
  - rewrite last_cons_cons, removelast_cons_cons. simpl. by rewrite IH.
  - destruct ls as [|l2 ls].
    + simpl in IH |- *. rewrite <- IH.
      destruct (Ascii.eqb_spec a nl) as [|_]; [done|]. done.
    + rewrite last_cons_cons, removelast_cons_cons.
      rewrite last_cons_cons, removelast_cons_cons in IH.
      simpl in IH. injection IH as -> ->. done.
Qed.

Lemma append_nil_r s : s +:+ "" = s.
Proof. induction s as [|a s IH]; [done|]. by rewrite append_cons, IH. Qed.

Lemma append_assoc s t u : (s +:+ t) +:+ u = s +:+ (t +:+ u).
Proof. induction s as [|a s IH]; [done|]. by rewrite !append_cons, IH. Qed.

Lemma concat_cons p ps :
  String.concat "" (p :: ps) = p +:+ String.concat "" ps.
Proof. destruct ps; simpl; [by rewrite append_nil_r|done]. Qed.

Lemma removelast_app_cons {A} (l : list A) x l' :
  removelast (l ++ x :: l') = l ++ removelast (x :: l').
Proof.
  induction l as [|y l IH]; [done|].
  destruct l; simpl in *; by rewrite ?IH.
Qed.

Lemma last_app_cons {A} (l : list A) x l' d :
  List.last (l ++ x :: l') d = List.last (x :: l') d.
Proof.
  induction l as [|y l IH]; [done|].
  destruct l; simpl in *; by rewrite ?IH.
Qed.

Lemma last_one_line s : one_line (List.last (split_nl s) "") = true.
Proof.
  pose proof (split_one_line s) as Hall.
  destruct (split_nl_cons s) as (l & ls & Hs). rewrite Hs in Hall |- *.
  clear Hs. revert l Hall. induction ls as [|l' ls IH]; intros l Hall.
  - by inversion_clear Hall.
  - rewrite last_cons_cons. apply IH. by inversion_clear Hall.
Qed.

Section WithRuntime.
Context `{RT : Runtime}.

(** The loop keeps in the buffer the last line of what it has read, and
    hands over the lines before it that are not blank. *)
Lemma read_loop_lines buffer pieces :
  one_line buffer = true →
  read_loop buffer pieces
  = (List.last (split_nl (buffer +:+ String.concat "" pieces)) "",
     List.filter not_blank
       (removelast (split_nl (buffer +:+ String.concat "" pieces)))).
Proof.
  revert buffer. induction pieces as [|piece rest IH]; intros buffer Hb.
  - simpl. rewrite append_nil_r. by rewrite (split_one_line_id _ Hb).
  - cbn [read_loop]. unfold read_chunk.
    rewrite IH by apply last_one_line.
    rewrite concat_cons, <- append_assoc.
    rewrite (split_nl_app (buffer +:+ piece) (String.concat "" rest)).
    destruct (split_nl_cons
                (List.last (split_nl (buffer +:+ piece)) ""
                 +:+ String.concat "" rest)) as (l & ls & ->).
    by rewrite last_app_cons, removelast_app_cons, List.filter_app.
Qed.

End WithRuntime.
End StreamingFacts.

Module StreamingProperties.
Import Text JS Streaming TextFacts StreamingFacts.

(** [processStdout] hands to [onLine] the lines of the whole standard
    output that are not blank, in their order, however the output is cut
    into chunks: a line that arrives in several chunks is handed over
    once, whole, and a last line without line feed is handed over too. *)
Theorem processStdout_lines `{RT : Runtime} (pieces : list string) :
  processStdout pieces
  = List.filter not_blank (split_nl (String.concat "" pieces)).
Proof.
  unfold processStdout. rewrite read_loop_lines by done.
  change ("" +:+ String.concat "" pieces) with (String.concat "" pieces).
  destruct (split_nl_cons (String.concat "" pieces)) as (l & ls & ->).
  assert (List.filter not_blank (l :: ls)
          = List.filter not_blank (removelast (l :: ls))
            ++ List.filter not_blank [List.last (l :: ls) ""]) as ->.
  { rewrite <- List.filter_app. by rewrite <- app_removelast_last. }
  simpl. by destruct (not_blank (List.last (l :: ls) "")).
Qed.

Example processStdout_split_line :
  processStdout ["first li"; "ne" +:+ String nl "  " +:+ String nl "sec";
                 "ond" +:+ String nl "third"]
  = ["first line"; "second"; "third"].
Proof. reflexivity. Qed.

End StreamingProperties.


(** ** Which record decides the result of the parsers *)

Module RecordFacts.
Import Text JS Base Records TextFacts BaseFacts.

Section WithRuntime.
Context `{RT : Runtime}.

(** A line of the output is one line, and is not empty. *)
Lemma nonempty_lines_elem output line :
  line ∈ nonempty_lines output → one_line line = true ∧ is_empty line = false.
Proof.
  unfold nonempty_lines.
  intros [Hin Hne]%list_elem_of_In%List.filter_In. split.
  - pose proof (split_one_line output) as Hall.
    rewrite Forall_forall in Hall. apply Hall. by apply list_elem_of_In.
  - by destruct (is_empty line).
Qed.

Lemma nonempty_lines_single line :
  one_line line = true → is_empty line = false → nonempty_lines line = [line].
Proof.
  intros H1 H2. unfold nonempty_lines. rewrite (split_one_line_id _ H1).
  simpl. by rewrite H2.
Qed.

(** A line that is no record of type [result] changes nothing. *)
Lemma result_line_other line a :
  has_type "result" line = false → ∃ r, result_line line a = (a, r).
Proof.
  unfold has_type, result_line.
  destruct (JSON_parse line) as [parsed|]; [|by eauto].
  destruct (get parsed "type") as [ty|]; [|by eauto].
  intros ->. by eauto.
Qed.

(** A record of type [result] sets the three variables, whatever they
    were. *)
Lemma result_line_record line a a0 :
  has_type "result" line = true →
  (result_line line a).2 = Ok tt ∧ result_line line a = result_line line a0.
Proof.
  unfold has_type, result_line.
  destruct (JSON_parse line) as [parsed|]; [|done].
  destruct (get parsed "type") as [ty|] eqn:Hty; [|done].
  intros ->.
  assert (∀ k, ∃ v, get parsed k = Ok v) as Hget.
  { intros k. destruct parsed; simpl in *; by eauto. }
  destruct (Hget "result") as [r ->].
  destruct (Hget "usage") as [u ->]. simpl.
  assert (∀ k, ∃ v, opt_get u k = Ok v) as Hopt.
  { intros k. unfold opt_get. destruct u; simpl; by eauto. }
  destruct (Hopt "input_tokens") as [it ->].
  destruct (Hopt "output_tokens") as [ot ->]. done.
Qed.

Lemma result_loop_others lines a :
  Forall (fun l => has_type "result" l = false) lines →
  result_loop lines a = (a, Ok tt).
Proof.
  intros Hall. induction Hall as [|l lines Hl _ IH]; [done|]. simpl.
  destruct (result_line_other l a Hl) as [r ->].
  by destruct r as [[]|].
Qed.

Lemma result_loop_app before after a :
  result_loop (before ++ after) a
  = result_loop after (result_loop before a).1.
Proof.
  revert a. induction before as [|l before IH]; intros a; [done|]. simpl.
  destruct (result_line l a) as [a' [[]|]]; simpl; apply IH.
Qed.

(** The loop of [parseStreamJsonResult] ends with what the last record of
    type [result] sets. *)
Lemma result_loop_last before line after a a0 :
  has_type "result" line = true →
  Forall (fun l => has_type "result" l = false) after →
  result_loop (before ++ line :: after) a = result_loop [line] a0.
Proof.
  intros Hline Hafter. rewrite result_loop_app. simpl.
  destruct (result_line_record line (result_loop before a).1 a0 Hline)
    as [Hok ->].
  destruct (result_line_record line a0 a0 Hline) as [Hok0 _].
  destruct (result_line line a0) as [a' r]. simpl in *. subst r. simpl.
  by apply result_loop_others.
Qed.

(** A record of type [error] makes [checkForErrors] return, with a value
    that is truthy. *)
Lemma error_line_record line :
  has_type "error" line = true →
  ∃ v, error_line line = Ok (Some v) ∧ truthy v = true.
Proof.
  unfold has_type, error_line.
  destruct (JSON_parse line) as [parsed|]; [|done]. simpl.
  destruct (get parsed "type") as [ty|] eqn:Hty; [|done]. simpl.
  intros ->.
  assert (∀ k, ∃ v, get parsed k = Ok v) as Hget.
  { intros k. destruct parsed; simpl in *; by eauto. }
  destruct (Hget "error") as [e ->]. simpl.
  assert (∃ m, opt_get e "message" = Ok m) as [m ->].
  { unfold opt_get. destruct e; simpl; by eauto. }
  simpl. destruct (truthy m) eqn:Hm; [by eauto|].
  destruct (Hget "message") as [m' ->]. simpl.
  destruct (truthy m') eqn:Hm'; by eauto.
Qed.

Lemma error_line_other line :
  has_type "error" line = false →
  try_catch (error_line line) (Ok None) = Ok None.
Proof.
  unfold has_type, error_line.
  destruct (JSON_parse line) as [parsed|]; [|done]. simpl.
  destruct (get parsed "type") as [ty|]; [|done]. simpl.
  by intros ->.
Qed.

Lemma error_loop_others lines :
  Forall (fun l => has_type "error" l = false) lines →
  error_loop lines = Ok None.
Proof.
  intros Hall. induction Hall as [|l lines Hl _ IH]; [done|]. simpl.
  by rewrite (error_line_other l Hl).
Qed.

Lemma error_loop_first before line after :
  Forall (fun l => has_type "error" l = false) before →
  has_type "error" line = true →
  error_loop (before ++ line :: after) = error_loop [line].
Proof.
  intros Hbefore Hline.
  induction Hbefore as [|l before Hl _ IH]; simpl.
  - destruct (error_line_record line Hline) as (v & -> & _). done.
  - by rewrite (error_line_other l Hl).
Qed.

(** The loop of [checkForErrors] finds nothing exactly when no line is a
    record of type [error]. *)
Lemma error_loop_none lines :
  error_loop lines = Ok None ↔
  Forall (fun l => has_type "error" l = false) lines.
Proof.
  split; [|apply error_loop_others].
  induction lines as [|l lines IH]; [by constructor|]. simpl.
  destruct (has_type "error" l) eqn:Hl.
  - destruct (error_line_record l Hl) as (v & -> & _). done.
  - rewrite (error_line_other l Hl). intros H. constructor; by auto.
Qed.

Lemma error_loop_truthy lines v :
  error_loop lines = Ok (Some v) → truthy v = true.
Proof.
  induction lines as [|l lines IH]; [done|]. simpl.
  destruct (has_type "error" l) eqn:Hl.
  - destruct (error_line_record l Hl) as (v' & -> & Hv). simpl.
    by intros [= <-].
  - by rewrite (error_line_other l Hl).
Qed.

End WithRuntime.
End RecordFacts.

Module BaseProperties.
Import Text JS Base Records TextFacts BaseFacts RecordFacts.

(** [parseStreamJsonResult] returns what the last record of type [result]
    alone gives: the response and the token counts of earlier records are
    dropped, not added up, and lines after it that are no such record
    change nothing. *)
Theorem last_result_record_decides `{RT : Runtime}
    (output : string) (before : list string) (line : string)
    (after : list string) :
  nonempty_lines output = before ++ line :: after →
  has_type "result" line = true →
  Forall (fun l => has_type "result" l = false) after →
  parseStreamJsonResult output = parseStreamJsonResult line.
Proof.
  intros Hlines Hline Hafter.
  assert (line ∈ nonempty_lines output) as Hin.
  { rewrite Hlines. apply elem_of_app. right. by left. }
  apply nonempty_lines_elem in Hin as [H1 H2].
  unfold parseStreamJsonResult.
  rewrite Hlines, (nonempty_lines_single line H1 H2).
  by rewrite (result_loop_last before line after _
                (mk_acc (VStr "") (VNum (Fin 0 0)) (VNum (Fin 0 0)))).
Qed.

(** [last_result_record_decides] on an output with two result records. *)
Lemma last_result_record_decides_witness :
  nonempty_lines MoreExamples.two_results
  = [Examples.result_record; "Working"]
    ++ MoreExamples.second_result_record :: ["{ not json"] ∧
  has_type "result" MoreExamples.second_result_record = true ∧
  Forall (fun l => has_type "result" l = false) ["{ not json"] ∧
  parseStreamJsonResult MoreExamples.two_results
  = parseStreamJsonResult MoreExamples.second_result_record.
Proof.
  assert (Forall (fun l => has_type "result" l = false) ["{ not json"])
    as Hafter by (repeat constructor).
  split; [reflexivity|]. split; [reflexivity|]. split; [exact Hafter|].
  exact (last_result_record_decides MoreExamples.two_results
           [Examples.result_record; "Working"]
           MoreExamples.second_result_record ["{ not json"]
           eq_refl eq_refl Hafter).
Defined.

Example parseStreamJsonResult_two_results :
  parseStreamJsonResult MoreExamples.two_results
  = Ok (mk_acc (VStr "Y") (VNum (Fin 1 0)) (VNum (Fin 2 0))).
Proof. reflexivity. Qed.

(** [checkForErrors] returns [null] exactly when no line of the output is
    a record of type [error]; what it returns otherwise is truthy, so never
    an empty message. *)
Theorem checkForErrors_null_iff `{RT : Runtime} (output : string) :
  (checkForErrors output = Ok VNull ↔
   Forall (fun l => has_type "error" l = false) (nonempty_lines output)) ∧
  (∀ v, checkForErrors output = Ok v → v = VNull ∨ truthy v = true).
Proof.
  unfold checkForErrors.
  destruct (error_loop (nonempty_lines output)) as [[v|]|] eqn:Hloop; simpl.
  - pose proof (error_loop_truthy _ _ Hloop) as Hv. split.
    + split.
      * intros [= ->]. done.
      * intros Hnone%error_loop_none. by rewrite Hnone in Hloop.
    + intros v' [= <-]. by right.
  - split; [|intros v [= <-]; by left].
    split; [|done]. intros _. by apply error_loop_none.
  - destruct (error_loop_ok (nonempty_lines output)) as [r Hr].
    by rewrite Hr in Hloop.
Qed.

(** [checkForErrors] returns what the first record of type [error] alone
    gives, whatever follows it. *)
Theorem first_error_record_decides `{RT : Runtime}
    (output : string) (before : list string) (line : string)
    (after : list string) :
  nonempty_lines output = before ++ line :: after →
  Forall (fun l => has_type "error" l = false) before →
  has_type "error" line = true →
  checkForErrors output = checkForErrors line ∧
  ∃ v, checkForErrors output = Ok v ∧ truthy v = true.
Proof.
  intros Hlines Hbefore Hline.
  assert (line ∈ nonempty_lines output) as Hin.
  { rewrite Hlines. apply elem_of_app. right. by left. }
  apply nonempty_lines_elem in Hin as [H1 H2].
  unfold checkForErrors.
  rewrite Hlines, (nonempty_lines_single line H1 H2).
  rewrite (error_loop_first before line after Hbefore Hline).
  split; [done|]. simpl.
  destruct (error_line_record line Hline) as (v & -> & Hv). simpl. by eauto.
Qed.

(** [first_error_record_decides] on an output whose first error record has
    an empty message. *)
Lemma first_error_record_decides_witness :
  nonempty_lines MoreExamples.two_errors
  = [Examples.result_record]
    ++ MoreExamples.bare_error_record :: [Examples.error_record] ∧
  Forall (fun l => has_type "error" l = false) [Examples.result_record] ∧
  has_type "error" MoreExamples.bare_error_record = true ∧
  checkForErrors MoreExamples.two_errors
  = checkForErrors MoreExamples.bare_error_record ∧
  ∃ v, checkForErrors MoreExamples.two_errors = Ok v ∧ truthy v = true.
Proof.
  assert (Forall (fun l => has_type "error" l = false)
            [Examples.result_record]) as Hbefore by (repeat constructor).
  split; [reflexivity|]. split; [exact Hbefore|]. split; [reflexivity|].
  exact (first_error_record_decides MoreExamples.two_errors
           [Examples.result_record] MoreExamples.bare_error_record
           [Examples.error_record] eq_refl Hbefore eq_refl).
Defined.

Example checkForErrors_two_errors :
  checkForErrors MoreExamples.two_errors = Ok (VStr "Unknown error").
Proof. reflexivity. Qed.

End BaseProperties.

(** ** More on the sequential orchestrator *)

Module SequentialMoreFacts.
Import Text Ralphy Trace RalphyFacts SequentialFacts.

Lemma count_app kind evs evs' :
  count kind (evs ++ evs') = count kind evs + count kind evs'.
Proof. unfold count. by rewrite List.filter_app, length_app. Qed.

Lemma count_cons kind e evs :
  count kind (e :: evs) = (if kind e then 1 else 0) + count kind evs.
Proof. unfold count. simpl. by destruct (kind e). Qed.

Section WithEnv.
Variable cfg : config.
Variable E : env.

Lemma count_return_to_base_branch kind :
  kind ev_return_to_base_branch = false →
  count kind (return_to_base_branch cfg) = 0.
Proof.
  intros H. unfold return_to_base_branch.
  destruct (BRANCH_PER_TASK cfg); [|done]. by rewrite count_cons, H.
Qed.

(** The end of the loop body starts no agent and does not sleep. *)
Lemma count_task_succeeded kind task branch result :
  kind ev_return_to_base_branch = false →
  (∀ b t, kind (ev_create_pull_request b t) = false) →
  (∀ s t, kind (ev_mark_task_complete s t) = false) →
  count kind (task_succeeded cfg task branch result).2 = 0.
Proof.
  intros Hbase Hpr Hmark. unfold task_succeeded, mark_task_complete. simpl.
  rewrite !count_app, (count_return_to_base_branch _ Hbase).
  destruct (CREATE_PR cfg && negb (is_empty branch));
    destruct (PRD_SOURCE cfg); by rewrite ?count_cons, ?Hpr, ?Hmark.
Qed.

(** The agent is started at most [MAX_RETRIES - retry_count] times, with
    a pause between two starts and nowhere else. *)
Lemma retry_loop_attempts fuel run task branch retry_count :
  Z.to_nat (MAX_RETRIES cfg - retry_count) < fuel →
  ∃ code evs,
    retry_loop cfg E fuel run task branch retry_count = Some (code, evs) ∧
    (Z.of_nat (count is_run_ai evs)
     ≤ Z.max 0 (MAX_RETRIES cfg - retry_count))%Z ∧
    ((retry_count < MAX_RETRIES cfg)%Z → 1 ≤ count is_run_ai evs) ∧
    count is_sleep evs = count is_run_ai evs - 1.
Proof.
  revert retry_count.
  induction fuel as [|fuel IH]; intros rc Hfuel; [lia|]. cbn [retry_loop].
  destruct (rc <? MAX_RETRIES cfg)%Z eqn:Hlt.
  2:{ do 2 eexists. split; [done|].
      rewrite !count_return_to_base_branch by done. simpl. lia. }
  assert (∃ code evs,
            (if (rc + 1 <? MAX_RETRIES cfg)%Z
             then retry_loop cfg E fuel run task branch (rc + 1)
                  ≫= (fun '(code, evs) =>
                        Some (code, ev_run_ai task :: ev_sleep :: evs))
             else Some (1%Z, ev_run_ai task :: return_to_base_branch cfg))
            = Some (code, evs) ∧
            (Z.of_nat (count is_run_ai evs)
             ≤ Z.max 0 (MAX_RETRIES cfg - rc))%Z ∧
            ((rc < MAX_RETRIES cfg)%Z → 1 ≤ count is_run_ai evs) ∧
            count is_sleep evs = count is_run_ai evs - 1) as Hfailed.
  { destruct (rc + 1 <? MAX_RETRIES cfg)%Z eqn:Hnext.
    - destruct (IH (rc + 1)%Z) as (code & evs & -> & Hruns & Hone & Hsleeps);
        [lia|].
      simpl. do 2 eexists. split; [done|].
      rewrite !count_cons. simpl. specialize (Hone ltac:(lia)). lia.
    - do 2 eexists. split; [done|].
      rewrite !count_cons, !count_return_to_base_branch by done. simpl. lia. }
  destruct (is_empty (captured (agent_output E run rc))); [done|].
  destruct (check_for_errors E (captured (agent_output E run rc))); [done|].
  destruct (task_succeeded cfg task branch (captured (agent_output E run rc)))
    as [code evs] eqn:Hend.
  exists code, (ev_run_ai task :: evs). split; [done|]. rewrite !count_cons.
  pose proof (count_task_succeeded is_run_ai task branch
                (captured (agent_output E run rc))) as Hr.
  pose proof (count_task_succeeded is_sleep task branch
                (captured (agent_output E run rc))) as Hs.
  rewrite Hend in Hr, Hs. cbn [snd] in Hr, Hs.
  rewrite Hr, Hs by done. simpl. lia.
Qed.

(** The retry loop gives nothing but agent starts, pauses, and the events
    of its two ends. *)
Lemma retry_loop_other_events kind fuel run task branch retry_count code evs :
  (∀ t, kind (ev_run_ai t) = false) → kind ev_sleep = false →
  kind ev_return_to_base_branch = false →
  (∀ b t, kind (ev_create_pull_request b t) = false) →
  (∀ s t, kind (ev_mark_task_complete s t) = false) →
  retry_loop cfg E fuel run task branch retry_count = Some (code, evs) →
  count kind evs = 0.
Proof.
  intros Hrun Hsleep Hbase Hpr Hmark. revert retry_count code evs.
  induction fuel as [|fuel IH]; intros rc code evs; [done|].
  cbn [retry_loop].
  destruct (rc <? MAX_RETRIES cfg)%Z.
  2:{ intros [= <- <-]. by apply count_return_to_base_branch. }
  assert ((if (rc + 1 <? MAX_RETRIES cfg)%Z
           then retry_loop cfg E fuel run task branch (rc + 1)
                ≫= (fun '(code, evs) =>
                      Some (code, ev_run_ai task :: ev_sleep :: evs))
           else Some (1%Z, ev_run_ai task :: return_to_base_branch cfg))
          = Some (code, evs) → count kind evs = 0) as Hfailed.
  { destruct (rc + 1 <? MAX_RETRIES cfg)%Z.
    - destruct (retry_loop cfg E fuel run task branch (rc + 1))
        as [[code' evs']|] eqn:Hrec; [|done].
      simpl. intros [= <- <-]. rewrite !count_cons, Hrun, Hsleep.
      by rewrite (IH _ _ _ Hrec).
    - intros [= <- <-].
      by rewrite count_cons, Hrun, count_return_to_base_branch. }
  destruct (is_empty (captured (agent_output E run rc))); [done|].
  destruct (check_for_errors E (captured (agent_output E run rc))); [done|].
  destruct (task_succeeded cfg task branch (captured (agent_output E run rc)))
    as [code' evs'] eqn:Hend.
  intros [= <- <-]. rewrite count_cons, Hrun.
  pose proof (count_task_succeeded kind task branch
                (captured (agent_output E run rc))) as Hk.
  rewrite Hend in Hk. by apply Hk.
Qed.

(** The return code of the retry loop: 1, or the code of the end of the
    loop body for some attempt. *)
Lemma retry_loop_code fuel run task branch retry_count code evs :
  retry_loop cfg E fuel run task branch retry_count = Some (code, evs) →
  code = 1%Z ∨
  ∃ k, code = (task_succeeded cfg task branch
                 (captured (agent_output E run k))).1.
Proof.
  revert retry_count code evs.
  induction fuel as [|fuel IH]; intros rc code evs; [done|].
  cbn [retry_loop].
  destruct (rc <? MAX_RETRIES cfg)%Z; [|intros [= <- <-]; by left].
  assert ((if (rc + 1 <? MAX_RETRIES cfg)%Z
           then retry_loop cfg E fuel run task branch (rc + 1)
                ≫= (fun '(code, evs) =>
                      Some (code, ev_run_ai task :: ev_sleep :: evs))
           else Some (1%Z, ev_run_ai task :: return_to_base_branch cfg))
          = Some (code, evs) →
          code = 1%Z ∨
          ∃ k, code = (task_succeeded cfg task branch
                         (captured (agent_output E run k))).1) as Hfailed.
  { destruct (rc + 1 <? MAX_RETRIES cfg)%Z; [|intros [= <- <-]; by left].
    destruct (retry_loop cfg E fuel run task branch (rc + 1))
      as [[code' evs']|] eqn:Hrec; [|done].
    simpl. intros [= <- <-]. by apply (IH _ _ _ Hrec). }
  destruct (is_empty (captured (agent_output E run rc))); [done|].
  destruct (check_for_errors E (captured (agent_output E run rc))); [done|].
  destruct (task_succeeded cfg task branch (captured (agent_output E run rc)))
    as [code' evs'] eqn:Hend.
  intros [= <- <-]. right. exists rc. by rewrite Hend.
Qed.

(** Every call of [run_single_task] prints the progress line once. *)
Lemma run_single_task_progress task_name task_num code evs :
  run_single_task cfg E task_name task_num = Some (code, evs) →
  count is_show_progress evs = 1.
Proof.
  unfold run_single_task.
  destruct (is_empty _); [by intros [= <- <-]|].
  destruct (DRY_RUN cfg).
  - intros [= <- <-]. rewrite count_cons, count_app.
    rewrite count_return_to_base_branch by done.
    by destruct (BRANCH_PER_TASK cfg).
  - destruct (retry_loop _ _ _ _ _ _ _) as [[code' evs']|] eqn:Hloop; [|done].
    simpl. intros [= <- <-]. rewrite count_cons, count_app.
    rewrite (retry_loop_other_events is_show_progress _ _ _ _ _ _ _
               ltac:(done) ltac:(done) ltac:(done) ltac:(done) ltac:(done)
               Hloop).
    by destruct (BRANCH_PER_TASK cfg).
Qed.

(** With a cap on iterations the loop of [main] ends, after at most as
    many tasks as are left under the cap, when no [((iteration++))] ends
    the script. *)
Lemma main_loop_capped fuel iteration :
  arith_errexit E = false ∨ (0 < iteration)%Z →
  (0 ≤ iteration < MAX_ITERATIONS cfg)%Z →
  Z.to_nat (MAX_ITERATIONS cfg - iteration) ≤ fuel →
  ∃ evs,
    main_loop cfg E fuel iteration = Some (0%Z, evs) ∧
    1 ≤ count is_show_progress evs ≤ Z.to_nat (MAX_ITERATIONS cfg - iteration).
Proof.
  revert iteration.
  induction fuel as [|fuel IH]; intros it Hshell Hit Hfuel; [lia|].
  cbn [main_loop]. unfold main_iteration.
  assert (arith_goes_on E it = true) as ->.
  { unfold arith_goes_on. destruct Hshell as [->|Hpos]; [done|].
    assert ((it =? 0)%Z = false) as -> by lia. by rewrite andb_false_r. }
  cbn [negb].
  destruct (run_single_task_total cfg E "" (it + 1)) as (code & evs & Hrun).
  rewrite Hrun. cbn [mbind option_bind].
  pose proof (run_single_task_progress _ _ _ _ Hrun) as Hone.
  assert (count is_show_progress [ev_show_summary; ev_notify_done] = 0)
    as Hend by done.
  assert (count is_show_progress [ev_sleep] = 0) as Hsleep by done.
  destruct (code =? 2)%Z.
  { eexists. split; [done|]. rewrite count_app, Hone, Hend. lia. }
  destruct ((MAX_ITERATIONS cfg >? 0)%Z && (it + 1 >=? MAX_ITERATIONS cfg)%Z)
    eqn:Hcap.
  { eexists. split; [done|]. rewrite count_app, Hone, Hend. lia. }
  cbn [mbind option_bind].
  destruct (IH (it + 1)%Z) as (evs' & -> & Hcount); [right; lia|lia|lia|].
  eexists. split; [done|].
  rewrite !count_app, Hone, Hsleep. lia.
Qed.

End WithEnv.
End SequentialMoreFacts.

Module SequentialProperties.
Import Text Ralphy Trace RalphyFacts SequentialFacts SequentialMoreFacts.

(** For one task the sequential orchestrator starts the agent at most
    [MAX_RETRIES] times (never, when [MAX_RETRIES] is zero or less), and
    it pauses between two starts and nowhere else. *)
Theorem attempts_bounded (cfg : config) (E : env)
    (task_name : string) (task_num : Z) :
  ∃ code evs,
    run_single_task cfg E task_name task_num = Some (code, evs) ∧
    (Z.of_nat (count is_run_ai evs) ≤ Z.max 0 (MAX_RETRIES cfg))%Z ∧
    count is_sleep evs = count is_run_ai evs - 1.
Proof.
  unfold run_single_task.
  destruct (is_empty _).
  { do 2 eexists. split; [done|]. rewrite !count_cons.
    cbn [is_run_ai is_sleep]. change (count _ []) with 0. lia. }
  destruct (DRY_RUN cfg).
  { do 2 eexists. split; [done|].
    rewrite !count_cons, !count_app.
    rewrite !count_return_to_base_branch by done.
    cbn [is_run_ai is_sleep].
    destruct (BRANCH_PER_TASK cfg); rewrite ?count_cons;
      cbn [is_run_ai is_sleep]; change (count _ []) with 0; lia. }
  match goal with
  | |- context [retry_loop cfg E ?f ?r ?t ?b 0] =>
      destruct (retry_loop_attempts cfg E f r t b 0)
        as (code & evs & -> & Hruns & _ & Hsleeps); [lia|]
  end.
  cbn [mbind option_bind]. do 2 eexists. split; [done|].
  rewrite !count_cons, !count_app. rewrite Z.sub_0_r in Hruns.
  cbn [is_run_ai is_sleep].
  destruct (BRANCH_PER_TASK cfg); rewrite ?count_cons;
    cbn [is_run_ai is_sleep]; change (count _ []) with 0; lia.
Qed.

(** In a dry run [run_single_task] starts no agent, marks no task and
    opens no pull request.  It returns 2 when there is no task (the name
    it is called with is empty and so is the next task of the source) and
    0 when there is one; with a task and a branch per task it creates the
    branch of that task, once, and otherwise none. *)
Theorem dry_run_starts_no_agent (cfg : config) (E : env)
    (task_name : string) (task_num : Z) :
  DRY_RUN cfg = true →
  let current_task :=
    if negb (is_empty task_name) then task_name
    else get_next_task E task_num in
  ∃ evs,
    run_single_task cfg E task_name task_num
    = Some (if is_empty current_task then 2%Z else 0%Z, evs) ∧
    count is_run_ai evs = 0 ∧
    count is_mark_task_complete evs = 0 ∧
    count is_create_pull_request evs = 0 ∧
    count is_create_task_branch evs
    = (if negb (is_empty current_task) && BRANCH_PER_TASK cfg then 1 else 0) ∧
    (is_empty current_task = false → BRANCH_PER_TASK cfg = true →
     ev_create_task_branch current_task ∈ evs).
Proof.
  intros Hdry current_task. unfold run_single_task. rewrite Hdry.
  fold current_task. destruct (is_empty current_task).
  { eexists. split; [done|]. by repeat split. }
  eexists. split; [done|].
  rewrite !count_cons, !count_app.
  rewrite !count_return_to_base_branch by done.
  destruct (BRANCH_PER_TASK cfg); repeat split; try done.
  intros _ _. right. by left.
Qed.

(** [dry_run_starts_no_agent] with a branch per task. *)
Lemma dry_run_starts_no_agent_witness :
  let cfg := MoreExamples.dry_run_with_branches in
  let E := Examples.steady ["add login"] Examples.result_record in
  DRY_RUN cfg = true ∧
  ∃ evs,
    run_single_task cfg E "" 1
    = Some (if is_empty (get_next_task E 1) then 2%Z else 0%Z, evs) ∧
    count is_run_ai evs = 0 ∧
    count is_mark_task_complete evs = 0 ∧
    count is_create_pull_request evs = 0 ∧
    count is_create_task_branch evs
    = (if negb (is_empty (get_next_task E 1)) && BRANCH_PER_TASK cfg
       then 1 else 0) ∧
    (is_empty (get_next_task E 1) = false → BRANCH_PER_TASK cfg = true →
     ev_create_task_branch (get_next_task E 1) ∈ evs).
Proof.
  split; [reflexivity|].
  apply (dry_run_starts_no_agent MoreExamples.dry_run_with_branches
           (Examples.steady ["add login"] Examples.result_record) "" 1).
  reflexivity.
Defined.

Example dry_run_creates_the_branch :
  run_single_task MoreExamples.dry_run_with_branches
    (Examples.steady ["add login"] Examples.result_record) "" 1
  = Some (0%Z, [ev_show_progress "0" "1"; ev_create_task_branch "add login";
                ev_return_to_base_branch]) ∧
  run_single_task MoreExamples.dry_run_with_branches
    (Examples.steady [] Examples.result_record) "" 1
  = Some (2%Z, [ev_show_progress "0" "0"]).
Proof. split; reflexivity. Qed.

(** With a cap on iterations the sequential loop of [main] ends,
    whatever the agents print and whatever the task source answers.
    Under a shell that goes on after an arithmetic command worth zero
    (bash 4.0) it ends with exit status 0 after at least one task and at
    most as many as the cap; under a later bash it ends with exit status
    1 before the first task, at the first [((iteration++))]. *)
Theorem iteration_cap_ends_the_loop (cfg : config) (E : env) (fuel : nat) :
  (0 < MAX_ITERATIONS cfg)%Z →
  Z.to_nat (MAX_ITERATIONS cfg) ≤ fuel →
  ∃ code evs,
    main_loop cfg E fuel 0 = Some (code, evs) ∧
    if arith_errexit E then code = 1%Z ∧ evs = []
    else code = 0%Z ∧
         1 ≤ count is_show_progress evs ≤ Z.to_nat (MAX_ITERATIONS cfg).
Proof.
  intros Hcap Hfuel. destruct (arith_errexit E) eqn:Hshell.
  - destruct fuel as [|fuel]; [lia|]. exists 1%Z, [].
    cbn [main_loop]. unfold main_iteration, arith_goes_on.
    by rewrite Hshell.
  - destruct (main_loop_capped cfg E fuel 0) as (evs & Hloop & Hcount);
      [by left|lia|by rewrite Z.sub_0_r|].
    rewrite Z.sub_0_r in Hcount. by eauto.
Qed.

(** [iteration_cap_ends_the_loop] on a cap of two, with a task that never
    gets done, under bash 4.0. *)
Lemma iteration_cap_ends_the_loop_witness :
  let cfg := Examples.with_max_iterations 2 (Examples.defaults markdown) in
  let E := Examples.steady ["add login"] "" in
  (0 < MAX_ITERATIONS cfg)%Z ∧
  Z.to_nat (MAX_ITERATIONS cfg) ≤ 2 ∧
  ∃ code evs,
    main_loop cfg E 2 0 = Some (code, evs) ∧
    if arith_errexit E then code = 1%Z ∧ evs = []
    else code = 0%Z ∧
         1 ≤ count is_show_progress evs ≤ Z.to_nat (MAX_ITERATIONS cfg).
Proof.
  split; [reflexivity|]. split; [simpl; lia|].
  apply (iteration_cap_ends_the_loop
           (Examples.with_max_iterations 2 (Examples.defaults markdown))
           (Examples.steady ["add login"] "") 2).
  - reflexivity.
  - simpl. lia.
Defined.

Example capped_loop_under_two_shells :
  let cfg := Examples.with_max_iterations 2 (Examples.defaults markdown) in
  let E := Examples.steady ["add login"] "" in
  (fun r : Z * list event => (r.1, count is_show_progress r.2))
    <$> main_loop cfg E 2 0 = Some (0%Z, 2) ∧
  main_loop cfg (with_bash (5, 2)%Z E) 2 0 = Some (1%Z, []).
Proof. split; reflexivity. Qed.

(** Under a shell that goes on after an arithmetic command worth zero
    (bash 4.0), and without a cap on iterations, the sequential loop of
    [main] goes on as long as the task source names a next task and no
    successful attempt prints the promise marker: a failed task does not
    stop it, nor does a dry run. *)
Theorem loop_goes_on_without_cap (cfg : config) (E : env) :
  arith_errexit E = false →
  (MAX_ITERATIONS cfg ≤ 0)%Z →
  (∀ i, is_empty (get_next_task E i) = false) →
  (∀ i k, includes (agent_output E i k) promise_marker = false) →
  ∀ fuel iteration, main_loop cfg E fuel iteration = None.
Proof.
  intros Hshell Hcap Htask Hmarker fuel.
  induction fuel as [|fuel IH]; intros it; [done|].
  cbn [main_loop]. unfold main_iteration, arith_goes_on.
  rewrite Hshell. cbn [andb negb].
  destruct (run_single_task cfg E "" (it + 1)) as [[code evs]|] eqn:Hrun;
    [|done].
  cbn [mbind option_bind].
  assert (code ≠ 2%Z) as Hcode.
  { revert Hrun. unfold run_single_task. cbn [is_empty negb].
    rewrite Htask. destruct (DRY_RUN cfg); [by intros [= <- _]|].
    destruct (retry_loop _ _ _ _ _ _ _) as [[code' evs']|] eqn:Hloop; [|done].
    simpl. intros [= <- _].
    destruct (retry_loop_code _ _ _ _ _ _ _ _ _ Hloop) as [->|[k ->]];
      [done|].
    unfold task_succeeded. simpl.
    rewrite (includes_captured _ promise_marker) by done.
    by rewrite Hmarker. }
  assert ((code =? 2)%Z = false) as -> by lia.
  assert ((MAX_ITERATIONS cfg >? 0)%Z = false) as -> by lia.
  simpl. by rewrite IH.
Qed.

(** [loop_goes_on_without_cap] on a task whose every attempt prints
    nothing, under bash 4.0. *)
Lemma loop_goes_on_without_cap_witness :
  let cfg := Examples.defaults markdown in
  let E := Examples.steady ["add login"] "" in
  arith_errexit E = false ∧
  (MAX_ITERATIONS cfg ≤ 0)%Z ∧
  (∀ i, is_empty (get_next_task E i) = false) ∧
  (∀ i k, includes (agent_output E i k) promise_marker = false) ∧
  ∀ fuel iteration, main_loop cfg E fuel iteration = None.
Proof.
  split; [reflexivity|].
  split; [simpl; lia|]. split; [by intros i|]. split; [by intros i k|].
  apply (loop_goes_on_without_cap (Examples.defaults markdown)
           (Examples.steady ["add login"] "")).
  - reflexivity.
  - simpl. lia.
  - intros i. reflexivity.
  - intros i k. reflexivity.
Defined.

End SequentialProperties.
(** ** More on the parallel batch scheduler *)

Module ParallelMoreFacts.
Import Text Ralphy Trace RalphyFacts ParallelFacts SequentialMoreFacts.


Lemma all_slots_one b : all_slots [b] = batch_slots b.
Proof. unfold all_slots. simpl. by rewrite app_nil_r. Qed.

Section WithEnv.
Variable cfg : config.
Variable E : env.





(** The slots of a batch whose agents were all started. *)
Lemma start_agents_slots tasks (indices : list Z) iteration slots iteration' :
  start_agents cfg E tasks indices iteration = Some (slots, iteration', false) →
  slot_task <$> slots
  = (fun i => default "" (tasks !! Z.to_nat i)) <$> indices ∧
  slot_agent_num <$> slots = (fun i => (i + 1)%Z) <$> indices ∧
  iteration' = (iteration + Z.of_nat (length indices))%Z.
Proof.
  revert iteration slots iteration'.
  induction indices as [|i indices IH]; intros it slots it'.
  { intros [= <- <-]. simpl. repeat split. lia. }
  cbn [start_agents].
  destruct (negb (arith_goes_on E it)); [done|].
  destruct (start_agent_total cfg E tasks i) as (sl & -> & Htask & Hnum & _).
  cbn [mbind option_bind].
  destruct (start_agents cfg E tasks indices (it + 1))
    as [[[slots' it''] ended]|] eqn:Hrec; [|done].
  cbn [mbind option_bind]. intros [= <- <- ->].
  destruct (IH _ _ _ Hrec) as (Htasks & Hnums & ->).
  rewrite !fmap_cons, Htask, Hnum, Htasks, Hnums.
  repeat split. simpl length. lia.
Qed.

(** The agents of the batches are numbered on from the index the loop
    starts at, and work on the tasks from there on. *)
Lemma batch_loop_numbers fuel tasks batch_start batch_num iteration
    e bs iteration' :
  (1 ≤ MAX_PARALLEL cfg)%Z →
  (0 ≤ batch_start)%Z →
  batch_loop cfg E fuel tasks batch_start batch_num iteration
  = Some (e, bs, iteration') →
  slot_agent_num <$> all_slots bs
  = seqZ (batch_start + 1) (Z.of_nat (length (all_slots bs))) ∧
  slot_task <$> all_slots bs
  = take (length (all_slots bs)) (drop (Z.to_nat batch_start) tasks) ∧
  (arith_errexit E = false →
   iteration' = (iteration + Z.of_nat (length (all_slots bs)))%Z).
Proof.
  intros HP. revert batch_start batch_num iteration e bs iteration'.
  induction fuel as [|fuel IH]; intros s n it e bs it' Hs; [done|].
  assert (∀ it0 : Z,
            slot_agent_num <$> all_slots [] = seqZ (s + 1) (Z.of_nat (length (all_slots []))) ∧
            slot_task <$> all_slots []
            = take (length (all_slots [])) (drop (Z.to_nat s) tasks) ∧
            (it0 = it → it0 = (it + Z.of_nat (length (all_slots [])))%Z))
    as Hnone.
  { intros it0. repeat split. intros ->. simpl. lia. }
  cbn [batch_loop].
  destruct (s <? Z.of_nat (length tasks))%Z eqn:Hlt.
  2:{ intros [= <- <- <-]. destruct (Hnone it) as (? & ? & ?). by eauto. }
  destruct (negb (arith_goes_on E n)).
  { intros [= <- <- <-]. destruct (Hnone it) as (? & ? & ?). by eauto. }
  set (e' := if (s + MAX_PARALLEL cfg >? Z.of_nat (length tasks))%Z
             then Z.of_nat (length tasks) else (s + MAX_PARALLEL cfg)%Z).
  assert (s < e' ≤ Z.of_nat (length tasks))%Z as He
    by (subst e'; destruct (Z.gtb_spec (s + MAX_PARALLEL cfg)
                              (Z.of_nat (length tasks))); lia).
  destruct (start_agents cfg E tasks (zrange s e') it)
    as [[[slots it1] ended]|] eqn:Hstart; [|done].
  cbn [mbind option_bind].
  destruct ended.
  { intros [= <- <- <-]. destruct (Hnone it1) as (? & ? & _).
    do 2 (split; [done|]). intros Hshell.
    destruct (start_agents_all cfg E tasks (zrange s e') it Hshell)
      as (? & Hall & _).
    rewrite Hall in Hstart. by injection Hstart. }
  destruct (start_agents_slots _ _ _ _ _ Hstart) as (Htasks & Hnums & ->).
  rewrite zrange_tasks in Htasks by lia.
  pose proof (f_equal length Hnums) as Hlen.
  rewrite !length_fmap in Hlen. unfold zrange in Hlen, Hnums.
  rewrite length_seqZ in Hlen.
  assert ((fun i => (i + 1)%Z) <$> seqZ s (e' - s) = seqZ (s + 1) (e' - s))
    as Hshift.
  { rewrite (Z.add_comm s 1), <- fmap_add_seqZ.
    apply list_fmap_ext. intros ? i _. lia. }
  rewrite Hshift in Hnums.
  assert (Z.of_nat (length slots) = e' - s)%Z as Hslots by lia.
  assert (length (zrange s e') = length slots) as Hrange
    by (unfold zrange; rewrite length_seqZ; lia).
  rewrite Hrange.
  assert (∀ b, batch_slots b = slots →
            slot_agent_num <$> all_slots [b]
            = seqZ (s + 1) (Z.of_nat (length (all_slots [b]))) ∧
            slot_task <$> all_slots [b]
            = take (length (all_slots [b])) (drop (Z.to_nat s) tasks) ∧
            (arith_errexit E = false →
             (it + Z.of_nat (length slots))%Z
             = (it + Z.of_nat (length (all_slots [b])))%Z)) as Hone.
  { intros b Hb. rewrite all_slots_one, Hb, Hnums, Htasks, Hslots.
    split; [done|]. split; [|done]. f_equal. lia. }
  destruct slots as [|sl slots]; [simpl in Hslots; lia|].
  destruct (arith_errexit E) eqn:Hshell.
  { intros [= <- <- <-]. by repeat split. }
  destruct (existsb stuck (sl :: slots)); [done|].
  destruct (results_loop cfg E (sl :: slots)) as [results ended].
  destruct ended as [status|].
  { intros [= <- <- <-]. by apply Hone. }
  destruct (_ && _).
  { intros [= <- <- <-]. by apply Hone. }
  destruct (batch_loop cfg E fuel tasks e' (n + 1) _)
    as [[[en bs'] it'']|] eqn:Hrec; [|done].
  cbn [mbind option_bind]. intros [= <- <- <-].
  destruct (IH e' _ _ _ _ _ ltac:(lia) Hrec) as (IHn & IHt & IHi).
  unfold all_slots in *. rewrite bind_cons. cbn [batch_slots].
  rewrite !fmap_app, length_app, Nat2Z.inj_add, Hnums, Htasks, IHn, IHt.
  split; [|split].
  - rewrite seqZ_app by lia. rewrite Hslots. do 2 f_equal. lia.
  - rewrite <- take_take_drop. f_equal.
    + f_equal. lia.
    + rewrite drop_drop. do 2 f_equal. lia.
  - intros _. rewrite (IHi eq_refl). lia.
Qed.

Lemma concat_batch_tasks bs :
  concat (batch_tasks bs) = slot_task <$> all_slots bs.
Proof.
  unfold batch_tasks, all_slots.
  induction bs as [|b bs IH]; [done|].
  rewrite fmap_cons, bind_cons, fmap_app. simpl. by rewrite IH.
Qed.

End WithEnv.
End ParallelMoreFacts.

Module ParallelProperties.
Import Text Ralphy Trace RalphyFacts ParallelFacts BatchFacts ParallelMoreFacts.



Example error_record_is_marked_done :
  (fun r : ending * list batch * Z =>
     (r.1.1, batch_statuses r.1.2, batch_results <$> r.1.2))
    <$> run_parallel_tasks (Examples.defaults markdown)
          (Examples.steady ["add login"] Examples.error_record) 0
  = Some (Returned 0, [[("add login", finished)]],
          [[ev_mark_task_complete markdown "add login"]]).
Proof. vm_compute. reflexivity. Qed.


Example agent_status_examples :
  let cfg := Examples.defaults markdown in
  let E := Examples.mixed ["task 1"; "task 2"] [2%Z] in
  (statuses <$> (slot_events <$> start_agent cfg E ["task 1"; "task 2"] 0))
  = Some [waiting; setting_up; running; finished] ∧
  (statuses <$> (slot_events <$> start_agent cfg E ["task 1"; "task 2"] 1))
  = Some [waiting; setting_up; running; failed] ∧
  (statuses <$> (slot_events
                   <$> start_agent cfg (with_bash (5, 2)%Z E)
                         ["task 1"; "task 2"] 1))
  = Some [waiting; setting_up; running].
Proof. vm_compute. repeat split; reflexivity. Qed.

(** The agents of a parallel run are numbered 1, 2, 3, ... in the order
    of the pending tasks, across the batches whose results loop was
    reached: however the run ends, agent [k] works on the [k]-th pending
    task, so no two agents share a number (nor the worktree directory and
    branch named after it); and, in a shell that goes on after an
    arithmetic command worth zero, the iteration counter has advanced by
    one for every such agent.  The run does end, with a return, when
    moreover every agent command and every marking command ends with
    status zero. *)
Theorem agents_are_numbered (cfg : config) (E : env) (iteration : Z) :
  (1 ≤ MAX_PARALLEL cfg)%Z →
  (∀ e bs iteration',
     run_parallel_tasks cfg E iteration = Some (e, bs, iteration') →
     slot_agent_num <$> all_slots bs
     = seqZ 1 (Z.of_nat (length (all_slots bs))) ∧
     slot_task <$> all_slots bs
     = take (length (all_slots bs)) (pending_tasks E) ∧
     (arith_errexit E = false →
      iteration' = (iteration + Z.of_nat (length (all_slots bs)))%Z)) ∧
  (arith_errexit E = false →
   (∀ n k, agent_exit E n k = 0%Z) →
   (PRD_SOURCE cfg = github ∨ ∀ n, mark_exit E n = 0%Z) →
   ∃ code bs iteration',
     run_parallel_tasks cfg E iteration
     = Some (Returned code, bs, iteration')).
Proof.
  intros HP. split.
  - intros e bs it'. unfold run_parallel_tasks.
    destruct (Nat.eqb (length (pending_tasks E)) 0).
    { intros [= <- <- <-]. do 2 (split; [done|]). intros _. simpl. lia. }
    intros Hloop.
    by apply (batch_loop_numbers cfg E _ _ 0%Z _ _ _ _ _ HP ltac:(lia) Hloop).
  - intros Hshell Hagents Hmarks.
    assert (∀ sl, mark_status cfg E sl = 0%Z) as Hmark.
    { intros sl. unfold mark_status.
      destruct Hmarks as [->|Hmarks]; [done|]. by destruct (PRD_SOURCE cfg). }
    unfold run_parallel_tasks.
    destruct (Nat.eqb (length (pending_tasks E)) 0); [by eauto|].
    destruct (batch_loop_prefix cfg E Hshell Hagents Hmark
                (S (length (pending_tasks E))) (pending_tasks E) 0 0 iteration)
      as (bs & it' & rest & Hloop & _); [done|lia|lia|].
    rewrite Hloop. by eauto.
Qed.

(** [agents_are_numbered] on seven tasks, three at a time, under
    bash 4.0. *)
Lemma agents_are_numbered_witness :
  let cfg := Examples.defaults markdown in
  let E := Examples.steady Examples.seven_tasks Examples.result_record in
  (1 ≤ MAX_PARALLEL cfg)%Z ∧
  arith_errexit E = false ∧
  (∀ n k, agent_exit E n k = 0%Z) ∧
  (PRD_SOURCE cfg = github ∨ ∀ n, mark_exit E n = 0%Z) ∧
  ∃ code bs iteration',
    run_parallel_tasks cfg E 0 = Some (Returned code, bs, iteration') ∧
    slot_agent_num <$> all_slots bs
    = seqZ 1 (Z.of_nat (length (all_slots bs))) ∧
    slot_task <$> all_slots bs
    = take (length (all_slots bs)) (pending_tasks E) ∧
    iteration' = (0 + Z.of_nat (length (all_slots bs)))%Z.
Proof.
  split; [simpl; lia|]. split; [reflexivity|]. split; [reflexivity|].
  split; [by right|].
  destruct (agents_are_numbered (Examples.defaults markdown)
              (Examples.steady Examples.seven_tasks Examples.result_record)
              0 ltac:(simpl; lia)) as [Hnum Hends].
  destruct (Hends eq_refl ltac:(reflexivity) ltac:(by right))
    as (code & bs & it' & Hrun).
  destruct (Hnum _ _ _ Hrun) as (H1 & H2 & H3).
  exists code, bs, it'. repeat split; [exact Hrun|exact H1|exact H2|].
  by apply H3.
Defined.

Example seven_agents :
  (fun r : ending * list batch * Z =>
     (r.1.1, (fun sl => (slot_agent_num sl, slot_task sl)) <$> all_slots r.1.2,
      r.2))
    <$> run_parallel_tasks (Examples.defaults markdown)
          (Examples.steady Examples.seven_tasks Examples.result_record) 0
  = Some (Returned 0,
          [(1%Z, "task 1"); (2%Z, "task 2"); (3%Z, "task 3"); (4%Z, "task 4");
           (5%Z, "task 5"); (6%Z, "task 6"); (7%Z, "task 7")],
          7%Z).
Proof. vm_compute. reflexivity. Qed.

(** With [MAX_PARALLEL] zero or less and a task pending the scheduler
    starts no agent and records no batch: the shell ends the script in
    the first round of the batch loop, at [((batch_num++))] in a bash
    that applies [set -e] to it, and in an older one at the expansion of
    the empty array of process ids under [set -u]. *)
Theorem no_parallelism_ends_the_script (cfg : config) (E : env)
    (iteration : Z) :
  (MAX_PARALLEL cfg ≤ 0)%Z →
  pending_tasks E ≠ [] →
  run_parallel_tasks cfg E iteration
  = Some (Aborted (if arith_errexit E then by_arith else by_unbound),
          [], iteration).
Proof.
  intros HP Htasks. unfold run_parallel_tasks.
  assert (0 < Z.of_nat (length (pending_tasks E)))%Z as Hlen.
  { destruct (pending_tasks E); [done|]. simpl. lia. }
  destruct (Nat.eqb_spec (length (pending_tasks E)) 0) as [H0|_]; [lia|].
  cbn [batch_loop].
  assert ((0 <? Z.of_nat (length (pending_tasks E)))%Z = true) as -> by lia.
  rewrite arith_goes_on_zero, negb_involutive.
  destruct (arith_errexit E) eqn:Hshell; [done|].
  assert ((0 + MAX_PARALLEL cfg >? Z.of_nat (length (pending_tasks E)))%Z
          = false) as -> by lia.
  unfold zrange. rewrite seqZ_nil by lia.
  cbn [start_agents mbind option_bind].
  assert (empty_array_unbound E = true) as ->; [|done].
  unfold empty_array_unbound, arith_errexit, version_at_least in *.
  destruct (bash_version E) as [major minor]. cbn [fst snd] in *.
  apply negb_true_iff. apply orb_false_iff in Hshell as [H1 H2].
  apply orb_false_iff. split; [done|].
  apply andb_false_iff. apply andb_false_iff in H2 as [H2|H2];
    [by left|right; lia].
Qed.

(** [no_parallelism_ends_the_script] on [--max-parallel 0], under
    bash 4.0. *)
Lemma no_parallelism_ends_the_script_witness :
  let cfg := MoreExamples.no_parallelism in
  let E := Examples.steady ["add login"] Examples.result_record in
  (MAX_PARALLEL cfg ≤ 0)%Z ∧
  pending_tasks E ≠ [] ∧
  run_parallel_tasks cfg E 0
  = Some (Aborted (if arith_errexit E then by_arith else by_unbound),
          [], 0%Z).
Proof.
  assert (pending_tasks (Examples.steady ["add login"] Examples.result_record)
          ≠ []) as Htasks by done.
  split; [simpl; lia|]. split; [exact Htasks|].
  apply (no_parallelism_ends_the_script MoreExamples.no_parallelism
           (Examples.steady ["add login"] Examples.result_record) 0).
  - simpl. lia.
  - exact Htasks.
Defined.

Example no_parallelism_under_two_shells :
  let E := Examples.steady ["add login"] Examples.result_record in
  run_parallel_tasks MoreExamples.no_parallelism E 0
  = Some (Aborted by_unbound, [], 0%Z) ∧
  run_parallel_tasks MoreExamples.no_parallelism (with_bash (5, 2)%Z E) 0
  = Some (Aborted by_arith, [], 0%Z).
Proof. vm_compute. split; reflexivity. Qed.

End ParallelProperties.

(** ** Branch names, worktrees and the task sources of the script *)

Module ShellTextFacts.
Import Text Ralphy RalphyTasks TextFacts StreamingFacts.

#[local] Arguments captured : simpl never.

Lemma chars_app s t : String.list_ascii_of_string (s +:+ t) = String.list_ascii_of_string s ++ String.list_ascii_of_string t.
Proof. induction s as [|a s IH]; [done|]. simpl. by rewrite IH. Qed.

Lemma string_length_app s t :
  String.length (s +:+ t) = String.length s + String.length t.
Proof. induction s as [|a s IH]; [done|]. simpl. by rewrite IH. Qed.

(** Only the empty text can be put before a text without changing it. *)
Lemma append_eq_self s t : s +:+ t = t → s = "".
Proof.
  intros Heq. apply (f_equal String.length) in Heq.
  rewrite string_length_app in Heq. destruct s; [done|]. simpl in Heq. lia.
Qed.

Lemma one_line_chars s :
  one_line s = true ↔ Forall (fun c => c ≠ nl) (String.list_ascii_of_string s).
Proof.
  induction s as [|a s IH]; simpl; [by split; [constructor|]|].
  rewrite andb_true_iff, negb_true_iff, Forall_cons, IH.
  by destruct (Ascii.eqb_spec a nl); split; intros [? ?].
Qed.

(** *** Command substitution *)

Lemma strip_nl_rev_app r c r' :
  c ≠ nl → strip_nl_rev (r ++ c :: r') = strip_nl_rev r ++ c :: r'
           ∨ (strip_nl_rev r = [] ∧ strip_nl_rev (r ++ c :: r') = c :: r').
Proof.
  intros Hc. induction r as [|a r IH]; simpl.
  - destruct (Ascii.eqb_spec c nl); [done|]. by right.
  - destruct (Ascii.eqb_spec a nl); [done|]. by left.
Qed.

(** The line feeds that end a text go, the text before them stays. *)
Lemma captured_app_keep s c t :
  c ≠ nl → captured (s +:+ String c t) = s +:+ String c (captured t).
Proof.
  intros Hc. unfold captured.
  rewrite chars_app. cbn [String.list_ascii_of_string].
  rewrite rev_app_distr. cbn [rev]. rewrite <- app_assoc. cbn [app].
  destruct (strip_nl_rev_app (rev (String.list_ascii_of_string t)) c (rev (String.list_ascii_of_string s)) Hc)
    as [->|[Hnil ->]].
  - rewrite rev_app_distr. cbn [rev]. rewrite rev_involutive, <- app_assoc.
    cbn [app].
    rewrite <- (String.string_of_list_ascii_of_string
                  (s +:+ String c (String.string_of_list_ascii
                                     (rev (strip_nl_rev (rev (String.list_ascii_of_string t))))))).
    f_equal. rewrite chars_app. cbn [String.list_ascii_of_string].
    by rewrite String.list_ascii_of_string_of_list_ascii.
  - rewrite Hnil. cbn [rev app String.string_of_list_ascii].
    rewrite rev_involutive.
    rewrite <- (String.string_of_list_ascii_of_string (s +:+ String c "")).
    f_equal. by rewrite chars_app.
Qed.

Lemma captured_cons c t :
  c ≠ nl → captured (String c t) = String c (captured t).
Proof. apply (captured_app_keep "" c t). Qed.

(** A text with no line feed in it, printed with a line feed after it,
    is captured as it is. *)
Lemma captured_line l : one_line l = true → captured (l +:+ String nl "") = l.
Proof.
  induction l as [|c l IH]; [done|]. rewrite append_cons. simpl.
  destruct (Ascii.eqb_spec c nl) as [|Hc]; [done|]. simpl. intros Hl.
  by rewrite (captured_cons c _ Hc), IH.
Qed.

Lemma captured_tail s l :
  one_line l = true → l ≠ "" →
  captured (s +:+ l +:+ String nl "") = s +:+ l.
Proof.
  intros Hl Hne. destruct l as [|c l]; [done|].
  simpl in Hl. destruct (Ascii.eqb_spec c nl) as [|Hc]; [done|].
  rewrite append_cons, (captured_app_keep s c _ Hc). do 2 f_equal.
  by apply captured_line.
Qed.

(** *** Prefixes *)

Lemma startsWith_refl s : startsWith s s = true.
Proof. induction s as [|a s IH]; [done|]. simpl. by rewrite Ascii.eqb_refl. Qed.

Lemma startsWith_substring_to n s : startsWith s (substring_to n s) = true.
Proof.
  revert s. induction n as [|n IH]; intros s; [done|].
  destruct s as [|a s]; [done|]. simpl. by rewrite Ascii.eqb_refl.
Qed.

Lemma length_substring_to n s : String.length (substring_to n s) ≤ n.
Proof.
  revert s. induction n as [|n IH]; intros s; [done|].
  destruct s as [|a s]; simpl; [lia|]. specialize (IH s). lia.
Qed.

Lemma startsWith_strip_trailing_dash s :
  startsWith s (strip_trailing_dash s) = true.
Proof.
  induction s as [|a s IH]; [done|]. cbn [strip_trailing_dash].
  destruct s as [|b s].
  - destruct (Ascii.eqb a "-"); [done|]. simpl. by rewrite Ascii.eqb_refl.
  - cbn [startsWith]. by rewrite Ascii.eqb_refl.
Qed.

Lemma startsWith_trans s p q :
  startsWith s p = true → startsWith p q = true → startsWith s q = true.
Proof.
  revert s p. induction q as [|c q IH]; intros s p; [done|].
  destruct p as [|b p]; [done|]. destruct s as [|a s]; [done|].
  cbn [startsWith].
  destruct (Ascii.eqb_spec b a) as [->|]; [|done].
  destruct (Ascii.eqb_spec c a) as [->|]; [|done].
  apply IH.
Qed.

Lemma includes_prefix s p x :
  startsWith s p = true → includes p x = true → includes s x = true.
Proof.
  revert s. induction p as [|b p IH]; intros s Hp.
  - simpl. rewrite orb_false_r. destruct x; [|done]. by destruct s.
  - destruct s as [|a s]; [done|]. simpl in Hp.
    destruct (Ascii.eqb_spec b a) as [->|]; [|done].
    cbn [includes]. rewrite !orb_true_iff. intros [Hx|Hx].
    + left. apply (startsWith_trans _ (String a p)); [|done].
      simpl. by rewrite Ascii.eqb_refl.
    + right. by apply IH.
Qed.

Lemma slug_text_prefix s p :
  startsWith s p = true → slug_text s = true → slug_text p = true.
Proof.
  revert s. induction p as [|b p IH]; intros s; [done|].
  destruct s as [|a s]; [done|]. simpl.
  destruct (Ascii.eqb_spec b a) as [->|]; [|done].
  intros Hp [-> Hs]%andb_prop. simpl. by apply (IH s).
Qed.

(** *** [slugify] *)

Lemma slug_char_not_dash c : slug_char c = true → Ascii.eqb "-" c = false.
Proof. destruct (Ascii.eqb_spec "-" c) as [<-|]; [done|done]. Qed.

Lemma slug_text_one_line s : slug_text s = true → one_line s = true.
Proof.
  induction s as [|c s IH]; [done|]. simpl.
  intros [Hc Hs]%andb_prop. rewrite (IH Hs), andb_true_r.
  destruct (Ascii.eqb_spec c nl) as [->|]; [done|done].
Qed.

(** The runs of other characters become single dashes. *)
Lemma dash_runs_shape in_run s :
  slug_text (dash_runs in_run s) = true ∧
  (in_run = true → startsWith (dash_runs in_run s) "-" = false) ∧
  includes (dash_runs in_run s) "--" = false.
Proof.
  revert in_run. induction s as [|c s IH]; intros in_run; [done|].
  cbn [dash_runs]. destruct (slug_char c) eqn:Hc.
  - destruct (IH false) as (H1 & _ & H3). cbn [slug_text includes startsWith].
    rewrite Hc, H1, H3, (slug_char_not_dash c Hc). done.
  - destruct (IH true) as (H1 & H2 & H3). destruct in_run; [done|].
    cbn [slug_text includes]. rewrite H1, H3, orb_false_r.
    split; [done|]. split; [done|].
    cbn [startsWith]. rewrite Ascii.eqb_refl. by apply H2.
Qed.

Lemma strip_leading_dash_shape s :
  slug_text s = true → includes s "--" = false →
  slug_text (strip_leading_dash s) = true ∧
  startsWith (strip_leading_dash s) "-" = false ∧
  includes (strip_leading_dash s) "--" = false.
Proof.
  intros H1 H3. destruct s as [|c s]; [done|].
  cbn [includes] in H3. apply orb_false_elim in H3 as [Hstart Hincl].
  destruct (Ascii.eqb_spec "-" c) as [<-|Hne].
  - cbn [strip_leading_dash]. simpl in H1. split; [done|]. split; [|done].
    cbn [startsWith] in Hstart. by rewrite Ascii.eqb_refl in Hstart.
  - assert (strip_leading_dash (String c s) = String c s) as ->.
    { destruct c as [[] [] [] [] [] [] [] []]; try done. }
    split; [done|]. split.
    + cbn [startsWith]. by destruct (Ascii.eqb_spec "-" c).
    + cbn [includes]. by rewrite Hstart, Hincl.
Qed.

(** What [slugify] prints for a line. *)
Lemma slug_line_shape line :
  String.length (slug_line line) ≤ 50 ∧
  slug_text (slug_line line) = true ∧
  startsWith (slug_line line) "-" = false ∧
  includes (slug_line line) "--" = false.
Proof.
  unfold slug_line.
  destruct (dash_runs_shape false (tr_upper_lower line)) as (H1 & _ & H3).
  destruct (strip_leading_dash_shape _ H1 H3) as (G1 & G2 & G3).
  set (x := strip_leading_dash (dash_runs false (tr_upper_lower line))) in *.
  assert (startsWith x (substring_to 50 (strip_trailing_dash x)) = true)
    as Hprefix.
  { apply (startsWith_trans _ (strip_trailing_dash x)).
    - apply startsWith_strip_trailing_dash.
    - apply startsWith_substring_to. }
  split; [apply length_substring_to|].
  split; [by apply (slug_text_prefix x)|]. split.
  - destruct (startsWith (substring_to 50 (strip_trailing_dash x)) "-")
      eqn:Hd; [|done].
    by rewrite (startsWith_trans _ _ _ Hprefix Hd) in G2.
  - destruct (includes (substring_to 50 (strip_trailing_dash x)) "--")
      eqn:Hd; [|done].
    by rewrite (includes_prefix _ _ _ Hprefix Hd) in G3.
Qed.

(** For a text of one line [slugify] prints the slug of that line, or
    nothing when echo takes the text for its options. *)
Lemma slugify_line task :
  one_line task = true →
  slugify task = if echo_option task then "" else slug_line task.
Proof.
  intros Hline. unfold slugify. destruct (echo_option task); [done|].
  rewrite (split_one_line_id _ Hline). cbn [fmap list_fmap piped].
  apply captured_line, slug_text_one_line.
  by destruct (slug_line_shape task) as (_ & ? & _).
Qed.

Lemma slugify_shape_line task :
  one_line task = true →
  String.length (slugify task) ≤ 50 ∧
  slug_text (slugify task) = true ∧
  startsWith (slugify task) "-" = false ∧
  includes (slugify task) "--" = false.
Proof.
  intros Hline. rewrite (slugify_line _ Hline).
  destruct (echo_option task); [|apply slug_line_shape].
  simpl. repeat split. lia.
Qed.

(** *** Characters that a text does not hold *)

Lemma includes_char_cons a s c :
  includes (String a s) (String c "") = Ascii.eqb c a || includes s (String c "").
Proof. cbn [includes startsWith]. by destruct (Ascii.eqb c a). Qed.

Lemma includes_char_app s t c :
  includes (s +:+ t) (String c "")
  = includes s (String c "") || includes t (String c "").
Proof.
  induction s as [|a s IH].
  - reflexivity.
  - rewrite append_cons, !includes_char_cons, IH. by rewrite orb_assoc.
Qed.

Lemma slug_text_no_char s c :
  slug_text s = true → slug_char c = false → Ascii.eqb c "-" = false →
  includes s (String c "") = false.
Proof.
  intros Hs Hc Hd. induction s as [|a s IH]; [done|].
  simpl in Hs. apply andb_prop in Hs as [Ha Hs].
  rewrite includes_char_cons, (IH Hs), orb_false_r.
  destruct (Ascii.eqb_spec c a) as [->|]; [|done].
  by rewrite Hc, Hd in Ha.
Qed.

Lemma all_digits_no_char s c :
  all_digits s = true → is_digit c = false →
  includes s (String c "") = false.
Proof.
  intros Hs Hc. induction s as [|a s IH]; [done|].
  simpl in Hs. apply andb_prop in Hs as [Ha Hs].
  rewrite includes_char_cons, (IH Hs), orb_false_r.
  destruct (Ascii.eqb_spec c a) as [->|]; [|done]. by rewrite Hc in Ha.
Qed.

Lemma all_digits_one_line s : all_digits s = true → one_line s = true.
Proof.
  induction s as [|a s IH]; [done|]. simpl.
  intros [Ha Hs]%andb_prop. rewrite (IH Hs), andb_true_r.
  destruct (Ascii.eqb_spec a nl) as [->|]; [done|done].
Qed.

(** *** Numbers in decimal *)

Lemma string_of_uint_digits d :
  all_digits (DecimalString.NilEmpty.string_of_uint d) = true.
Proof. induction d; simpl; done. Qed.

(** A number that is not negative is printed as digits, at least one. *)
Lemma decimal_digits z :
  (0 ≤ z)%Z → all_digits (Ref.decimal z) = true ∧ Ref.decimal z ≠ "".
Proof.
  intros Hz. unfold Ref.decimal. destruct z as [|p|p]; [done| |lia].
  cbn [Z.to_int DecimalString.NilZero.string_of_int].
  pose proof (DecimalPos.Unsigned.to_uint_nonnil p) as Hnil.
  pose proof (string_of_uint_digits (Pos.to_uint p)) as Hdigits.
  destruct (Pos.to_uint p) eqn:Hd; [done|..]; by split.
Qed.

(** *** Cutting a text at a character *)

Lemma before_first_app c s t :
  includes s (String c "") = false →
  before_first c (s +:+ String c t) = s.
Proof.
  induction s as [|a s IH]; intros Hs.
  - simpl. by rewrite Ascii.eqb_refl.
  - rewrite includes_char_cons in Hs. apply orb_false_elim in Hs as [Ha Hs].
    rewrite append_cons. cbn [before_first].
    rewrite Ascii.eqb_sym, Ha. by rewrite IH.
Qed.

Lemma after_last_app c s t :
  includes t (String c "") = false →
  after_last c (s +:+ String c t) = t.
Proof.
  intros Ht. induction s as [|a s IH].
  - simpl. by rewrite Ht, Ascii.eqb_refl.
  - rewrite append_cons. cbn [after_last].
    rewrite includes_char_app, includes_char_cons, Ascii.eqb_refl.
    by rewrite orb_true_r.
Qed.

Lemma substring_to_app n s t :
  String.length s ≤ n →
  substring_to n (s +:+ t) = s +:+ substring_to (n - String.length s) t.
Proof.
  revert n. induction s as [|a s IH]; intros n Hn.
  - simpl. by rewrite Nat.sub_0_r.
  - destruct n as [|n]; [simpl in Hn; lia|].
    rewrite append_cons. simpl. rewrite IH by (simpl in Hn; lia). done.
Qed.

(** *** The markdown task file *)

(** What [sed] does to a line the pattern of a plain title matches. *)
Lemma sed_check_off_cases task line :
  (startsWith line ("- [ ] " +:+ task) = true ∧
   unchecked line = true ∧ checked line = false ∧
   unchecked (sed_check_off task line) = false ∧
   checked (sed_check_off task line) = true) ∨
  (startsWith line ("- [ ] " +:+ task) = false ∧
   sed_check_off task line = line).
Proof.
  unfold sed_check_off.
  destruct (startsWith line ("- [ ] " +:+ task)) eqn:Hm; [left|by right].
  split; [done|].
  assert (startsWith line "- [ ] " = true) as Hbox.
  { apply (startsWith_trans _ ("- [ ] " +:+ task)); [done|].
    apply startsWith_app. }
  pose proof (startsWith_split _ _ Hbox) as Hline.
  rewrite Hline. by repeat split.
Qed.

Lemma sed_plain_no_bracket task :
  sed_plain task = true → includes task "[" = false.
Proof.
  induction task as [|c task IH]; [done|]. cbn [sed_plain].
  intros [Hc Ht]%andb_prop. rewrite includes_char_cons, (IH Ht), orb_false_r.
  destruct (Ascii.eqb_spec "[" c) as [<-|]; [done|done].
Qed.

End ShellTextFacts.

Module ShellTextProperties.
Import Text Ralphy RalphyTasks TextFacts StreamingFacts ShellTextFacts.

(** For a task of one line of ASCII characters, the slug [slugify]
    makes has at most 50 characters, all of them among [a-z0-9] and the
    dash, does not start with a dash and has no two dashes in a row. *)
Theorem slugify_shape (task : string) :
  one_line task = true →
  ascii_text task = true →
  String.length (slugify task) ≤ 50 ∧
  slug_text (slugify task) = true ∧
  startsWith (slugify task) "-" = false ∧
  includes (slugify task) "--" = false.
Proof. intros Hline _. by apply slugify_shape_line. Qed.

(** [slugify_shape] on a title with capitals, blanks and brackets. *)
Lemma slugify_shape_witness :
  one_line "  Add OAuth2 login (Google)!" = true ∧
  ascii_text "  Add OAuth2 login (Google)!" = true ∧
  String.length (slugify "  Add OAuth2 login (Google)!") ≤ 50 ∧
  slug_text (slugify "  Add OAuth2 login (Google)!") = true ∧
  startsWith (slugify "  Add OAuth2 login (Google)!") "-" = false ∧
  includes (slugify "  Add OAuth2 login (Google)!") "--" = false.
Proof.
  split; [reflexivity|]. split; [reflexivity|].
  apply (slugify_shape "  Add OAuth2 login (Google)!"); reflexivity.
Defined.

Example slugify_title :
  slugify "  Add OAuth2 login (Google)!" = "add-oauth2-login-google".
Proof. reflexivity. Qed.

(** The cut to 50 characters comes after the dashes at the ends are
    removed, so a slug can end with a dash; and a title with no letter or
    digit, or one echo takes for an option, has the empty slug. *)
Example slugify_edges :
  slugify "a task whose title is cut right after a full word and goes on"
  = "a-task-whose-title-is-cut-right-after-a-full-word-" ∧
  slugify "???" = "" ∧ slugify "-n" = "".
Proof. repeat split. Qed.

(** What the caller of [create_task_branch] captures, for a task of one
    line, is the line [log_debug] printed (when [VERBOSE] is true), then
    what git printed on its standard output, then the branch name: the
    branch name alone exactly when [VERBOSE] is false and git printed
    nothing there. *)
Theorem task_branch_capture (VERBOSE : bool)
    (DIM RESET BASE_BRANCH git_out task : string) :
  one_line task = true →
  let branch_name := "ralphy/" +:+ slugify task in
  let debug :=
    log_debug VERBOSE DIM RESET
      ("Creating branch: " +:+ branch_name +:+ " from " +:+ BASE_BRANCH) in
  create_task_branch VERBOSE DIM RESET BASE_BRANCH git_out task
  = debug +:+ git_out +:+ branch_name ∧
  (create_task_branch VERBOSE DIM RESET BASE_BRANCH git_out task = branch_name
   ↔ VERBOSE = false ∧ git_out = "").
Proof.
  intros Hline branch_name debug.
  destruct (slugify_shape_line task Hline) as (_ & Hslug & _).
  match goal with |- ?A ∧ _ => assert A as Hcap end.
  { unfold create_task_branch. fold branch_name. fold debug.
    rewrite <- (append_assoc debug git_out (branch_name +:+ String nl "")).
    rewrite <- (append_assoc debug git_out branch_name).
    apply (captured_tail (debug +:+ git_out) branch_name); [|done].
    subst branch_name. rewrite one_line_app.
    by rewrite (slug_text_one_line _ Hslug). }
  split; [exact Hcap|]. rewrite Hcap. split.
  - rewrite <- append_assoc. intros Heq%append_eq_self.
    subst debug. unfold log_debug in Heq.
    destruct VERBOSE.
    + apply (f_equal String.length) in Heq.
      rewrite !string_length_app in Heq. simpl in Heq. lia.
    + by destruct git_out.
  - by intros [-> ->].
Qed.

(** [task_branch_capture] when git says that there was nothing to
    stash. *)
Lemma task_branch_capture_witness :
  let git_out := "No local changes to save" +:+ String nl "" in
  one_line "Add login" = true ∧
  create_task_branch false "" "" "main" git_out "Add login"
  = log_debug false "" ""
      ("Creating branch: " +:+ ("ralphy/" +:+ slugify "Add login")
       +:+ " from " +:+ "main")
    +:+ git_out +:+ "ralphy/" +:+ slugify "Add login" ∧
  (create_task_branch false "" "" "main" git_out "Add login"
   = "ralphy/" +:+ slugify "Add login"
   ↔ false = false ∧ git_out = "").
Proof.
  split; [reflexivity|].
  apply (task_branch_capture false "" "" "main"
           ("No local changes to save" +:+ String nl "") "Add login").
  reflexivity.
Defined.

Example verbose_task_branch :
  create_task_branch true "" "" "main" "" "Add login"
  = "[DEBUG] Creating branch: ralphy/add-login from main" +:+ String nl ""
    +:+ "ralphy/add-login" ∧
  create_task_branch false "" "" "main" "" "Add login" = "ralphy/add-login".
Proof. split; reflexivity. Qed.

(** [run_parallel_agent] reads back from what [create_agent_worktree]
    printed the branch name the function made, whatever git printed
    before it.  The worktree directory it reads back is all that was
    printed before the first bar: what git printed on its standard output
    followed by the directory, so the directory itself exactly when git
    printed nothing there. *)
Theorem worktree_info_read_back (WORKTREE_BASE git_out task_name : string)
    (agent_num : Z) :
  one_line task_name = true → (0 ≤ agent_num)%Z →
  let info := create_agent_worktree WORKTREE_BASE git_out task_name agent_num in
  branch_name_of info = agent_branch_name task_name agent_num ∧
  (includes git_out "|" = false → includes WORKTREE_BASE "|" = false →
   worktree_dir_of info
   = git_out +:+ agent_worktree_dir WORKTREE_BASE agent_num ∧
   (worktree_dir_of info = agent_worktree_dir WORKTREE_BASE agent_num ↔
    git_out = "")).
Proof.
  intros Hline Hnum. cbv zeta.
  destruct (slugify_shape_line task_name Hline) as (_ & Hslug & _).
  destruct (decimal_digits agent_num Hnum) as [Hdigits _].
  assert (one_line (agent_branch_name task_name agent_num) = true) as Hbranch.
  { unfold agent_branch_name. rewrite !one_line_app.
    by rewrite (all_digits_one_line _ Hdigits), (slug_text_one_line _ Hslug). }
  assert (includes (agent_branch_name task_name agent_num) "|" = false)
    as Hnobar.
  { unfold agent_branch_name. rewrite !includes_char_app.
    rewrite (all_digits_no_char _ "|" Hdigits) by done.
    by rewrite (slug_text_no_char _ "|" Hslug). }
  assert (create_agent_worktree WORKTREE_BASE git_out task_name agent_num
          = (git_out +:+ agent_worktree_dir WORKTREE_BASE agent_num)
            +:+ String "|" (agent_branch_name task_name agent_num)) as Hinfo.
  { unfold create_agent_worktree.
    rewrite <- (captured_line _ Hbranch) at 2.
    rewrite <- captured_app_keep by done. by rewrite append_assoc. }
  rewrite Hinfo. unfold branch_name_of, worktree_dir_of.
  split; [by apply after_last_app|].
  intros Hgit Hbase.
  match goal with |- ?A ∧ _ => assert A as Hdir end.
  { apply before_first_app. unfold agent_worktree_dir.
    rewrite !includes_char_app, Hgit, Hbase.
    by rewrite (all_digits_no_char _ "|" Hdigits). }
  split; [exact Hdir|]. rewrite Hdir. split; [|by intros ->].
  apply append_eq_self.
Qed.

(** [worktree_info_read_back] on a git that reports the new HEAD. *)
Lemma worktree_info_read_back_witness :
  let info := create_agent_worktree "/tmp/wt" MoreExamples.git_says
                "Add login" 1 in
  one_line "Add login" = true ∧ (0 ≤ 1)%Z ∧
  includes MoreExamples.git_says "|" = false ∧
  includes "/tmp/wt" "|" = false ∧
  branch_name_of info = agent_branch_name "Add login" 1 ∧
  worktree_dir_of info
  = MoreExamples.git_says +:+ agent_worktree_dir "/tmp/wt" 1 ∧
  (worktree_dir_of info = agent_worktree_dir "/tmp/wt" 1 ↔
   MoreExamples.git_says = "").
Proof.
  cbv zeta.
  split; [reflexivity|]. split; [lia|]. split; [reflexivity|].
  split; [reflexivity|].
  destruct (worktree_info_read_back "/tmp/wt" MoreExamples.git_says
              "Add login" 1 eq_refl ltac:(lia)) as [Hbranch Hdir].
  split; [exact Hbranch|]. exact (Hdir eq_refl eq_refl).
Defined.

Example worktree_info_with_git_output :
  let info := create_agent_worktree "/tmp/wt" MoreExamples.git_says
                "Add login" 1 in
  branch_name_of info = "ralphy/agent-1-add-login" ∧
  worktree_dir_of info
  = "HEAD is now at f9e8ce4 first commit" +:+ String nl "/tmp/wt/agent-1" ∧
  worktree_dir_of (create_agent_worktree "/tmp/wt" "" "Add login" 1)
  = "/tmp/wt/agent-1".
Proof. repeat split. Qed.

End ShellTextProperties.

Module TaskFileFacts.
Import Text Ralphy RalphyTasks TextFacts StreamingFacts ShellTextFacts.

(** The pending tasks after [sed] has run are those of the lines its
    pattern does not match. *)
Lemma filter_unchecked_sed task lines :
  List.filter unchecked (sed_check_off task <$> lines)
  = List.filter unchecked
      (List.filter (fun l => negb (startsWith l ("- [ ] " +:+ task))) lines).
Proof.
  induction lines as [|l lines IH]; [done|].
  rewrite fmap_cons. cbn [List.filter].
  destruct (sed_check_off_cases task l)
    as [(-> & _ & _ & -> & _)|[-> ->]]; cbn [negb List.filter];
    by rewrite IH.
Qed.

Lemma length_filter_checked_sed task lines :
  length (List.filter checked (sed_check_off task <$> lines))
  = length (List.filter checked lines)
    + length (List.filter (fun l => startsWith l ("- [ ] " +:+ task)) lines).
Proof.
  induction lines as [|l lines IH]; [done|].
  rewrite fmap_cons. cbn [List.filter].
  destruct (sed_check_off_cases task l)
    as [(-> & _ & -> & _ & ->)|[-> ->]]; cbn [length].
  - rewrite IH. lia.
  - destruct (checked l); cbn [length]; by rewrite IH.
Qed.

(** A pending line whose title is a plain [task] starts with the box and
    the title. *)
Lemma strip_box_plain task line :
  sed_plain task = true → unchecked line = true → strip_box line = task →
  startsWith line ("- [ ] " +:+ task) = true.
Proof.
  intros Hplain Hun. unfold strip_box.
  destruct (startsWith line "- [ ] ") eqn:Hbox.
  - intros <-. rewrite (startsWith_split _ _ Hbox) at 1.
    apply startsWith_refl.
  - intros ->. exfalso.
    pose proof (sed_plain_no_bracket _ Hplain) as Hno.
    unfold unchecked in Hun. apply startsWith_split in Hun.
    rewrite Hun in Hno. by rewrite includes_char_app in Hno.
Qed.

End TaskFileFacts.

Module TaskFileProperties.
Import Text Ralphy RalphyTasks TextFacts StreamingFacts ShellTextFacts.
Import TaskFileFacts.

(** For a plain title (ASCII characters, none of them special to sed)
    [mark_task_complete_markdown] succeeds, and it checks off every
    pending line that starts with the title, not only the line of the
    title: afterwards the pending tasks are those of the lines that do
    not start with ["- [ ] " + title], each checked-off line counts as
    completed, and the title itself is no longer pending. *)
Theorem marking_goes_by_title_prefix (task : string) (lines : list string) :
  sed_plain task = true →
  ∃ lines',
    mark_task_complete_markdown task lines = sed_done lines' ∧
    get_tasks_markdown (Some lines')
    = get_tasks_markdown
        (Some (List.filter
                 (fun l => negb (startsWith l ("- [ ] " +:+ task))) lines)) ∧
    length (List.filter checked lines')
    = length (List.filter checked lines)
      + length (List.filter
                  (fun l => startsWith l ("- [ ] " +:+ task)) lines) ∧
    task ∉ get_tasks_markdown (Some lines').
Proof.
  intros Hplain. exists (sed_check_off task <$> lines).
  split; [by apply RalphyFacts.mark_task_complete_markdown_plain|].
  unfold get_tasks_markdown. rewrite filter_unchecked_sed.
  split; [done|]. split; [apply length_filter_checked_sed|].
  intros (line & Htitle & Hin)%list_elem_of_fmap.
  apply list_elem_of_In, List.filter_In in Hin as [Hin Hun].
  apply List.filter_In in Hin as [_ Hnot].
  by rewrite (strip_box_plain task line Hplain Hun) in Hnot.
Qed.

(** [marking_goes_by_title_prefix] on a file in which one title begins
    like another. *)
Lemma marking_goes_by_title_prefix_witness :
  sed_plain "add login" = true ∧
  ∃ lines',
    mark_task_complete_markdown "add login" MoreExamples.login_prd
    = sed_done lines' ∧
    get_tasks_markdown (Some lines')
    = get_tasks_markdown
        (Some (List.filter
                 (fun l => negb (startsWith l ("- [ ] " +:+ "add login")))
                 MoreExamples.login_prd)) ∧
    length (List.filter checked lines')
    = length (List.filter checked MoreExamples.login_prd)
      + length (List.filter (fun l => startsWith l ("- [ ] " +:+ "add login"))
                  MoreExamples.login_prd) ∧
    "add login" ∉ get_tasks_markdown (Some lines').
Proof.
  split; [reflexivity|].
  apply (marking_goes_by_title_prefix "add login" MoreExamples.login_prd).
  reflexivity.
Defined.

Example marking_one_of_two :
  get_tasks_markdown (Some MoreExamples.login_prd)
  = ["add login"; "add login tests"; "add logout"] ∧
  mark_task_complete_markdown "add login" MoreExamples.login_prd
  = sed_done ["# Tasks"; "- [x] add login"; "- [x] set up the project";
              "- [x] add login tests"; "- [ ] add logout"] ∧
  get_tasks_markdown
    (Some ["# Tasks"; "- [x] add login"; "- [x] set up the project";
           "- [x] add login tests"; "- [ ] add logout"])
  = ["add logout"].
Proof. repeat split; reflexivity. Qed.

(** A title with a character the escaping step rewrites is another
    matter: the backslash makes an operator of [( ) | + ? {]. *)
Example marking_titles_that_are_not_plain :
  mark_task_complete_markdown "fix (urgent)"
    ["- [ ] fix (urgent)"; "- [ ] fix urgent"]
  = sed_done ["- [ ] fix (urgent)"; "- [x] fix (urgent)"] ∧
  mark_task_complete_markdown "use a{b}" ["- [ ] use a{b}"] = sed_failed ∧
  mark_task_complete_markdown "a/b" ["- [ ] a/b"] = sed_unread.
Proof. repeat split; reflexivity. Qed.

(** The count [count_remaining_markdown] or [count_completed_markdown]
    hands to its caller is the number of lines that start with the box
    when there is one; with none it is two lines, [0] and [0] (grep prints
    the zero and fails, and the script prints another); with no task file
    it is [0]. *)
Theorem count_markdown_output (prd : option (list string)) :
  let printed (n : nat) : string :=
    if Nat.eqb n 0 then "0" +:+ String nl "0"
    else Ref.decimal (Z.of_nat n) in
  count_remaining_markdown prd
  = match prd with
    | Some lines => printed (length (List.filter unchecked lines))
    | None => "0"
    end ∧
  count_completed_markdown prd
  = match prd with
    | Some lines => printed (length (List.filter checked lines))
    | None => "0"
    end.
Proof.
  cbv zeta.
  assert (∀ selected,
            captured_or (grep_c selected prd) "0"
            = match prd with
              | Some lines =>
                  if Nat.eqb (length (List.filter selected lines)) 0
                  then "0" +:+ String nl "0"
                  else Ref.decimal
                         (Z.of_nat (length (List.filter selected lines)))
              | None => "0"
              end) as Hcount.
  { intros selected. destruct prd as [lines|]; [|done].
    unfold grep_c, captured_or. cbn [fst snd piped].
    destruct (Nat.eqb_spec (length (List.filter selected lines)) 0) as [->|_].
    - done.
    - cbn [negb]. apply captured_line, all_digits_one_line.
      apply decimal_digits. lia. }
  split; apply Hcount.
Qed.

Example count_completed_none :
  count_completed_markdown (Some ["# Tasks"; "- [ ] add login"])
  = "0" +:+ String nl "0" ∧
  count_remaining_markdown (Some ["# Tasks"; "- [ ] add login"]) = "1" ∧
  count_remaining_markdown None = "0".
Proof. repeat split. Qed.

(** The issue [mark_task_complete_github] closes is the one the task line
    was made from: the number before the first colon of a line of
    [get_tasks_github], also after [get_next_task_github] has cut the line
    to 50 characters. *)
Theorem issue_number_is_read_back (number : Z) (title : string) :
  (0 ≤ number)%Z →
  issue_num (issue_line (number, title)) = Ref.decimal number ∧
  (String.length (Ref.decimal number) < 50 →
   issue_num (get_next_task_github (number, title)) = Ref.decimal number).
Proof.
  intros Hn. destruct (decimal_digits number Hn) as [Hdigits _].
  pose proof (all_digits_no_char _ ":" Hdigits eq_refl) as Hnocolon.
  unfold issue_num, issue_line. cbn [fst snd].
  split; [by apply before_first_app|].
  intros Hlen. unfold get_next_task_github, issue_line. cbn [fst snd piped].
  change (":" +:+ title) with (String ":" title).
  rewrite substring_to_app by lia.
  destruct (50 - String.length (Ref.decimal number)) as [|k] eqn:Hk; [lia|].
  cbn [substring_to]. rewrite append_assoc, append_cons.
  rewrite captured_app_keep by done.
  by apply before_first_app.
Qed.

(** [issue_number_is_read_back] on issue 12, with a long title. *)
Lemma issue_number_is_read_back_witness :
  (0 ≤ 12)%Z ∧ String.length (Ref.decimal 12) < 50 ∧
  issue_num (issue_line
               (12%Z, "fix the parser: it stops at the first colon it sees"))
  = Ref.decimal 12 ∧
  issue_num (get_next_task_github
               (12%Z, "fix the parser: it stops at the first colon it sees"))
  = Ref.decimal 12.
Proof.
  split; [lia|]. split; [simpl; lia|].
  destruct (issue_number_is_read_back 12
              "fix the parser: it stops at the first colon it sees"
              ltac:(lia)) as [Hline Hnext].
  split; [exact Hline|]. apply Hnext. simpl. lia.
Defined.

End TaskFileProperties.

(** ** The markdown-folder task source: scanning, listing, counting *)

Module MarkdownFolderSourceFacts.
Import Text JS MarkdownFolder MarkdownFolderSource.
Import TextFacts StreamingFacts ShellTextFacts MarkdownFolderFacts.

Section WithRuntime.
Context `{RT : Runtime} `{PT : Paths}.

(** *** [scanForMarkdownFiles] *)

Lemma statSync_isFile_spec d path :
  statSync_isFile d path = Throw ∨
  statSync_isFile d path
  = Ok (bool_decide (is_Some (files d !! path))).
Proof.
  unfold statSync_isFile. destruct (files d !! path) eqn:Hf.
  - right. by rewrite bool_decide_true.
  - destruct (folders d !! path); [right|by left].
    rewrite bool_decide_false; [done|]. by intros [? ?].
Qed.

(** The loop pushes the paths of the markdown files among the entries it
    gets to look at, in their order. *)
Lemma scan_entries_spec d folder entries found :
  scan_entries d folder entries found
  = found
    ++ (path_join folder
          <$> List.filter (markdown_file d folder)
                (entries_seen d folder entries)).
Proof.
  revert found. induction entries as [|entry rest IH]; intros found.
  { simpl. by rewrite app_nil_r. }
  cbn [scan_entries entries_seen].
  destruct (statSync_isFile_spec d (path_join folder entry)) as [->| ->].
  { simpl. by rewrite app_nil_r. }
  rewrite IH. cbn [List.filter]. unfold markdown_file at 2.
  rewrite (andb_comm (endsWith entry ".md")).
  destruct (_ && _); [|done].
  by rewrite fmap_cons, <- app_assoc.
Qed.

(** *** Task ids *)

Lemma lastIndexOf_none c s :
  includes s (String c "") = false → lastIndexOf c s = None.
Proof.
  induction s as [|a s IH]; [done|].
  rewrite includes_char_cons. intros [Ha Hs]%orb_false_elim.
  cbn [lastIndexOf]. rewrite (IH Hs). by rewrite Ascii.eqb_sym, Ha.
Qed.

Lemma lastIndexOf_app c s t :
  includes t (String c "") = false →
  lastIndexOf c (s +:+ String c t) = Some (String.length s).
Proof.
  intros Ht. induction s as [|a s IH].
  - change ("" +:+ String c t) with (String c t).
    cbn [lastIndexOf String.length].
    by rewrite (lastIndexOf_none _ _ Ht), Ascii.eqb_refl.
  - rewrite append_cons. cbn [lastIndexOf String.length]. by rewrite IH.
Qed.

Lemma substring_to_length s t : substring_to (String.length s) (s +:+ t) = s.
Proof. induction s as [|a s IH]; [done|]. simpl. by rewrite IH. Qed.

Lemma substring_from_length s t :
  substring_from (String.length s) (s +:+ t) = t.
Proof. induction s as [|a s IH]; [done|]. simpl. by rewrite IH. Qed.

Lemma append_inv_head s t u : s +:+ t = s +:+ u → t = u.
Proof.
  induction s as [|a s IH]; [done|]. rewrite !append_cons.
  intros [= H]. by apply IH.
Qed.

(** An id made of a name, a colon and a text without colon is taken
    apart again. *)
Lemma parseTaskId_app folder name number :
  includes number ":" = false →
  parseTaskId folder (name +:+ String ":" number)
  = Ok (path_join folder name, parseInt10 number).
Proof.
  intros Hnumber. unfold parseTaskId.
  rewrite (lastIndexOf_app _ _ _ Hnumber), substring_to_length.
  replace (String.length name + 1) with (S (String.length name)) by lia.
  assert (∀ n s, substring_from (S n) s = substring_from 1 (substring_from n s))
    as Hstep.
  { intros n. induction n as [|n IHn]; intros s'; [done|].
    destruct s' as [|a s']; [done|]. apply (IHn s'). }
  by rewrite Hstep, substring_from_length.
Qed.

Lemma parseTaskId_createTaskId folder filePath lineNumber :
  (0 ≤ lineNumber)%Z →
  parseTaskId folder (createTaskId filePath lineNumber)
  = Ok (path_join folder (basename filePath),
        parseInt10 (Ref.decimal lineNumber)).
Proof.
  intros Hn. unfold createTaskId.
  change (":" +:+ Ref.decimal lineNumber)
    with (String ":" (Ref.decimal lineNumber)).
  apply parseTaskId_app.
  destruct (decimal_digits lineNumber Hn) as [Hdigits _].
  by apply all_digits_no_char.
Qed.

(** *** [getAllTasks] *)

Lemma incomplete_match_spec line text :
  incomplete_match line = Some text ↔
  line = "- [ ] " +:+ text ∧ is_empty text = false
  ∧ no_line_terminator text = true.
Proof.
  unfold incomplete_match. split.
  - destruct (startsWith line "- [ ] ") eqn:Hbox; [|done].
    destruct (is_empty (substring_from 6 line)) eqn:Hne; [done|].
    destruct (no_line_terminator (substring_from 6 line)) eqn:Hnt; [|done].
    intros [= <-]. split; [|done].
    by apply (startsWith_split line "- [ ] ").
  - intros (-> & Hne & Hnt).
    change (startsWith ("- [ ] " +:+ text) "- [ ] ") with true.
    change (substring_from 6 ("- [ ] " +:+ text)) with text.
    by rewrite Hne, Hnt.
Qed.

Lemma incomplete_match_checked text :
  incomplete_match ("- [x] " +:+ text) = None.
Proof. done. Qed.

(** The tasks of a file: one for each line that matches, numbered from
    one. *)
Lemma line_tasks_elem filePath i lines t :
  t ∈ line_tasks filePath i lines ↔
  ∃ j line text,
    lines !! j = Some line ∧ incomplete_match line = Some text ∧
    t = {| id := createTaskId filePath (Z.of_nat (i + j) + 1);
           title := trim text; completed := false |}.
Proof.
  revert i. induction lines as [|line lines IH]; intros i.
  { split; [by intros ?%elem_of_nil|by intros (j & ? & ? & ? & _)]. }
  cbn [line_tasks].
  assert (t ∈ line_tasks filePath (S i) lines ↔
          ∃ j line' text,
            (line :: lines) !! S j = Some line' ∧
            incomplete_match line' = Some text ∧
            t = {| id := createTaskId filePath (Z.of_nat (i + S j) + 1);
                   title := trim text; completed := false |}) as Hrest.
  { rewrite IH. split; intros (j & line' & text & Hj & Hm & ->);
      exists j, line', text; (split; [done|]); (split; [done|]);
      do 3 f_equal; lia. }
  destruct (incomplete_match line) as [text|] eqn:Hline.
  - rewrite elem_of_cons, Hrest. split.
    + intros [->|(j & line' & text' & Hj & Hm & ->)].
      * exists 0, line, text. rewrite Nat.add_0_r. by eauto.
      * exists (S j), line', text'. by eauto.
    + intros ([|j] & line' & text' & Hj & Hm & ->).
      * left. injection Hj as <-. rewrite Hline in Hm. injection Hm as <-.
        by rewrite Nat.add_0_r.
      * right. by eauto 10.
  - rewrite Hrest. split.
    + intros (j & line' & text' & Hj & Hm & ->). by eauto 10.
    + intros ([|j] & line' & text' & Hj & Hm & ->).
      * injection Hj as <-. by rewrite Hline in Hm.
      * by eauto 10.
Qed.

Lemma file_tasks_acc fs files acc :
  file_tasks fs files acc
  = bind (file_tasks fs files []) (fun ts => Ok (acc ++ ts)).
Proof.
  revert acc. induction files as [|p files IH]; intros acc.
  { simpl. by rewrite app_nil_r. }
  cbn [file_tasks]. destruct (readFileSync fs p) as [content|]; [|done].
  cbn [bind]. rewrite (IH (acc ++ _)), (IH ([] ++ _)).
  destruct (file_tasks fs files []) as [ts|]; [|done]. simpl.
  by rewrite app_assoc.
Qed.

Lemma file_tasks_cons fs p files :
  file_tasks fs (p :: files) []
  = bind (readFileSync fs p) (fun content =>
      bind (file_tasks fs files []) (fun later =>
        Ok (line_tasks p 0 (split_nl content) ++ later))).
Proof.
  cbn [file_tasks]. destruct (readFileSync fs p) as [content|]; [|done].
  cbn [bind]. by rewrite file_tasks_acc.
Qed.

(** Every listed task comes from a line of a listed file. *)
Lemma file_tasks_elem fs files tasks t :
  file_tasks fs files [] = Ok tasks →
  t ∈ tasks ↔
  ∃ p content, p ∈ files ∧ fs !! p = Some content ∧
               t ∈ line_tasks p 0 (split_nl content).
Proof.
  revert tasks. induction files as [|p files IH]; intros tasks.
  { intros [= <-]. split; [by intros ?%elem_of_nil|].
    by intros (? & ? & ?%elem_of_nil & _). }
  rewrite file_tasks_cons. unfold readFileSync.
  destruct (fs !! p) as [content|] eqn:Hp; [|done]. cbn [bind].
  destruct (file_tasks fs files []) as [later|] eqn:Hlater; [|done].
  cbn [bind]. intros [= <-]. rewrite elem_of_app, (IH later eq_refl). split.
  - intros [Ht|(q & c & Hq & Hc & Ht)].
    + exists p, content. split; [by left|done].
    + exists q, c. split; [by right|done].
  - intros (q & c & [->|Hq]%elem_of_cons & Hc & Ht).
    + left. rewrite Hp in Hc. by injection Hc as <-.
    + right. by eauto.
Qed.

(** *** Ids, for a source whose paths and numbers are read back

    The two laws of the runtime the source relies on: the base name of a
    listed path, joined to the folder, is that path; and a line number
    printed in decimal is parsed back. *)

Section WithLaws.
Variable src : source.
Hypothesis basename_join :
  ∀ p, p ∈ markdownFiles src → path_join (folderPath src) (basename p) = p.
Hypothesis parseInt10_decimal :
  ∀ n, (0 < n)%Z → parseInt10 (Ref.decimal n) = Some n.

Lemma createTaskId_resolves filePath lineNumber :
  filePath ∈ markdownFiles src → (0 < lineNumber)%Z →
  parseTaskId (folderPath src) (createTaskId filePath lineNumber)
  = Ok (filePath, Some lineNumber).
Proof using All.
  intros Hp Hn. rewrite parseTaskId_createTaskId by lia.
  by rewrite (basename_join _ Hp), (parseInt10_decimal _ Hn).
Qed.

(** Two ids of listed files are the same only for the same file and
    line. *)
Lemma createTaskId_inj p n q m :
  p ∈ markdownFiles src → q ∈ markdownFiles src →
  (0 < n)%Z → (0 < m)%Z →
  createTaskId p n = createTaskId q m → p = q ∧ n = m.
Proof using All.
  intros Hp Hq Hn Hm Heq.
  pose proof (createTaskId_resolves p n Hp Hn) as H1.
  rewrite Heq, (createTaskId_resolves q m Hq Hm) in H1.
  by injection H1 as -> ->.
Qed.

(** Checking off line [j] of a file removes the task of that line from
    the tasks of the file, and no other. *)
Lemma line_tasks_insert p i lines j text :
  p ∈ markdownFiles src →
  lines !! j = Some ("- [ ] " +:+ text) →
  incomplete_match ("- [ ] " +:+ text) = Some text →
  line_tasks p i (<[j := "- [x] " +:+ text]> lines)
  = List.filter
      (fun u => negb (String.eqb (id u)
                        (createTaskId p (Z.of_nat (i + j) + 1))))
      (line_tasks p i lines).
Proof using All.
  intros Hp. revert i j.
  induction lines as [|line lines IH]; intros i j Hj Hm; [done|].
  destruct j as [|j].
  - injection Hj as ->.
    change (<[0 := "- [x] " +:+ text]> (("- [ ] " +:+ text) :: lines))
      with (("- [x] " +:+ text) :: lines).
    cbn [line_tasks].
    rewrite incomplete_match_checked, Hm. cbn [List.filter id].
    rewrite Nat.add_0_r, String.eqb_refl. cbn [negb].
    symmetry. apply forallb_filter_id.
    rewrite forallb_forall. intros u Hu%list_elem_of_In.
    apply line_tasks_elem in Hu as (k & line' & text' & _ & _ & ->).
    cbn [id]. apply negb_true_iff, String.eqb_neq. intros Heq.
    apply createTaskId_inj in Heq as [_ Heq]; [lia|done|done|lia|lia].
  - change (<[S j := "- [x] " +:+ text]> (line :: lines))
      with (line :: <[j := "- [x] " +:+ text]> lines).
    cbn [line_tasks]. simpl in Hj.
    rewrite (IH (S i) j Hj Hm).
    replace (Z.of_nat (S i + j)) with (Z.of_nat (i + S j)) by lia.
    destruct (incomplete_match line) as [text'|]; [|done].
    cbn [List.filter id].
    destruct (String.eqb_spec (createTaskId p (Z.of_nat i + 1))
                (createTaskId p (Z.of_nat (i + S j) + 1))) as [Heq|_];
      [|done].
    apply createTaskId_inj in Heq as [_ Heq]; [lia|done|done|lia|lia].
Qed.

(** The tasks of another listed file have other ids. *)
Lemma line_tasks_other p i lines q n :
  p ∈ markdownFiles src → q ∈ markdownFiles src → p ≠ q → (0 < n)%Z →
  List.filter (fun u => negb (String.eqb (id u) (createTaskId q n)))
    (line_tasks p i lines)
  = line_tasks p i lines.
Proof using All.
  intros Hp Hq Hne Hn. apply forallb_filter_id.
  rewrite forallb_forall. intros u Hu%list_elem_of_In.
  apply line_tasks_elem in Hu as (k & line' & text' & _ & _ & ->).
  cbn [id]. apply negb_true_iff, String.eqb_neq. intros Heq.
  apply createTaskId_inj in Heq as [Heq _]; [done|done|done|lia|lia].
Qed.

(** A listed task comes from a line of a listed file, and its id names
    them. *)
Lemma listed_task_resolves fs tasks t :
  getAllTasks src fs = Ok tasks → t ∈ tasks →
  ∃ filePath content j text,
    filePath ∈ markdownFiles src ∧ fs !! filePath = Some content ∧
    split_nl content !! j = Some ("- [ ] " +:+ text) ∧
    incomplete_match ("- [ ] " +:+ text) = Some text ∧
    t = {| id := createTaskId filePath (Z.of_nat j + 1);
           title := trim text; completed := false |} ∧
    parseTaskId (folderPath src) (id t)
    = Ok (filePath, Some (Z.of_nat j + 1)%Z).
Proof using All.
  unfold getAllTasks. intros Hall Ht.
  apply (file_tasks_elem _ _ _ _ Hall) in Ht as (p & content & Hp & Hc & Ht).
  apply line_tasks_elem in Ht as (j & line & text & Hj & Hm & ->).
  pose proof Hm as (-> & _ & _)%incomplete_match_spec.
  exists p, content, j, text. do 4 (split; [done|]). split; [done|].
  cbn [id]. apply createTaskId_resolves; [done|lia].
Qed.

(** [markComplete] on the id of a line that is an unchecked box. *)
Lemma markComplete_listed fs filePath content j text :
  filePath ∈ markdownFiles src → fs !! filePath = Some content →
  split_nl content !! j = Some ("- [ ] " +:+ text) →
  markComplete (folderPath src) (createTaskId filePath (Z.of_nat j + 1)) fs
  = (<[filePath :=
         join_nl (<[j := "- [x] " +:+ text]> (split_nl content))]> fs,
     Ok tt).
Proof using All.
  intros Hp Hc Hj. unfold markComplete.
  rewrite createTaskId_resolves by (done || lia).
  unfold readFileSync, writeFileSync. rewrite Hc.
  pose proof (lookup_lt_Some _ _ _ Hj) as Hlt.
  cbn [fmap option_fmap option_map in_range default].
  assert ((0 <=? Z.of_nat j + 1 - 1)%Z
          && (Z.of_nat j + 1 - 1 <? Z.of_nat (length (split_nl content)))%Z
          = true) as -> by lia.
  unfold Datatypes.id.
  replace (Z.to_nat (Z.of_nat j + 1 - 1)) with j by lia.
  by rewrite (list_lookup_total_correct _ _ _ Hj).
Qed.

(** After the line is checked off, the files list what they listed
    before, without the task of that line. *)
Lemma file_tasks_marked fs files tasks filePath content j text :
  (∀ q, q ∈ files → q ∈ markdownFiles src) →
  filePath ∈ markdownFiles src → fs !! filePath = Some content →
  split_nl content !! j = Some ("- [ ] " +:+ text) →
  incomplete_match ("- [ ] " +:+ text) = Some text →
  file_tasks fs files [] = Ok tasks →
  file_tasks
    (<[filePath :=
         join_nl (<[j := "- [x] " +:+ text]> (split_nl content))]> fs)
    files []
  = Ok (List.filter
          (fun u => negb (String.eqb (id u)
                            (createTaskId filePath (Z.of_nat j + 1))))
          tasks).
Proof using All.
  intros Hfiles Hp Hc Hj Hm. revert tasks.
  induction files as [|q files IH]; intros tasks; [by intros [= <-]|].
  rewrite !file_tasks_cons. unfold readFileSync.
  assert (q ∈ markdownFiles src) as Hq by (apply Hfiles; by left).
  destruct (decide (q = filePath)) as [->|Hne].
  - rewrite lookup_insert_eq, Hc. cbn [bind].
    destruct (file_tasks fs files []) as [later|] eqn:Hlater; [|done].
    cbn [bind]. intros [= <-].
    rewrite (IH ltac:(intros; apply Hfiles; by right) later eq_refl).
    cbn [bind]. rewrite List.filter_app. do 2 f_equal.
    assert (check_off (split_nl content !!! j) = "- [x] " +:+ text) as Hoff
      by by rewrite (list_lookup_total_correct _ _ _ Hj).
    pose proof (split_join_insert content j (lookup_lt_Some _ _ _ Hj))
      as Hsplit.
    rewrite Hoff in Hsplit. rewrite Hsplit.
    by apply (line_tasks_insert filePath 0).
  - rewrite lookup_insert_ne by done.
    destruct (fs !! q) as [content'|]; [|done]. cbn [bind].
    destruct (file_tasks fs files []) as [later|] eqn:Hlater; [|done].
    cbn [bind]. intros [= <-].
    rewrite (IH ltac:(intros; apply Hfiles; by right) later eq_refl).
    cbn [bind]. rewrite List.filter_app. do 2 f_equal.
    symmetry. apply line_tasks_other; [done|done|done|lia].
Qed.

End WithLaws.

End WithRuntime.
End MarkdownFolderSourceFacts.


(** ** The reference runtime reads back what it prints *)

Module RefFacts.
Import Text JS.

Lemma digits_step c l acc n :
  Ref.is_digit c = true →
  Ref.digits (c :: l) acc n = Ref.digits l (acc * 10 + Ref.digit c)%Z (S n).
Proof. intros H. cbn [Ref.digits]. by rewrite H. Qed.

Lemma digits_string_acc d a n :
  Ref.digits
    (String.list_ascii_of_string (DecimalString.NilEmpty.string_of_uint d))
    (Z.pos a) n
  = (Z.pos (Pos.of_uint_acc d a),
     n + String.length (DecimalString.NilEmpty.string_of_uint d), []).
Proof.
  revert a n. induction d; intros a n;
    cbn [DecimalString.NilEmpty.string_of_uint String.list_ascii_of_string
         Pos.of_uint_acc String.length];
    [by rewrite Nat.add_0_r|..];
    rewrite digits_step by done;
    match goal with
    | |- context [Pos.of_uint_acc d ?x] =>
        match goal with
        | |- Ref.digits _ ?acc _ = _ =>
            replace acc with (Z.pos x)
              by (change (Ref.digit _) with 0%Z || change (Ref.digit _) with 1%Z
                  || change (Ref.digit _) with 2%Z || change (Ref.digit _) with 3%Z
                  || change (Ref.digit _) with 4%Z || change (Ref.digit _) with 5%Z
                  || change (Ref.digit _) with 6%Z || change (Ref.digit _) with 7%Z
                  || change (Ref.digit _) with 8%Z || change (Ref.digit _) with 9%Z;
                  lia)
        end
    end;
    rewrite IHd; do 2 f_equal; lia.
Qed.

Lemma digits_string d n :
  Ref.digits
    (String.list_ascii_of_string (DecimalString.NilEmpty.string_of_uint d))
    0 n
  = (Z.of_N (Pos.of_uint d),
     n + String.length (DecimalString.NilEmpty.string_of_uint d), []).
Proof.
  revert n. induction d; intros n;
    cbn [DecimalString.NilEmpty.string_of_uint String.list_ascii_of_string
         Pos.of_uint String.length];
    [by rewrite Nat.add_0_r|..];
    rewrite digits_step by done.
  - change (0 * 10 + Ref.digit "0")%Z with 0%Z. rewrite IHd.
    do 2 f_equal. lia.
  - change (0 * 10 + Ref.digit "1")%Z with 1%Z.
    rewrite digits_string_acc. do 2 f_equal. lia.
  - change (0 * 10 + Ref.digit "2")%Z with 2%Z.
    rewrite digits_string_acc. do 2 f_equal. lia.
  - change (0 * 10 + Ref.digit "3")%Z with 3%Z.
    rewrite digits_string_acc. do 2 f_equal. lia.
  - change (0 * 10 + Ref.digit "4")%Z with 4%Z.
    rewrite digits_string_acc. do 2 f_equal. lia.
  - change (0 * 10 + Ref.digit "5")%Z with 5%Z.
    rewrite digits_string_acc. do 2 f_equal. lia.
  - change (0 * 10 + Ref.digit "6")%Z with 6%Z.
    rewrite digits_string_acc. do 2 f_equal. lia.
  - change (0 * 10 + Ref.digit "7")%Z with 7%Z.
    rewrite digits_string_acc. do 2 f_equal. lia.
  - change (0 * 10 + Ref.digit "8")%Z with 8%Z.
    rewrite digits_string_acc. do 2 f_equal. lia.
  - change (0 * 10 + Ref.digit "9")%Z with 9%Z.
    rewrite digits_string_acc. do 2 f_equal. lia.
Qed.

(** [Number.parseInt] of the reference runtime reads back a positive
    number printed in decimal. *)
Lemma ref_parseInt10_decimal n :
  (0 < n)%Z → Ref.parseInt10 (Ref.decimal n) = Some n.
Proof.
  intros Hn. destruct n as [|p|p]; [lia| |lia].
  unfold Ref.decimal.
  cbn [Z.to_int DecimalString.NilZero.string_of_int].
  pose proof (DecimalPos.Unsigned.to_uint_nonnil p) as Hnil.
  pose proof (DecimalPos.Unsigned.of_to p) as Hof.
  pose proof (digits_string (Pos.to_uint p) 0) as Hdigits.
  destruct (Pos.to_uint p) as [|d|d|d|d|d|d|d|d|d|d] eqn:Hd; [done|..];
    unfold Ref.parseInt10;
    cbn [DecimalString.NilZero.string_of_uint
         DecimalString.NilEmpty.string_of_uint Ref.trim_start];
    match goal with
    | |- context [Ref.is_space ?c] =>
        change (Ref.is_space c) with false; cbv iota
    end;
    cbn [DecimalString.NilEmpty.string_of_uint] in Hdigits;
    cbn [String.list_ascii_of_string] in Hdigits |- *;
    match goal with
    | |- context [(Ref.code ?c =? 45)] =>
        change (Ref.code c =? 45) with false;
        change (Ref.code c =? 43) with false; cbv iota
    end;
    rewrite Hdigits, Hof; by cbn [String.length Nat.add Nat.eqb].
Qed.

(** The base name of the reference runtime, of a name joined to a
    folder. *)
Lemma ref_basename_join folder entry :
  includes entry "/" = false →
  MarkdownFolderSource.ref_basename (Ref.path_join folder entry) = entry.
Proof.
  intros Hentry. unfold MarkdownFolderSource.ref_basename, Ref.path_join.
  change ("/" +:+ entry) with (String "/" entry).
  by apply ShellTextFacts.after_last_app.
Qed.

End RefFacts.

Module MarkdownFolderSourceProperties.
Import Text JS MarkdownFolder MarkdownFolderSource.
Import TextFacts StreamingFacts ShellTextFacts MarkdownFolderFacts.
Import MarkdownFolderSourceFacts RefFacts.

(** [scanForMarkdownFiles] lists, in the order of their characters, the
    paths of the entries of the folder that end in [.md] and are regular
    files, among the entries it gets to look at: none when the folder
    cannot be read, and only those before the first entry [statSync]
    throws on. *)
Theorem scan_finds_the_markdown_files `{RT : Runtime}
    (d : disk) (folder : string) :
  let seen :=
    match folders d !! folder with
    | Some entries => entries_seen d folder entries
    | None => []
    end in
  StronglySorted String.le (scanForMarkdownFiles d folder) ∧
  scanForMarkdownFiles d folder
  ≡ₚ path_join folder <$> List.filter (markdown_file d folder) seen.
Proof.
  cbv zeta. unfold scanForMarkdownFiles. split.
  - apply StronglySorted_merge_sort; apply _.
  - rewrite merge_sort_Permutation. unfold readdirSync.
    destruct (folders d !! folder) as [entries|]; [|done].
    by rewrite scan_entries_spec.
Qed.

Example scan_of_a_folder :
  scanForMarkdownFiles MoreExamples.folder_disk "prd"
  = ["prd/a.md"; "prd/b.md"] ∧
  scanForMarkdownFiles MoreExamples.folder_disk "nowhere" = [] ∧
  scanForMarkdownFiles MoreExamples.dangling_disk "prd" = ["prd/b.md"].
Proof. repeat split. Qed.

(** The id of every task [getAllTasks] lists is taken apart by
    [parseTaskId] into the path of the file the task was read from and the
    number of its line (from one): that line is an unchecked box, and the
    title of the task is its text, trimmed. *)
Theorem listed_ids_resolve `{RT : Runtime} `{PT : Paths}
    (src : source) (fs : gmap string string) (tasks : list Task) (t : Task) :
  (∀ p, p ∈ markdownFiles src →
        path_join (folderPath src) (basename p) = p) →
  (∀ n, (0 < n)%Z → parseInt10 (Ref.decimal n) = Some n) →
  getAllTasks src fs = Ok tasks → t ∈ tasks →
  ∃ filePath lineNumber content text,
    parseTaskId (folderPath src) (id t) = Ok (filePath, Some lineNumber) ∧
    filePath ∈ markdownFiles src ∧ fs !! filePath = Some content ∧
    (1 ≤ lineNumber)%Z ∧
    split_nl content !! Z.to_nat (lineNumber - 1)
    = Some ("- [ ] " +:+ text) ∧
    title t = trim text ∧ completed t = false.
Proof.
  intros Hpaths Hparse Hall Ht.
  destruct (listed_task_resolves src Hpaths Hparse fs tasks t Hall Ht)
    as (p & content & j & text & Hp & Hc & Hj & _ & -> & Hid).
  exists p, (Z.of_nat j + 1)%Z, content, text.
  split; [exact Hid|]. do 2 (split; [done|]). split; [lia|].
  replace (Z.to_nat (Z.of_nat j + 1 - 1)) with j by lia. done.
Qed.

(** [listed_ids_resolve] on the first task of a folder with two task
    files. *)
Lemma listed_ids_resolve_witness :
  let src := constructor MoreExamples.folder_disk "prd" in
  let fs := files MoreExamples.folder_disk in
  let t := {| id := "a.md:3"; title := "add login"; completed := false |} in
  (∀ p, p ∈ markdownFiles src →
        path_join (folderPath src) (basename p) = p) ∧
  (∀ n, (0 < n)%Z → parseInt10 (Ref.decimal n) = Some n) ∧
  getAllTasks src fs = Ok MoreExamples.folder_tasks ∧
  t ∈ MoreExamples.folder_tasks ∧
  ∃ filePath lineNumber content text,
    parseTaskId (folderPath src) (id t) = Ok (filePath, Some lineNumber) ∧
    filePath ∈ markdownFiles src ∧ fs !! filePath = Some content ∧
    (1 ≤ lineNumber)%Z ∧
    split_nl content !! Z.to_nat (lineNumber - 1)
    = Some ("- [ ] " +:+ text) ∧
    title t = trim text ∧ completed t = false.
Proof.
  cbv zeta.
  assert (∀ p, p ∈ markdownFiles (constructor MoreExamples.folder_disk "prd") →
               path_join (folderPath (constructor MoreExamples.folder_disk "prd"))
                 (basename p) = p) as Hpaths.
  { intros p Hp.
    change (markdownFiles (constructor MoreExamples.folder_disk "prd"))
      with ["prd/a.md"; "prd/b.md"] in Hp.
    apply elem_of_cons in Hp as [->|Hp]; [reflexivity|].
    apply list_elem_of_singleton in Hp as ->. reflexivity. }
  split; [exact Hpaths|]. split; [exact ref_parseInt10_decimal|].
  split; [reflexivity|].
  assert ({| id := "a.md:3"; title := "add login"; completed := false |}
          ∈ MoreExamples.folder_tasks) as Ht by (by left).
  split; [exact Ht|].
  exact (listed_ids_resolve (constructor MoreExamples.folder_disk "prd")
           (files MoreExamples.folder_disk) MoreExamples.folder_tasks
           {| id := "a.md:3"; title := "add login"; completed := false |}
           Hpaths ref_parseInt10_decimal eq_refl Ht).
Defined.

(** [markComplete] on the id of a task [getAllTasks] lists succeeds, and
    afterwards [getAllTasks] lists the same tasks with the same ids in the
    same order, but for that task. *)
Theorem marking_a_listed_task `{RT : Runtime} `{PT : Paths}
    (src : source) (fs : gmap string string) (tasks : list Task) (t : Task) :
  (∀ p, p ∈ markdownFiles src →
        path_join (folderPath src) (basename p) = p) →
  (∀ n, (0 < n)%Z → parseInt10 (Ref.decimal n) = Some n) →
  getAllTasks src fs = Ok tasks → t ∈ tasks →
  ∃ fs',
    markComplete (folderPath src) (id t) fs = (fs', Ok tt) ∧
    getAllTasks src fs'
    = Ok (List.filter (fun u => negb (String.eqb (id u) (id t))) tasks).
Proof.
  intros Hpaths Hparse Hall Ht.
  destruct (listed_task_resolves src Hpaths Hparse fs tasks t Hall Ht)
    as (p & content & j & text & Hp & Hc & Hj & Hm & -> & _).
  cbn [id]. eexists. split.
  - by apply (markComplete_listed src Hpaths Hparse fs p content j text).
  - by apply (file_tasks_marked src Hpaths Hparse fs (markdownFiles src)
                tasks p content j text).
Qed.

(** [marking_a_listed_task] on a task whose title is also in the other
    file. *)
Lemma marking_a_listed_task_witness :
  let src := constructor MoreExamples.folder_disk "prd" in
  let fs := files MoreExamples.folder_disk in
  let t := {| id := "a.md:3"; title := "add login"; completed := false |} in
  (∀ p, p ∈ markdownFiles src →
        path_join (folderPath src) (basename p) = p) ∧
  (∀ n, (0 < n)%Z → parseInt10 (Ref.decimal n) = Some n) ∧
  getAllTasks src fs = Ok MoreExamples.folder_tasks ∧
  t ∈ MoreExamples.folder_tasks ∧
  ∃ fs',
    markComplete (folderPath src) (id t) fs = (fs', Ok tt) ∧
    getAllTasks src fs'
    = Ok (List.filter (fun u => negb (String.eqb (id u) (id t)))
            MoreExamples.folder_tasks).
Proof.
  cbv zeta.
  assert (∀ p, p ∈ markdownFiles (constructor MoreExamples.folder_disk "prd") →
               path_join (folderPath (constructor MoreExamples.folder_disk "prd"))
                 (basename p) = p) as Hpaths.
  { intros p Hp.
    change (markdownFiles (constructor MoreExamples.folder_disk "prd"))
      with ["prd/a.md"; "prd/b.md"] in Hp.
    apply elem_of_cons in Hp as [->|Hp]; [reflexivity|].
    apply list_elem_of_singleton in Hp as ->. reflexivity. }
  split; [exact Hpaths|]. split; [exact ref_parseInt10_decimal|].
  split; [reflexivity|].
  assert ({| id := "a.md:3"; title := "add login"; completed := false |}
          ∈ MoreExamples.folder_tasks) as Ht by (by left).
  split; [exact Ht|].
  exact (marking_a_listed_task (constructor MoreExamples.folder_disk "prd")
           (files MoreExamples.folder_disk) MoreExamples.folder_tasks
           {| id := "a.md:3"; title := "add login"; completed := false |}
           Hpaths ref_parseInt10_decimal eq_refl Ht).
Defined.

Example list_mark_list :
  let src := constructor MoreExamples.folder_disk "prd" in
  let fs := files MoreExamples.folder_disk in
  bind (getAllTasks src fs) (fun ts => Ok (title <$> ts))
  = Ok ["add login"; "add logout"; "add login"] ∧
  bind (getAllTasks src (markComplete "prd" "a.md:3" fs).1)
    (fun ts => Ok (title <$> ts))
  = Ok ["add logout"; "add login"].
Proof. split; reflexivity. Qed.

End MarkdownFolderSourceProperties.

(** ** The markdown-folder task source: the two counts *)

Module CountFacts.
Import Text JS MarkdownFolder MarkdownFolderSource.
Import TextFacts MarkdownFolderFacts MarkdownFolderSourceFacts.

(** *** Where [^] matches *)

Lemma split_terminators_cons s : ∃ l ls, split_terminators s = l :: ls.
Proof.
  induction s as [|a s (l & ls & IH)]; simpl; [by eauto|].
  destruct (line_terminator a); [by eauto|]. rewrite IH. by eauto.
Qed.

Lemma split_terminators_plain s :
  no_line_terminator s = true → split_terminators s = [s].
Proof.
  induction s as [|a s IH]; [done|]. simpl.
  destruct (line_terminator a); [done|]. simpl. intros H. by rewrite IH.
Qed.

Lemma split_terminators_prefix p s l ls :
  no_line_terminator p = true → split_terminators s = l :: ls →
  split_terminators (p +:+ s) = (p +:+ l) :: ls.
Proof.
  intros Hp Hs. induction p as [|a p IH]; [done|].
  simpl in Hp |- *. destruct (line_terminator a); [done|].
  by rewrite (IH Hp).
Qed.

Lemma split_terminators_app s c t :
  line_terminator c = true →
  split_terminators (s +:+ String c t)
  = split_terminators s ++ split_terminators t.
Proof.
  intros Hc. induction s as [|a s IH].
  - simpl. by rewrite Hc.
  - rewrite append_cons. cbn [split_terminators]. rewrite IH.
    destruct (line_terminator a); [done|].
    by destruct (split_terminators_cons s) as (l & ls & ->).
Qed.

Lemma no_line_terminator_app a b :
  no_line_terminator (a +:+ b)
  = no_line_terminator a && no_line_terminator b.
Proof.
  induction a as [|c a IH]; [done|]. simpl. by rewrite IH, andb_assoc.
Qed.

(** *** [count_matches] *)

Lemma count_matches_nonneg prefixes content :
  (0 ≤ count_matches prefixes content)%Z.
Proof. unfold count_matches. lia. Qed.

Lemma count_matches_app prefixes s c t :
  line_terminator c = true →
  count_matches prefixes (s +:+ String c t)
  = (count_matches prefixes s + count_matches prefixes t)%Z.
Proof.
  intros Hc. unfold count_matches.
  rewrite (split_terminators_app _ _ _ Hc), List.filter_app, length_app.
  lia.
Qed.

(** The matches of a text are those of its lines. *)
Lemma count_matches_join prefixes ls :
  ls ≠ [] →
  count_matches prefixes (join_nl ls)
  = foldr (fun l n => (count_matches prefixes l + n)%Z) 0%Z ls.
Proof.
  induction ls as [|l ls IH]; [done|]. intros _.
  destruct ls as [|l' ls]; [simpl; lia|].
  rewrite join_nl_cons, count_matches_app by done.
  rewrite IH by done. done.
Qed.

Lemma count_matches_lines prefixes content :
  count_matches prefixes content
  = foldr (fun l n => (count_matches prefixes l + n)%Z) 0%Z
      (split_nl content).
Proof.
  rewrite <- (join_split content) at 1.
  apply count_matches_join, split_nl_not_nil.
Qed.

Lemma sum_insert (f : string → Z) ls i x :
  i < length ls →
  foldr (fun l n => (f l + n)%Z) 0%Z (<[i := x]> ls)
  = (foldr (fun l n => (f l + n)%Z) 0%Z ls - f (ls !!! i) + f x)%Z.
Proof.
  revert i. induction ls as [|l ls IH]; intros i Hi; [simpl in Hi; lia|].
  destruct i as [|i].
  - change (<[0 := x]> (l :: ls)) with (x :: ls).
    change ((l :: ls) !!! 0) with l. simpl. lia.
  - change (<[S i := x]> (l :: ls)) with (l :: <[i := x]> ls).
    change ((l :: ls) !!! S i) with (ls !!! i).
    cbn [foldr]. rewrite IH by (simpl in Hi; lia). lia.
Qed.

(** A line without carriage return is one place for a match. *)
Lemma count_matches_plain prefixes l :
  no_line_terminator l = true →
  count_matches prefixes l
  = if existsb (startsWith l) prefixes then 1%Z else 0%Z.
Proof.
  intros Hl. unfold count_matches. rewrite (split_terminators_plain _ Hl).
  cbn [List.filter]. by destruct (existsb _ _).
Qed.

(** Checking a line off moves at most one match from the first
    expression to the second. *)
Lemma count_matches_check_off l :
  (count_matches unchecked_box (check_off l)
   + count_matches checked_box (check_off l)
   = count_matches unchecked_box l + count_matches checked_box l)%Z ∧
  (count_matches unchecked_box (check_off l)
   ≤ count_matches unchecked_box l)%Z.
Proof.
  destruct (check_off_cases l) as [->|(rest & -> & ->)]; [lia|].
  destruct (split_terminators_cons rest) as (r & rs & Hrest).
  unfold count_matches.
  rewrite (split_terminators_prefix "- [ ] " rest r rs eq_refl Hrest).
  rewrite (split_terminators_prefix "- [x] " rest r rs eq_refl Hrest).
  cbn [List.filter].
  change (existsb (startsWith ("- [ ] " +:+ r)) unchecked_box) with true.
  change (existsb (startsWith ("- [x] " +:+ r)) unchecked_box) with false.
  change (existsb (startsWith ("- [ ] " +:+ r)) checked_box) with false.
  change (existsb (startsWith ("- [x] " +:+ r)) checked_box) with true.
  cbn [length]. lia.
Qed.

(** The same for the text [markComplete] writes. *)
Lemma count_matches_marked content i :
  i < length (split_nl content) →
  let content' :=
    join_nl (<[i := check_off (split_nl content !!! i)]> (split_nl content)) in
  (count_matches unchecked_box content' + count_matches checked_box content'
   = count_matches unchecked_box content + count_matches checked_box content)%Z
  ∧ (count_matches unchecked_box content'
     ≤ count_matches unchecked_box content)%Z.
Proof.
  intros Hi content'. subst content'.
  assert (<[i := check_off (split_nl content !!! i)]> (split_nl content) ≠ [])
    as Hne.
  { intros Hnil%(f_equal length). rewrite length_insert in Hnil.
    simpl in Hnil. lia. }
  rewrite !(count_matches_join _ _ Hne), !sum_insert by done.
  rewrite <- !count_matches_lines.
  pose proof (count_matches_check_off (split_nl content !!! i)). lia.
Qed.

(** *** The loop over the files *)

Section WithRuntime.
Context `{RT : Runtime} `{PT : Paths}.

(** Replacing the content of a file by one with the same total and no
    more matches of the first expression keeps the total of the two
    loops, and does not raise the first count. *)
Lemma count_loop_marked fs p content content' files :
  fs !! p = Some content →
  (count_matches unchecked_box content' + count_matches checked_box content'
   = count_matches unchecked_box content + count_matches checked_box content)%Z
  →
  (count_matches unchecked_box content'
   ≤ count_matches unchecked_box content)%Z →
  ∀ r c r' c', (r' + c' = r + c)%Z → (r' ≤ r)%Z →
  match count_loop unchecked_box fs files r,
        count_loop checked_box fs files c with
  | Ok m, Ok n =>
      ∃ m' n',
        count_loop unchecked_box (<[p := content']> fs) files r' = Ok m' ∧
        count_loop checked_box (<[p := content']> fs) files c' = Ok n' ∧
        (m' + n' = m + n)%Z ∧ (m' ≤ m)%Z
  | _, _ => True
  end.
Proof.
  intros Hp Hsum Hle. induction files as [|q files IH]; intros r c r' c' Hrc Hr.
  { simpl. by eauto 10. }
  cbn [count_loop]. unfold readFileSync.
  destruct (decide (q = p)) as [->|Hne].
  - rewrite lookup_insert_eq, Hp. cbn [bind]. apply IH; lia.
  - rewrite lookup_insert_ne by done.
    destruct (fs !! q) as [other|]; [|done]. cbn [bind]. apply IH; lia.
Qed.

(** The tasks of the lines are no more than the matches of the first
    expression in them. *)
Lemma line_tasks_count filePath i lines :
  (Z.of_nat (length (line_tasks filePath i lines))
   ≤ foldr (fun l n => (count_matches unchecked_box l + n)%Z) 0%Z lines)%Z.
Proof.
  revert i. induction lines as [|line lines IH]; intros i; [done|].
  cbn [line_tasks foldr]. specialize (IH (S i)).
  destruct (incomplete_match line) as [text|] eqn:Hm.
  - apply incomplete_match_spec in Hm as (-> & _ & Ht).
    rewrite count_matches_plain
      by (rewrite no_line_terminator_app; by rewrite Ht).
    change (existsb (startsWith ("- [ ] " +:+ text)) unchecked_box) with true.
    cbn [length]. lia.
  - pose proof (count_matches_nonneg unchecked_box line). lia.
Qed.

(** They are as many when no line has a carriage return and no line is
    a box without text. *)
Lemma line_tasks_count_eq filePath i lines :
  (∀ line, line ∈ lines →
           no_line_terminator line = true ∧ line ≠ "- [ ] ") →
  Z.of_nat (length (line_tasks filePath i lines))
  = foldr (fun l n => (count_matches unchecked_box l + n)%Z) 0%Z lines.
Proof.
  revert i. induction lines as [|line lines IH]; intros i Hlines; [done|].
  cbn [line_tasks foldr].
  specialize (IH (S i) ltac:(intros; apply Hlines; by right)).
  destruct (Hlines line ltac:(by left)) as [Hnt Hbox].
  rewrite (count_matches_plain _ _ Hnt). cbn [existsb unchecked_box].
  rewrite orb_false_r. unfold incomplete_match.
  destruct (startsWith line "- [ ] ") eqn:Hstart; [|lia].
  pose proof (startsWith_split _ _ Hstart) as Hline.
  change (String.length "- [ ] ") with 6 in Hline.
  assert (no_line_terminator (substring_from 6 line) = true) as ->.
  { rewrite Hline, no_line_terminator_app in Hnt.
    by apply andb_prop in Hnt as [_ ?]. }
  destruct (substring_from 6 line) as [|a rest] eqn:Hrest.
  { by rewrite Hline in Hbox. }
  cbn [is_empty negb andb length]. lia.
Qed.

Lemma count_loop_acc prefixes fs files count :
  count_loop prefixes fs files count
  = bind (count_loop prefixes fs files 0)
      (fun n => Ok (count + n)%Z).
Proof.
  revert count. induction files as [|p files IH]; intros count.
  { simpl. f_equal. lia. }
  cbn [count_loop]. destruct (readFileSync fs p) as [content|]; [|done].
  cbn [bind]. rewrite (IH (count + _)%Z), (IH (0 + _)%Z).
  destruct (count_loop prefixes fs files 0) as [n|]; [|done]. simpl.
  f_equal. lia.
Qed.

(** Over the files: where the listing succeeds the count does, and is
    no less than the number of tasks. *)
Lemma file_tasks_count fs files tasks :
  file_tasks fs files [] = Ok tasks →
  ∃ n, count_loop unchecked_box fs files 0 = Ok n ∧
       (Z.of_nat (length tasks) ≤ n)%Z ∧
       ((∀ p content line,
            p ∈ files → fs !! p = Some content → line ∈ split_nl content →
            no_line_terminator line = true ∧ line ≠ "- [ ] ") →
        n = Z.of_nat (length tasks)).
Proof.
  revert tasks. induction files as [|p files IH]; intros tasks.
  { intros [= <-]. exists 0%Z. by repeat split. }
  rewrite file_tasks_cons. cbn [count_loop]. unfold readFileSync.
  destruct (fs !! p) as [content|] eqn:Hp; [|done]. cbn [bind].
  destruct (file_tasks fs files []) as [later|]; [|done].
  cbn [bind]. intros [= <-].
  destruct (IH later eq_refl) as (n & Hn & Hle & Heq).
  rewrite count_loop_acc, Hn. cbn [bind].
  eexists. split; [done|]. rewrite length_app, count_matches_lines.
  split.
  - pose proof (line_tasks_count p 0 (split_nl content)). lia.
  - intros Hlines.
    rewrite Heq by (intros q c l Hq; apply Hlines; by right).
    rewrite <- (line_tasks_count_eq p 0 (split_nl content))
      by (intros l Hl; apply (Hlines p content l); by try left).
    lia.
Qed.

Lemma count_loop_reads prefixes fs files tasks :
  file_tasks fs files [] = Ok tasks →
  ∃ n, count_loop prefixes fs files 0 = Ok n.
Proof.
  revert tasks. induction files as [|p files IH]; intros tasks.
  { by eauto. }
  rewrite file_tasks_cons. cbn [count_loop]. unfold readFileSync.
  destruct (fs !! p) as [content|]; [|done]. cbn [bind].
  destruct (file_tasks fs files []) as [later|]; [|done]. intros _.
  destruct (IH later eq_refl) as (n & Hn).
  rewrite count_loop_acc, Hn. by eauto.
Qed.

Lemma count_loop_absent prefixes fs p content' files count :
  p ∉ files →
  count_loop prefixes (<[p := content']> fs) files count
  = count_loop prefixes fs files count.
Proof.
  revert count. induction files as [|q files IH]; intros count; [done|].
  intros [Hne Hp]%not_elem_of_cons. cbn [count_loop]. unfold readFileSync.
  rewrite lookup_insert_ne by done.
  destruct (fs !! q) as [other|]; [|done]. cbn [bind]. by apply IH.
Qed.

(** Replacing the content of a file that is listed once changes the
    count by the difference of the matches. *)
Lemma count_loop_insert prefixes fs p content content' files :
  fs !! p = Some content → NoDup files → p ∈ files →
  ∀ count n,
    count_loop prefixes fs files count = Ok n →
    count_loop prefixes (<[p := content']> fs) files count
    = Ok (n - count_matches prefixes content
          + count_matches prefixes content')%Z.
Proof.
  intros Hp Hnodup. induction Hnodup as [|q files Hq Hnodup IH];
    intros Hin count n; [by apply elem_of_nil in Hin|].
  cbn [count_loop]. unfold readFileSync.
  destruct (decide (q = p)) as [->|Hne].
  - rewrite lookup_insert_eq, Hp. cbn [bind].
    rewrite count_loop_absent by done.
    rewrite count_loop_acc, (count_loop_acc _ _ _ (count + _)%Z).
    destruct (count_loop prefixes fs files 0) as [k|]; [|done].
    cbn [bind]. intros [= <-]. f_equal. lia.
  - rewrite lookup_insert_ne by done.
    destruct (fs !! q) as [other|]; [|done]. cbn [bind].
    apply IH. by apply elem_of_cons in Hin as [->|Hin].
Qed.

(** The matches of a text after one of its lines is replaced. *)
Lemma count_matches_insert prefixes content i line line' :
  split_nl content !! i = Some line →
  count_matches prefixes (join_nl (<[i := line']> (split_nl content)))
  = (count_matches prefixes content - count_matches prefixes line
     + count_matches prefixes line')%Z.
Proof.
  intros Hi. pose proof (lookup_lt_Some _ _ _ Hi) as Hlt.
  assert (<[i := line']> (split_nl content) ≠ []) as Hne.
  { intros Hnil%(f_equal length). rewrite length_insert in Hnil.
    simpl in Hnil. lia. }
  rewrite (count_matches_join _ _ Hne), sum_insert by done.
  by rewrite <- count_matches_lines, (list_lookup_total_correct _ _ _ Hi).
Qed.

End WithRuntime.
End CountFacts.

Module CountProperties.
Import Text JS MarkdownFolder MarkdownFolderSource.
Import TextFacts MarkdownFolderFacts MarkdownFolderSourceFacts.
Import CountFacts RefFacts.

(** Whatever the id, [markComplete] keeps the sum of [countRemaining] and
    [countCompleted], and does not raise [countRemaining]: the two counts
    succeed after the call where they did before it. *)
Theorem marking_keeps_the_total `{RT : Runtime} `{PT : Paths}
    (src : source) (id : string) (fs : gmap string string) (r c : Z) :
  countRemaining src fs = Ok r → countCompleted src fs = Ok c →
  let fs' := (markComplete (folderPath src) id fs).1 in
  ∃ r' c',
    countRemaining src fs' = Ok r' ∧ countCompleted src fs' = Ok c' ∧
    (r' + c' = r + c)%Z ∧ (r' ≤ r)%Z.
Proof.
  intros Hr Hc fs'. subst fs'.
  destruct (markComplete_unfold (folderPath src) id fs)
    as [[-> _]|(p & num & content & _ & Hp
                & [[_ ->]|(n & _ & Hn & Hmark)])];
    [by exists r, c|by exists r, c|].
  cbv zeta in Hmark. rewrite Hmark. cbn [fst].
  assert (Z.to_nat (n - 1) < length (split_nl content)) as Hi by lia.
  destruct (count_matches_marked content _ Hi) as [Hsum Hle].
  pose proof (count_loop_marked fs p content _ (markdownFiles src)
                Hp Hsum Hle 0%Z 0%Z 0%Z 0%Z eq_refl ltac:(done)) as Hloop.
  unfold countRemaining, countCompleted in *. rewrite Hr, Hc in Hloop.
  exact Hloop.
Qed.

(** [marking_keeps_the_total] on a folder with two task files, for the id
    of a line that is a box without text. *)
Lemma marking_keeps_the_total_witness :
  let src := constructor MoreExamples.folder_disk "prd" in
  let fs := files MoreExamples.folder_disk in
  countRemaining src fs = Ok 4%Z ∧ countCompleted src fs = Ok 1%Z ∧
  ∃ r' c',
    countRemaining src (markComplete (folderPath src) "a.md:4" fs).1 = Ok r' ∧
    countCompleted src (markComplete (folderPath src) "a.md:4" fs).1 = Ok c' ∧
    (r' + c' = 4 + 1)%Z ∧ (r' ≤ 4)%Z.
Proof.
  cbv zeta. split; [reflexivity|]. split; [reflexivity|].
  exact (marking_keeps_the_total (constructor MoreExamples.folder_disk "prd")
           "a.md:4" (files MoreExamples.folder_disk) 4%Z 1%Z
           eq_refl eq_refl).
Defined.

Example marking_a_box_without_text :
  let src := constructor MoreExamples.folder_disk "prd" in
  let fs' := (markComplete "prd" "a.md:4" (files MoreExamples.folder_disk)).1 in
  countRemaining src fs' = Ok 3%Z ∧ countCompleted src fs' = Ok 2%Z ∧
  getAllTasks src fs' = Ok MoreExamples.folder_tasks.
Proof. repeat split. Qed.

(** Where [getAllTasks] succeeds [countRemaining] does, and counts no
    fewer than the tasks listed; it counts as many when every line of the
    listed files is made of ASCII characters, has no carriage return and
    is not a box without text. *)
Theorem remaining_counts_the_listed `{RT : Runtime} `{PT : Paths}
    (src : source) (fs : gmap string string) (tasks : list Task) :
  getAllTasks src fs = Ok tasks →
  ∃ n,
    countRemaining src fs = Ok n ∧ (Z.of_nat (length tasks) ≤ n)%Z ∧
    ((∀ p content line,
         p ∈ markdownFiles src → fs !! p = Some content →
         line ∈ split_nl content →
         ascii_text line = true ∧ no_line_terminator line = true ∧
         line ≠ "- [ ] ") →
     n = Z.of_nat (length tasks)).
Proof.
  intros Hall.
  destruct (file_tasks_count fs (markdownFiles src) tasks Hall)
    as (n & Hn & Hle & Heq).
  exists n. split; [done|]. split; [done|]. intros Hlines. apply Heq.
  intros p content line Hp Hc Hl.
  destruct (Hlines p content line Hp Hc Hl) as (_ & Hnt & Hne). by split.
Qed.

(** [remaining_counts_the_listed] on a folder where one line is a box
    without text: three tasks, four counted. *)
Lemma remaining_counts_the_listed_witness :
  let src := constructor MoreExamples.folder_disk "prd" in
  let fs := files MoreExamples.folder_disk in
  getAllTasks src fs = Ok MoreExamples.folder_tasks ∧
  ∃ n,
    countRemaining src fs = Ok n ∧
    (Z.of_nat (length MoreExamples.folder_tasks) ≤ n)%Z ∧
    ((∀ p content line,
         p ∈ markdownFiles src → fs !! p = Some content →
         line ∈ split_nl content →
         ascii_text line = true ∧ no_line_terminator line = true ∧
         line ≠ "- [ ] ") →
     n = Z.of_nat (length MoreExamples.folder_tasks)).
Proof.
  cbv zeta. split; [reflexivity|].
  exact (remaining_counts_the_listed
           (constructor MoreExamples.folder_disk "prd")
           (files MoreExamples.folder_disk) MoreExamples.folder_tasks
           eq_refl).
Defined.

Example counted_but_not_listed :
  let src := constructor MoreExamples.crlf_disk "prd" in
  let fs := files MoreExamples.crlf_disk in
  getAllTasks src fs = Ok [] ∧ countRemaining src fs = Ok 2%Z ∧
  getNextTask src fs = Ok None.
Proof. repeat split. Qed.

(** In a source that lists no file twice, [markComplete] on the id of a
    task [getAllTasks] lists lowers [countRemaining] by one and raises
    [countCompleted] by one. *)
Theorem marking_moves_one_count `{RT : Runtime} `{PT : Paths}
    (src : source) (fs : gmap string string) (tasks : list Task) (t : Task) :
  (∀ p, p ∈ markdownFiles src →
        path_join (folderPath src) (basename p) = p) →
  (∀ n, (0 < n)%Z → parseInt10 (Ref.decimal n) = Some n) →
  NoDup (markdownFiles src) →
  getAllTasks src fs = Ok tasks → t ∈ tasks →
  let fs' := (markComplete (folderPath src) (id t) fs).1 in
  ∃ r c,
    countRemaining src fs = Ok r ∧ countCompleted src fs = Ok c ∧
    countRemaining src fs' = Ok (r - 1)%Z ∧
    countCompleted src fs' = Ok (c + 1)%Z.
Proof.
  intros Hpaths Hparse Hnodup Hall Ht fs'. subst fs'.
  destruct (listed_task_resolves src Hpaths Hparse fs tasks t Hall Ht)
    as (p & content & j & text & Hp & Hc & Hj & Hm & -> & _).
  cbn [id].
  rewrite (markComplete_listed src Hpaths Hparse fs p content j text)
    by done.
  cbn [fst]. unfold getAllTasks, countRemaining, countCompleted in *.
  destruct (count_loop_reads unchecked_box _ _ _ Hall) as (r & Hr).
  destruct (count_loop_reads checked_box _ _ _ Hall) as (c & Hcc).
  exists r, c. do 2 (split; [done|]).
  apply incomplete_match_spec in Hm as (_ & _ & Hnt).
  assert (no_line_terminator ("- [ ] " +:+ text) = true) as Hbox
    by (rewrite no_line_terminator_app; by rewrite Hnt).
  assert (no_line_terminator ("- [x] " +:+ text) = true) as Hdone
    by (rewrite no_line_terminator_app; by rewrite Hnt).
  split.
  - rewrite (count_loop_insert _ fs p content _ _ Hc Hnodup Hp 0%Z r Hr).
    rewrite (count_matches_insert _ content j _ _ Hj).
    rewrite (count_matches_plain _ _ Hbox), (count_matches_plain _ _ Hdone).
    change (existsb (startsWith ("- [ ] " +:+ text)) unchecked_box) with true.
    change (existsb (startsWith ("- [x] " +:+ text)) unchecked_box) with false.
    f_equal. lia.
  - rewrite (count_loop_insert _ fs p content _ _ Hc Hnodup Hp 0%Z c Hcc).
    rewrite (count_matches_insert _ content j _ _ Hj).
    rewrite (count_matches_plain _ _ Hbox), (count_matches_plain _ _ Hdone).
    change (existsb (startsWith ("- [ ] " +:+ text)) checked_box) with false.
    change (existsb (startsWith ("- [x] " +:+ text)) checked_box) with true.
    f_equal. lia.
Qed.

(** [marking_moves_one_count] on the first task of a folder with two
    task files. *)
Lemma marking_moves_one_count_witness :
  let src := constructor MoreExamples.folder_disk "prd" in
  let fs := files MoreExamples.folder_disk in
  let t := {| id := "a.md:3"; title := "add login"; completed := false |} in
  (∀ p, p ∈ markdownFiles src →
        path_join (folderPath src) (basename p) = p) ∧
  (∀ n, (0 < n)%Z → parseInt10 (Ref.decimal n) = Some n) ∧
  NoDup (markdownFiles src) ∧
  getAllTasks src fs = Ok MoreExamples.folder_tasks ∧
  t ∈ MoreExamples.folder_tasks ∧
  ∃ r c,
    countRemaining src fs = Ok r ∧ countCompleted src fs = Ok c ∧
    countRemaining src (markComplete (folderPath src) (id t) fs).1
    = Ok (r - 1)%Z ∧
    countCompleted src (markComplete (folderPath src) (id t) fs).1
    = Ok (c + 1)%Z.
Proof.
  cbv zeta.
  assert (∀ p, p ∈ markdownFiles (constructor MoreExamples.folder_disk "prd") →
               path_join (folderPath (constructor MoreExamples.folder_disk "prd"))
                 (basename p) = p) as Hpaths.
  { intros p Hp.
    change (markdownFiles (constructor MoreExamples.folder_disk "prd"))
      with ["prd/a.md"; "prd/b.md"] in Hp.
    apply elem_of_cons in Hp as [->|Hp]; [reflexivity|].
    apply list_elem_of_singleton in Hp as ->. reflexivity. }
  split; [exact Hpaths|]. split; [exact ref_parseInt10_decimal|].
  assert (NoDup (markdownFiles (constructor MoreExamples.folder_disk "prd")))
    as Hnodup.
  { change (markdownFiles (constructor MoreExamples.folder_disk "prd"))
      with ["prd/a.md"; "prd/b.md"].
    apply NoDup_cons. split; [|apply NoDup_singleton].
    by intros [=]%list_elem_of_singleton. }
  split; [exact Hnodup|]. split; [reflexivity|].
  assert ({| id := "a.md:3"; title := "add login"; completed := false |}
          ∈ MoreExamples.folder_tasks) as Ht by (by left).
  split; [exact Ht|].
  exact (marking_moves_one_count (constructor MoreExamples.folder_disk "prd")
           (files MoreExamples.folder_disk) MoreExamples.folder_tasks
           {| id := "a.md:3"; title := "add login"; completed := false |}
           Hpaths ref_parseInt10_decimal Hnodup eq_refl Ht).
Defined.

End CountProperties.

(** ** What [parse_ai_result] prints, read back *)

Module OutputFacts.
Import Text Ralphy RalphyTasks RalphyOutput.
Import TextFacts StreamingFacts ShellTextFacts.

#[local] Arguments captured : simpl never.

(** *** [echo] *)

Lemma echo_plain s : echo_option s = false → echo s = s +:+ String nl "".
Proof. unfold echo. by intros ->. Qed.

Lemma echo_option_dash s : echo_option s = true → startsWith s "-" = true.
Proof.
  destruct s as [|a s]; [done|].
  destruct (Ascii.eqb_spec "-" a) as [<-|Hne]; [done|].
  intros H. exfalso. apply Hne. clear Hne.
  destruct a as [[] [] [] [] [] [] [] []]; done.
Qed.

Lemma echo_option_digits s : all_digits s = true → echo_option s = false.
Proof.
  intros Hs. destruct (echo_option s) eqn:Ho; [|done].
  apply echo_option_dash in Ho. destruct s as [|a s]; [done|].
  cbn [startsWith] in Ho.
  destruct (Ascii.eqb_spec "-" a) as [<-|]; [|done].
  by vm_compute in Hs.
Qed.

Lemma forallb_chars_nl a b :
  forallb echo_option_letter
    (String.list_ascii_of_string (a +:+ String nl b)) = false.
Proof. induction a as [|c a IH]; [done|]. simpl. by rewrite IH, andb_false_r. Qed.

(** echo prints a text of more than one line as it is. *)
Lemma echo_option_nl a b : echo_option (a +:+ String nl b) = false.
Proof.
  destruct (echo_option (a +:+ String nl b)) eqn:Ho; [|done].
  pose proof (echo_option_dash _ Ho) as Hdash.
  destruct a as [|d a]; [done|]. rewrite append_cons in Ho, Hdash.
  cbn [startsWith] in Hdash.
  destruct (Ascii.eqb_spec "-" d) as [<-|]; [|done].
  destruct a as [|c a]; [done|]. rewrite append_cons in Ho.
  cbn [echo_option forallb] in Ho.
  by rewrite forallb_chars_nl, andb_false_r in Ho.
Qed.

(** *** Lines *)

Lemma split_nl_app_nl a b :
  split_nl (a +:+ String nl b) = split_nl a ++ split_nl b.
Proof.
  induction a as [|c a IH]; [done|].
  rewrite append_cons. cbn [split_nl]. rewrite IH.
  destruct (Ascii.eqb c nl); [done|].
  by destruct (split_nl_cons a) as (l & ls & ->).
Qed.

Lemma input_lines_nl s : input_lines (s +:+ String nl "") = split_nl s.
Proof.
  unfold input_lines. rewrite split_nl_app_nl.
  change (split_nl "") with [""].
  rewrite last_app_cons, removelast_app_cons. simpl. by rewrite app_nil_r.
Qed.

(** The lines of what echo printed, before a text that follows it. *)
Lemma split_nl_echo s rest :
  split_nl (echo s +:+ rest) = input_lines (echo s) ++ split_nl rest.
Proof.
  unfold echo. destruct (echo_option s).
  - by destruct (includes s "n").
  - rewrite input_lines_nl, append_assoc.
    change (String nl "" +:+ rest) with (String nl rest).
    apply split_nl_app_nl.
Qed.

Lemma piped_join ls : ls ≠ [] → piped ls = join_nl ls +:+ String nl "".
Proof.
  induction ls as [|l ls IH]; [done|]. intros _.
  destruct ls as [|l' ls]; [done|].
  rewrite join_nl_cons.
  change (piped (l :: l' :: ls)) with (l +:+ String nl (piped (l' :: ls))).
  rewrite IH by done. by rewrite append_assoc.
Qed.

Lemma piped_split s : piped (split_nl s) = s +:+ String nl "".
Proof. by rewrite piped_join, join_split by apply split_nl_not_nil. Qed.

(** *** Command substitution *)

Lemma strip_nl_rev_idem r : strip_nl_rev (strip_nl_rev r) = strip_nl_rev r.
Proof.
  induction r as [|c r IH]; [done|]. simpl.
  destruct (Ascii.eqb c nl) eqn:Hc; [done|]. simpl. by rewrite Hc.
Qed.

Lemma captured_idem s : captured (captured s) = captured s.
Proof.
  unfold captured.
  by rewrite String.list_ascii_of_string_of_list_ascii, rev_involutive,
    strip_nl_rev_idem.
Qed.

Lemma captured_nl s : captured (s +:+ String nl "") = captured s.
Proof.
  unfold captured. rewrite chars_app, rev_app_distr. done.
Qed.

(** A text that ends in a line without line feed is captured as it
    is. *)
Lemma captured_ends s l :
  one_line l = true → l ≠ "" → captured (s +:+ l) = s +:+ l.
Proof.
  intros Hl Hne. rewrite <- captured_nl, append_assoc.
  by apply captured_tail.
Qed.

Lemma captured_or_idem r dflt :
  captured (captured_or r dflt) = captured_or r dflt.
Proof. apply captured_idem. Qed.

(** *** The token counts *)

Lemma sanitize_digits x :
  all_digits (sanitize x) = true ∧ sanitize x ≠ "".
Proof.
  unfold sanitize. destruct x as [|c x]; [done|]. cbn [is_empty negb andb].
  by destruct (all_digits (String c x)) eqn:Hx.
Qed.

Lemma sanitize_id x : all_digits x = true → x ≠ "" → sanitize x = x.
Proof.
  intros Hx Hne. unfold sanitize. rewrite Hx. by destruct x.
Qed.

(** *** Reading *)

Lemma sed_print_from_marker_app pre rest :
  ∃ skipped, sed_print_from_marker (pre ++ marker :: rest)
             = skipped ++ marker :: rest.
Proof.
  induction pre as [|l pre (skipped & IH)].
  - exists []. simpl. done.
  - cbn [app sed_print_from_marker].
    destruct (String.eqb l marker).
    + by exists (l :: pre).
    + by exists skipped.
Qed.

Lemma sed_delete_from_marker_app pre rest :
  marker ∉ pre → sed_delete_from_marker (pre ++ marker :: rest) = pre.
Proof.
  induction pre as [|l pre IH]; [done|].
  intros [Hl Hpre]%not_elem_of_cons. cbn [app sed_delete_from_marker].
  destruct (String.eqb_spec l marker) as [->|_]; [done|]. by rewrite IH.
Qed.

Lemma tail_3_app (before : list string) a b c :
  tail_3 (before ++ [a; b; c]) = [a; b; c].
Proof.
  unfold tail_3. rewrite length_app. cbn [length].
  replace (length before + 3 - 3) with (length before) by lia.
  by rewrite drop_app_length.
Qed.

(** A line of a text printed by echo and read by [sed -n 'Np']. *)
Lemma nth_line_lookup n text l :
  echo_option text = false → split_nl text !! (n - 1) = Some l →
  one_line l = true → nth_line n text = l.
Proof.
  intros Htext Hl Hone. unfold nth_line, sed_line.
  rewrite (echo_plain _ Htext), input_lines_nl, Hl. cbn [piped].
  by apply captured_line.
Qed.

(** The record read from the text printed for a record whose counts are
    numbers and whose cost is one line echo prints. *)
Lemma read_print r :
  all_digits (input_tokens r) = true → input_tokens r ≠ "" →
  all_digits (output_tokens r) = true → output_tokens r ≠ "" →
  one_line (actual_cost r) = true → actual_cost r ≠ "" →
  echo_option (actual_cost r) = false →
  let read := read_ai_result (captured (print_ai_result r)) in
  input_tokens read = input_tokens r ∧
  output_tokens read = output_tokens r ∧
  actual_cost read = actual_cost r ∧
  (echo_option (response r) = false → marker ∉ split_nl (response r) →
   response read = captured (response r)).
Proof.
  destruct r as [resp inp out cost]. cbn [response input_tokens output_tokens
                                          actual_cost].
  intros Hinp Hinp_ne Hout Hout_ne Hcost Hcost_ne Hcost_echo.
  pose proof (all_digits_one_line _ Hinp) as Hinp_line.
  pose proof (all_digits_one_line _ Hout) as Hout_line.
  set (data := inp +:+ String nl (out +:+ String nl cost)).
  assert (captured (print_ai_result
                      {| response := resp; input_tokens := inp;
                         output_tokens := out; actual_cost := cost |})
          = echo resp +:+ marker +:+ String nl data) as Hparsed.
  { unfold print_ai_result.
    cbn [response input_tokens output_tokens actual_cost].
    rewrite (echo_plain marker eq_refl),
      (echo_plain inp (echo_option_digits _ Hinp)),
      (echo_plain out (echo_option_digits _ Hout)),
      (echo_plain cost Hcost_echo).
    rewrite <- !append_assoc.
    rewrite (append_assoc _ cost (String nl "")), captured_tail by done.
    subst data. rewrite !append_assoc. done. }
  assert (echo_option (echo resp +:+ marker +:+ String nl data) = false)
    as Hparsed_echo.
  { rewrite <- append_assoc. apply echo_option_nl. }
  assert (split_nl data = [inp; out; cost]) as Hdata.
  { subst data. rewrite !split_app_nl by done.
    by rewrite (split_one_line_id _ Hcost). }
  assert (input_lines (echo (echo resp +:+ marker +:+ String nl data))
          = input_lines (echo resp) ++ [marker; inp; out; cost]) as Hlines.
  { rewrite (echo_plain _ Hparsed_echo), input_lines_nl, split_nl_echo.
    by rewrite (split_app_nl marker data eq_refl), Hdata. }
  assert (read_token_data (echo resp +:+ marker +:+ String nl data) = data)
    as Htokens.
  { unfold read_token_data. rewrite Hlines.
    destruct (sed_print_from_marker_app (input_lines (echo resp))
                [inp; out; cost]) as (skipped & ->).
    change (skipped ++ marker :: [inp; out; cost])
      with (skipped ++ [marker] ++ [inp; out; cost]).
    rewrite app_assoc, tail_3_app, piped_join, captured_nl by done.
    change (join_nl [inp; out; cost]) with data. subst data.
    replace (inp +:+ String nl (out +:+ String nl cost))
      with ((inp +:+ String nl (out +:+ String nl "")) +:+ cost)
      by (by rewrite append_assoc, append_cons, append_assoc).
    by apply captured_ends. }
  assert (echo_option data = false) as Hdata_echo.
  { subst data. apply echo_option_nl. }
  cbv zeta. rewrite Hparsed. unfold read_ai_result.
  cbn [response input_tokens output_tokens actual_cost]. rewrite Htokens.
  rewrite (nth_line_lookup 1 data inp), (nth_line_lookup 2 data out),
    (nth_line_lookup 3 data cost) by (by rewrite ?Hdata).
  rewrite !sanitize_id by done. do 3 (split; [done|]).
  intros Hresp Hmarker. unfold read_response. rewrite Hlines.
  rewrite (echo_plain _ Hresp), input_lines_nl.
  rewrite sed_delete_from_marker_app by done.
  by rewrite piped_split, captured_nl.
Qed.

Section WithEnv.
Variable cfg : config.
Variable E : env.

Lemma parse_ai_result_counts result :
  let r := parse_ai_result cfg E result in
  (all_digits (input_tokens r) = true ∧ input_tokens r ≠ "") ∧
  (all_digits (output_tokens r) = true ∧ output_tokens r ≠ "").
Proof.
  cbv zeta. unfold parse_ai_result.
  destruct (USE_OPENCODE cfg).
  - destruct (if negb _ then _ else _) as [[i o] c].
    cbn [input_tokens output_tokens]. split; apply sanitize_digits.
  - destruct (if negb _ then _ else _) as [[i o] c].
    cbn [input_tokens output_tokens]. split; apply sanitize_digits.
Qed.

(** The response is a captured text: no line feed ends it. *)
Lemma parse_ai_result_response result :
  captured (response (parse_ai_result cfg E result))
  = response (parse_ai_result cfg E result).
Proof.
  unfold parse_ai_result. destruct (USE_OPENCODE cfg).
  - destruct (if negb _ then _ else _) as [[i o] c]. cbn [response].
    unfold text_parts.
    destruct (is_empty (captured_or _ _)); [done|apply captured_or_idem].
  - destruct (negb _); cbn [response]; [apply captured_or_idem|done].
Qed.

Lemma parse_ai_result_claude_cost result :
  USE_OPENCODE cfg = false → actual_cost (parse_ai_result cfg E result) = "0".
Proof.
  intros H. unfold parse_ai_result. rewrite H.
  by destruct (if negb _ then _ else _) as [[i o] c].
Qed.

End WithEnv.
End OutputFacts.

Module OutputProperties.
Import Text Ralphy RalphyTasks RalphyOutput.
Import TextFacts StreamingFacts ShellTextFacts OutputFacts.

(** What [run_single_task] reads from the text [parse_ai_result] printed.
    In Claude mode, and whenever the cost is one line that is not empty
    and that echo does not take for its options, the two token counts and
    the cost are read as they were printed, whatever the response is; the
    response is read as it was printed when echo does not take it for its
    options and no line of it is [---TOKENS---]. *)
Theorem printed_result_is_read_back (cfg : config) (E : env)
    (result : string) :
  let r := parse_ai_result cfg E result in
  let read := parsed_ai_result cfg E result in
  USE_OPENCODE cfg = false
  ∨ (one_line (actual_cost r) = true ∧ actual_cost r ≠ ""
     ∧ echo_option (actual_cost r) = false) →
  input_tokens read = input_tokens r ∧
  output_tokens read = output_tokens r ∧
  actual_cost read = actual_cost r ∧
  (echo_option (response r) = false → marker ∉ split_nl (response r) →
   response read = response r).
Proof.
  intros r read Hcost. subst read. unfold parsed_ai_result. fold r.
  assert (one_line (actual_cost r) = true ∧ actual_cost r ≠ ""
          ∧ echo_option (actual_cost r) = false) as (Hline & Hne & Hecho).
  { destruct Hcost as [Hclaude|Hcost]; [|done]. subst r.
    by rewrite (parse_ai_result_claude_cost cfg E result Hclaude). }
  destruct (parse_ai_result_counts cfg E result) as [[Hi Hi'] [Ho Ho']].
  fold r in Hi, Hi', Ho, Ho'.
  destruct (read_print r Hi Hi' Ho Ho' Hline Hne Hecho)
    as (Hin & Hout & Hc & Hresp).
  do 3 (split; [done|]). intros Hoption Hmarker.
  rewrite (Hresp Hoption Hmarker). subst r.
  apply parse_ai_result_response.
Qed.

(** [printed_result_is_read_back] on an output with a result record
    between two lines that are no records. *)
Lemma printed_result_is_read_back_witness :
  let cfg := Examples.defaults markdown in
  let E := Examples.steady [] Examples.noisy_output in
  let r := parse_ai_result cfg E Examples.noisy_output in
  let read := parsed_ai_result cfg E Examples.noisy_output in
  (USE_OPENCODE cfg = false
   ∨ (one_line (actual_cost r) = true ∧ actual_cost r ≠ ""
      ∧ echo_option (actual_cost r) = false)) ∧
  r = {| response := "X"; input_tokens := "5"; output_tokens := "7";
         actual_cost := "0" |} ∧
  input_tokens read = input_tokens r ∧
  output_tokens read = output_tokens r ∧
  actual_cost read = actual_cost r ∧
  (echo_option (response r) = false → marker ∉ split_nl (response r) →
   response read = response r).
Proof.
  cbv zeta. split; [by left|]. split; [reflexivity|].
  exact (printed_result_is_read_back (Examples.defaults markdown)
           (Examples.steady [] Examples.noisy_output) Examples.noisy_output
           (or_introl eq_refl)).
Defined.

(** A response with a line [---TOKENS---] is cut there, the counts are
    still read; an empty cost moves the counts by one line. *)
Example read_ai_result_edges :
  read_ai_result
    (captured (print_ai_result
       {| response := Examples.lines ["done"; "---TOKENS---"; "more"];
          input_tokens := "5"; output_tokens := "7"; actual_cost := "0" |}))
  = {| response := "done"; input_tokens := "5"; output_tokens := "7";
       actual_cost := "0" |} ∧
  read_ai_result
    (captured (print_ai_result
       {| response := "-n"; input_tokens := "5"; output_tokens := "7";
          actual_cost := "0" |}))
  = {| response := ""; input_tokens := "5"; output_tokens := "7";
       actual_cost := "0" |} ∧
  read_ai_result
    (captured (print_ai_result
       {| response := "done"; input_tokens := "5"; output_tokens := "7";
          actual_cost := "" |}))
  = {| response := "done"; input_tokens := "0"; output_tokens := "5";
       actual_cost := "7" |}.
Proof. repeat split. Qed.

End OutputProperties.
